(** * jp_vocab: the deterministic example-sentence synthesis engine

    A shallow embedding of [tools/build_vocab_master.py] (the selection
    primitive [_pick_index], the reading aligner [make_reading] and the two
    generators [make_example2] and [make_example3]) and of the validation
    predicate [validate_example2] of [tools/llm_expand_examples.py],
    followed by the properties of the specification that concern them;
    then the rest of the three tools (the loaders and the writing loop of
    [build_vocab_master.py]; the keys, the headers, the response text and
    the run of [llm_expand_examples.py]; the run of
    [rebuild_vocab_master.py]) with further properties of the code.

    Python values are modelled as follows.
    - [str] is a sequence of Unicode code points: [list N].  Length, [in],
      [replace], [strip], [endswith] ... work on code points, as in Python.
    - [bytes] is [list N] with every element below 256.
    - [int] is [Z]; [%] is [Z.modulo] (sign of the divisor, as in Python).
    - an exception is a value of [exn]; a call that may raise returns a
      [result], and calls are sequenced with [x <- e ;; k].
    - [hashlib.sha256] is the function of FIPS 180-4, written out in module
      [Sha256] and checked on test vectors.
    - files, the environment, the network, the standard output and child
      processes are inputs: a function that reads a CSV file takes the
      rows that [csv.DictReader] yields, or the exception of a file that
      cannot be decoded or parsed, and a function that writes one returns
      the records written; a file is written in UTF-8, so that the write
      of a text with a lone surrogate raises [UnicodeEncodeError], and the
      file system is taken not to fail otherwise; the API client, [print]
      and [subprocess.check_call] are parameters acting on a world
      outside, and each of them may raise. *)

From Stdlib Require Import String Ascii.
From Stdlib Require Import List NArith ZArith Bool Lia.
Import ListNotations.

Local Open Scope N_scope.

(** ** Exceptions *)

Inductive exn : Type :=
| ZeroDivisionError
| IndexError
| KeyError
| ValueError
| UnicodeEncodeError.

Inductive result (A : Type) : Type :=
| Ok (a : A)
| Raise (e : exn).

Arguments Ok {A} a.
Arguments Raise {A} e.

Definition bind {A B : Type} (m : result A) (k : A -> result B) : result B :=
  match m with
  | Ok a => k a
  | Raise e => Raise e
  end.

Notation "x <- m ;; k" := (bind m (fun x => k))
  (at level 61, m at next level, right associativity).
Notation "' p <- m ;; k" := (bind m (fun x => match x with p => k end))
  (at level 61, p pattern, m at next level, right associativity).

(** ** Strings *)

Definition char : Type := N.
Definition str : Type := list char.
Definition bytes : Type := list N.

(** Source literals are written as Rocq strings, which hold the UTF-8 bytes
    of the text; [utf8_literal] decodes them to code points, and the
    notation [u "..."] stands for the decoded literal. *)

Fixpoint bytes_of_string (s : string) : bytes :=
  match s with
  | EmptyString => []
  | String a r => N_of_ascii a :: bytes_of_string r
  end.

Fixpoint utf8_decode_go (need : nat) (acc : N) (bs : bytes) : str :=
  match bs with
  | [] => []
  | b :: r =>
      match need with
      | O =>
          if b <? 0x80 then b :: utf8_decode_go 0 0 r
          else if b <? 0xE0 then utf8_decode_go 1 (N.land b 0x1F) r
          else if b <? 0xF0 then utf8_decode_go 2 (N.land b 0x0F) r
          else utf8_decode_go 3 (N.land b 0x07) r
      | S k =>
          let acc' := acc * 64 + N.land b 0x3F in
          match k with
          | O => acc' :: utf8_decode_go 0 0 r
          | S _ => utf8_decode_go k acc' r
          end
      end
  end.

Definition utf8_literal (s : string) : str :=
  utf8_decode_go 0 0 (bytes_of_string s).

Notation "'u' s" :=
  (ltac:(let v := eval vm_compute in (utf8_literal s) in exact v))
  (at level 1, s at level 0, only parsing).

(** [str.encode("utf-8")]: a lone surrogate raises [UnicodeEncodeError].
    (Code points above U+10FFFF do not exist in a Python [str]; the model
    rejects them in the same way.) *)

Definition encode_char (c : char) : result bytes :=
  if c <? 0x80 then Ok [c]
  else if c <? 0x800 then Ok [0xC0 + c / 64; 0x80 + c mod 64]
  else if c <? 0x10000 then
    if (0xD800 <=? c) && (c <=? 0xDFFF) then Raise UnicodeEncodeError
    else Ok [0xE0 + c / 4096; 0x80 + (c / 64) mod 64; 0x80 + c mod 64]
  else if c <? 0x110000 then
    Ok [0xF0 + c / 262144; 0x80 + (c / 4096) mod 64;
        0x80 + (c / 64) mod 64; 0x80 + c mod 64]
  else Raise UnicodeEncodeError.

Fixpoint encode_utf8 (s : str) : result bytes :=
  match s with
  | [] => Ok []
  | c :: r =>
      bs <- encode_char c ;;
      rest <- encode_utf8 r ;;
      Ok (bs ++ rest)
  end.

(** A string that [encode] accepts: every code point is a Unicode scalar
    value.  Text decoded from a UTF-8 file always is. *)

Definition scalar_value (c : char) : bool :=
  (c <? 0x110000) && negb ((0xD800 <=? c) && (c <=? 0xDFFF)).

Definition encodable (s : str) : bool := forallb scalar_value s.

(** ** hashlib.sha256 (FIPS 180-4) *)

Module Sha256.

Definition mask32 (x : N) : N := x mod 4294967296.
Definition add32 (x y : N) : N := mask32 (x + y).
Definition rotr (n x : N) : N :=
  N.lor (N.shiftr x n) (mask32 (N.shiftl x (32 - n))).
Definition not32 (x : N) : N := 4294967295 - mask32 x.

Definition ch (x y z : N) : N :=
  N.lxor (N.land x y) (N.land (not32 x) z).
Definition maj (x y z : N) : N :=
  N.lxor (N.lxor (N.land x y) (N.land x z)) (N.land y z).
Definition bsig0 (x : N) : N :=
  N.lxor (N.lxor (rotr 2 x) (rotr 13 x)) (rotr 22 x).
Definition bsig1 (x : N) : N :=
  N.lxor (N.lxor (rotr 6 x) (rotr 11 x)) (rotr 25 x).
Definition ssig0 (x : N) : N :=
  N.lxor (N.lxor (rotr 7 x) (rotr 18 x)) (N.shiftr x 3).
Definition ssig1 (x : N) : N :=
  N.lxor (N.lxor (rotr 17 x) (rotr 19 x)) (N.shiftr x 10).

Definition round_constants : list N :=
  [ 0x428A2F98; 0x71374491; 0xB5C0FBCF; 0xE9B5DBA5;
    0x3956C25B; 0x59F111F1; 0x923F82A4; 0xAB1C5ED5;
    0xD807AA98; 0x12835B01; 0x243185BE; 0x550C7DC3;
    0x72BE5D74; 0x80DEB1FE; 0x9BDC06A7; 0xC19BF174;
    0xE49B69C1; 0xEFBE4786; 0x0FC19DC6; 0x240CA1CC;
    0x2DE92C6F; 0x4A7484AA; 0x5CB0A9DC; 0x76F988DA;
    0x983E5152; 0xA831C66D; 0xB00327C8; 0xBF597FC7;
    0xC6E00BF3; 0xD5A79147; 0x06CA6351; 0x14292967;
    0x27B70A85; 0x2E1B2138; 0x4D2C6DFC; 0x53380D13;
    0x650A7354; 0x766A0ABB; 0x81C2C92E; 0x92722C85;
    0xA2BFE8A1; 0xA81A664B; 0xC24B8B70; 0xC76C51A3;
    0xD192E819; 0xD6990624; 0xF40E3585; 0x106AA070;
    0x19A4C116; 0x1E376C08; 0x2748774C; 0x34B0BCB5;
    0x391C0CB3; 0x4ED8AA4A; 0x5B9CCA4F; 0x682E6FF3;
    0x748F82EE; 0x78A5636F; 0x84C87814; 0x8CC70208;
    0x90BEFFFA; 0xA4506CEB; 0xBEF9A3F7; 0xC67178F2 ].

(** The eight working variables / the intermediate hash value. *)
Record state : Type := mkState {
  ha : N; hb : N; hc : N; hd : N; he : N; hf : N; hg : N; hh : N
}.

Definition initial : state :=
  mkState 0x6A09E667 0xBB67AE85 0x3C6EF372 0xA54FF53A
          0x510E527F 0x9B05688C 0x1F83D9AB 0x5BE0CD19.

(** Padding: 0x80, zeros up to 56 mod 64, then the bit length on 8 bytes. *)
Definition be_bytes (width : nat) (x : N) : bytes :=
  map (fun i => (x / 256 ^ N.of_nat i) mod 256) (rev (seq 0 width)).

Definition pad (msg : bytes) : bytes :=
  let len := N.of_nat (length msg) in
  let zeros := N.to_nat ((119 - len mod 64) mod 64) in
  msg ++ [0x80] ++ repeat 0 zeros ++ be_bytes 8 (8 * len).

Fixpoint be_words (fuel : nat) (bs : bytes) : list N :=
  match fuel, bs with
  | S f, b0 :: b1 :: b2 :: b3 :: r =>
      (((b0 * 256 + b1) * 256 + b2) * 256 + b3) :: be_words f r
  | _, _ => []
  end.

Fixpoint blocks (fuel : nat) (ws : list N) : list (list N) :=
  match fuel with
  | O => []
  | S f =>
      match ws with
      | [] => []
      | _ => firstn 16 ws :: blocks f (skipn 16 ws)
      end
  end.

(** Message schedule, kept most recent word first. *)
Fixpoint extend (n : nat) (rev_w : list N) : list N :=
  match n with
  | O => rev_w
  | S k =>
      let w2 := nth 1 rev_w 0 in
      let w7 := nth 6 rev_w 0 in
      let w15 := nth 14 rev_w 0 in
      let w16 := nth 15 rev_w 0 in
      extend k (add32 (add32 (ssig1 w2) w7) (add32 (ssig0 w15) w16) :: rev_w)
  end.

Definition schedule (block : list N) : list N :=
  rev (extend 48 (rev block)).

Definition round (s : state) (kw : N * N) : state :=
  let (k, w) := kw in
  let t1 := add32 (add32 (add32 (hh s) (bsig1 (he s)))
                         (add32 (ch (he s) (hf s) (hg s)) k)) w in
  let t2 := add32 (bsig0 (ha s)) (maj (ha s) (hb s) (hc s)) in
  mkState (add32 t1 t2) (ha s) (hb s) (hc s)
          (add32 (hd s) t1) (he s) (hf s) (hg s).

Definition compress (h : state) (block : list N) : state :=
  let s := fold_left round (combine round_constants (schedule block)) h in
  mkState (add32 (ha h) (ha s)) (add32 (hb h) (hb s))
          (add32 (hc h) (hc s)) (add32 (hd h) (hd s))
          (add32 (he h) (he s)) (add32 (hf h) (hf s))
          (add32 (hg h) (hg s)) (add32 (hh h) (hh s)).

Definition word_bytes (x : N) : bytes :=
  [ (x / 16777216) mod 256; (x / 65536) mod 256; (x / 256) mod 256; x mod 256 ].

Definition digest_of (s : state) : bytes :=
  word_bytes (ha s) ++ word_bytes (hb s) ++ word_bytes (hc s) ++
  word_bytes (hd s) ++ word_bytes (he s) ++ word_bytes (hf s) ++
  word_bytes (hg s) ++ word_bytes (hh s).

Definition digest (msg : bytes) : bytes :=
  let padded := pad msg in
  let ws := be_words (length padded) padded in
  digest_of (fold_left compress (blocks (length ws) ws) initial).

End Sha256.

(** ** The selection primitive *)

(** [int.from_bytes(b, "big")] *)
Definition int_from_bytes_big (b : bytes) : Z :=
  Z.of_N (fold_left (fun acc x => acc * 256 + x) b 0).

(** [a % n] on Python ints. *)
Definition py_mod (a n : Z) : result Z :=
  if Z.eqb n 0 then Raise ZeroDivisionError else Ok (Z.modulo a n).

Definition _pick_index (seed : str) (n : Z) : result Z :=
  raw <- encode_utf8 seed ;;
  let h := Sha256.digest raw in
  py_mod (int_from_bytes_big (firstn 4 h)) n.

(** ** Python string operations *)

Definition str_eqb (a b : str) : bool :=
  if list_eq_dec N.eq_dec a b then true else false.

(** [s.startswith(p)] *)
Fixpoint startswith (s p : str) {struct p} : bool :=
  match p, s with
  | [], _ => true
  | _ :: _, [] => false
  | a :: p', b :: s' => (a =? b) && startswith s' p'
  end.

(** [s.endswith(p)] *)
Definition endswith (s p : str) : bool := startswith (rev s) (rev p).

(** [sub in s] *)
Fixpoint str_contains (sub s : str) : bool :=
  match s with
  | [] => startswith [] sub
  | _ :: s' => startswith s sub || str_contains sub s'
  end.

(** [s.replace(old, new)] for a non-empty [old]: scan from the left; at an
    occurrence emit [new] and jump over it ([skip] counts the code points of
    the occurrence still to be jumped over), otherwise copy one code point. *)
Fixpoint replace_from (old new : str) (skip : nat) (s : str) : str :=
  match s with
  | [] => []
  | c :: s' =>
      match skip with
      | S k => replace_from old new k s'
      | O =>
          if startswith s old
          then new ++ replace_from old new (pred (length old)) s'
          else c :: replace_from old new 0 s'
      end
  end.

(** [s.replace("", new)] puts [new] before every code point and at the end. *)
Fixpoint interleave (new s : str) : str :=
  match s with
  | [] => new
  | c :: s' => new ++ c :: interleave new s'
  end.

Definition str_replace (s old new : str) : str :=
  match old with
  | [] => interleave new s
  | _ :: _ => replace_from old new 0 s
  end.

(** [str.isspace] on one code point: the white space that [strip()] removes. *)
Definition is_space (c : char) : bool :=
  ((0x09 <=? c) && (c <=? 0x0D)) || ((0x1C <=? c) && (c <=? 0x20))
  || (c =? 0x85) || (c =? 0xA0) || (c =? 0x1680)
  || ((0x2000 <=? c) && (c <=? 0x200A))
  || (c =? 0x2028) || (c =? 0x2029) || (c =? 0x202F) || (c =? 0x205F)
  || (c =? 0x3000).

Fixpoint drop_while (p : char -> bool) (s : str) : str :=
  match s with
  | [] => []
  | c :: s' => if p c then drop_while p s' else s
  end.

Definition lstrip_by (p : char -> bool) (s : str) : str := drop_while p s.
Definition rstrip_by (p : char -> bool) (s : str) : str :=
  rev (drop_while p (rev s)).

(** [s.strip()] *)
Definition strip (s : str) : str := rstrip_by is_space (lstrip_by is_space s).

(** [s.rstrip(chars)] *)
Definition rstrip (s chars : str) : str :=
  rstrip_by (fun c => existsb (N.eqb c) chars) s.

(** [s.lower()].  ASCII letters, and the two code points outside ASCII
    whose lower case contains an ASCII letter (U+0130 and the Kelvin sign
    U+212A), are mapped as Python does.  Every other code point outside
    ASCII is left as it is: Python maps it to code points outside ASCII
    again, and the program only asks whether the ASCII word "evidence"
    occurs in the result. *)
Definition lower_char (c : char) : str :=
  if (0x41 <=? c) && (c <=? 0x5A) then [c + 32]
  else if c =? 0x130 then [0x69; 0x307]
  else if c =? 0x212A then [0x6B]
  else [c].

Definition str_lower (s : str) : str := flat_map lower_char s.

(** [len(x)] *)
Definition len {A : Type} (l : list A) : Z := Z.of_nat (length l).

(** [l[i]] *)
Definition list_getitem {A : Type} (l : list A) (i : Z) : result A :=
  let j := if (i <? 0)%Z then (i + len l)%Z else i in
  if (j <? 0)%Z then Raise IndexError
  else match nth_error l (Z.to_nat j) with
       | Some x => Ok x
       | None => Raise IndexError
       end.

(** Dictionaries and sets with string keys, in insertion order. *)
Fixpoint dict_get {V : Type} (d : list (str * V)) (k : str) : option V :=
  match d with
  | [] => None
  | (k', v) :: d' => if str_eqb k k' then Some v else dict_get d' k
  end.

(** [k in d] *)
Definition dict_mem {V : Type} (d : list (str * V)) (k : str) : bool :=
  match dict_get d k with Some _ => true | None => false end.

(** [d[k]] *)
Definition dict_getitem {V : Type} (d : list (str * V)) (k : str) : result V :=
  match dict_get d k with Some v => Ok v | None => Raise KeyError end.

(** [x in {a, b, ...}] *)
Definition set_mem (x : str) (s : list str) : bool := existsb (str_eqb x) s.

(** [tmpl.format(name=value, ...)] for templates whose replacement fields
    are plain names (t and en in this program); a doubled brace is an
    escaped brace. *)
Inductive fmt_state : Type :=
| FLit
| FOpen
| FField (rev_name : str)
| FClose.

Definition lbrace : char := 0x7B.
Definition rbrace : char := 0x7D.

Fixpoint format_go (kw : list (str * str)) (st : fmt_state) (tmpl : str)
  : result str :=
  match tmpl with
  | [] => match st with FLit => Ok [] | _ => Raise ValueError end
  | c :: r =>
      match st with
      | FLit =>
          if c =? lbrace then format_go kw FOpen r
          else if c =? rbrace then format_go kw FClose r
          else rest <- format_go kw FLit r ;; Ok (c :: rest)
      | FOpen =>
          if c =? lbrace then rest <- format_go kw FLit r ;; Ok (lbrace :: rest)
          else if c =? rbrace then Raise IndexError
          else format_go kw (FField [c]) r
      | FField rev_name =>
          if c =? rbrace then
            v <- dict_getitem kw (rev rev_name) ;;
            rest <- format_go kw FLit r ;;
            Ok (v ++ rest)
          else format_go kw (FField (c :: rev_name)) r
      | FClose =>
          if c =? rbrace then rest <- format_go kw FLit r ;; Ok (rbrace :: rest)
          else Raise ValueError
      end
  end.

Definition format (tmpl : str) (kw : list (str * str)) : result str :=
  format_go kw FLit tmpl.

(** ** tools/build_vocab_master.py *)

Record Row : Type := mkRow {
  deck : str;
  front : str;
  back : str;
  japanese : str;
  hiragana : str;
  english : str;
  example_jp : str;
  example_hiragana : str;
  example_en : str
}.

Definition triple : Type := (str * str * str)%type.

Definition make_reading (sentence_jp term_jp term_hira : str) : str :=
  if str_contains term_jp sentence_jp
  then str_replace sentence_jp term_jp term_hira
  else [].

(** The local dictionary [specials] of [make_example2]. *)
Definition specials : list (str * triple) :=
  [
    (u "結論から言うと",
     (u "結論から言うと、問題ありません。", u "けつろんからいうと、もんだいありません。", u "Bottom line: no problem."));
    (u "次回までに",
     (u "次回までに、対応します。", u "じかいまでに、たいおうします。", u "I'll handle it by next time."));
    (u "前倒し",
     (u "前倒しで進めます。", u "まえだおしですすめます。", u "We'll move it earlier."));
    (u "後ろ倒し",
     (u "後ろ倒しにします。", u "うしろだおしにします。", u "We'll push it back."));
    (u "予定通り",
     (u "予定通り進めます。", u "よていどおりすすめます。", u "We'll proceed as planned."));
    (u "いったん",
     (u "いったん、ここで止めます。", u "いったん、ここでとめます。", u "For now, we'll stop here."))
  ].

(** The local lists [frames], one per branch, as (Japanese template,
    English template). *)

(** make_example2, terms ending in します *)
Definition ex2_frames_v1 : list (str * str) :=
  [
    (u "いま、{t}。", u "{en} now.");
    (u "このあと、{t}。", u "{en} after this.");
    (u "{t}ので、すこしまってください。", u "{en}, so please wait a moment.");
    (u "{t}。おわったらおしえます。", u "{en}. I'll let you know when I'm done.")
  ].

(** make_example2, terms ending in ください *)
Definition ex2_frames_v2 : list (str * str) :=
  [
    (u "すみません、{t}。", u "{en}.");
    (u "もういちど{t}。", u "{en} again.");
    (u "あとで{t}。", u "{en} later.")
  ].

(** make_example2, the two meeting adverbs *)
Definition ex2_frames_v3 : list (str * str) :=
  [
    (u "{t}、もういちどかくにんします。", u "{en} — I'll double-check.");
    (u "{t}、いまのじょうきょうをきょうゆうします。", u "{en} — I'll share the current status.");
    (u "{t}、つぎのすてっぷをせつめいします。", u "{en} — I'll explain the next steps.")
  ].

(** make_example2, questions *)
Definition ex2_frames_v4 : list (str * str) :=
  [
    (u "このへんこうで{t}", u "Is there any impact from this change?");
    (u "{t}。", u "{en}?");
    (u "いまのじょうきょうで{t}", u "{en}?")
  ].

(** make_example2, terms ending in です *)
Definition ex2_frames_v5 : list (str * str) :=
  [
    (u "きょうは{t}。", u "Today it's {en}.");
    (u "このけんは{t}。", u "For this item, it's {en}.");
    (u "いまは{t}。", u "Right now, it's {en}.")
  ].

(** make_example2, other meeting cards *)
Definition ex2_frames_m1 : list (str * str) :=
  [
    (u "まず{t}をそろえましょう。", u "Let's align on {en} first.");
    (u "{t}をきめてからすすみます。", u "We'll proceed after deciding {en}.");
    (u "この{t}はどうおもいますか。", u "What do you think about this {en}?");
    (u "{t}をみなおして、つぎにすすみます。", u "We'll revisit {en} and move forward.");
    (u "{t}をきょうゆうしてもらえますか。", u "Could you share the {en}?")
  ].

(** make_example2, default *)
Definition ex2_frames_t1 : list (str * str) :=
  [
    (u "この{t}をつかって、けっかをくらべます。", u "We'll use {en} and compare results.");
    (u "{t}をかえて、せいのうをみます。", u "We'll adjust {en} and check performance.");
    (u "{t}をためして、ばらつきをしらべます。", u "We'll test {en} and look for variability.");
    (u "{t}をついかして、せいどをあげます。", u "We'll add {en} to improve accuracy.");
    (u "{t}をへらして、ふかをさげます。", u "We'll reduce {en} to lower load.");
    (u "{t}のせっていをきろくします。", u "We'll document the {en} settings.");
    (u "{t}のちがいをせつめいできますか。", u "Can you explain {en}?");
    (u "{t}をえらぶりゆうをきょうゆうしてください。", u "Please share why we chose {en}.");
    (u "まず{t}をみなおします。", u "First, we'll revisit {en}.");
    (u "このしすてむで{t}をつかいます。", u "We'll use {en} in this system.")
  ].

(** make_example3, meeting permission requests *)
Definition ex3_frames_mperm : list (str * str) :=
  [
    (u "{t}。ごふんだけいいですか。", u "{en}. Do you have five minutes?");
    (u "{t}。いまきめきれません。", u "{en}. I can't decide right now.");
    (u "このけん、{t}。あとでじかんをください。", u "{en} on this—please give me some time later.")
  ].

(** make_example3, terms ending in ください *)
Definition ex3_frames_kudasai : list (str * str) :=
  [
    (u "{t}。よろしくおねがいします。", u "{en}. Thank you.");
    (u "{t}。あとででもだいじょうぶです。", u "{en}. Later is fine too.");
    (u "すみません、{t}。", u "{en}. Sorry to bother you.")
  ].

(** make_example3, terms ending in します *)
Definition ex3_frames_suru : list (str * str) :=
  [
    (u "{t}。そのあと、つぎにすすみます。", u "{en}. Then we'll move on.");
    (u "あとで{t}。いまはべつのたいおうちゅうです。", u "{en} later. I'm handling something else right now.");
    (u "{t}。すこしじかんをください。", u "{en}. Please give me a bit of time.");
    (u "{t}。おわったらすぐにおしえます。", u "{en}. I'll let you know once it's done.")
  ].

(** make_example3, the meeting card 念のため *)
Definition ex3_frames_nen : list (str * str) :=
  [
    (u "{t}、ろぐをみます。", u "{en}, I'll check the logs.");
    (u "{t}、すくりーんしょっとをとります。", u "{en}, I'll take a screenshot.");
    (u "{t}、めもをのこします。", u "{en}, I'll leave a note.")
  ].

(** make_example3, other meeting cards *)
Definition ex3_frames_m : list (str * str) :=
  [
    (u "この{t}はあとでまとめます。", u "We'll summarize this {en} later.");
    (u "{t}がずれているかもしれません。", u "{en} might be misaligned.");
    (u "{t}をかくにんしてから、けつろんをだします。", u "We'll confirm {en} before we conclude.");
    (u "{t}をへんこうするよていはありますか。", u "Do we plan to change the {en}?")
  ].

(** make_example3, default *)
Definition ex3_frames_t : list (str * str) :=
  [
    (u "{t}をぶんせきして、げんいんをさがします。", u "We'll analyze {en} and look for the root cause.");
    (u "{t}をもとに、けっていをします。", u "We'll make a decision based on {en}.");
    (u "{t}をいったんさくじょして、えいきょうをみます。", u "We'll temporarily remove {en} and see the impact.");
    (u "{t}をさいていぎして、けいそくしなおします。", u "We'll redefine {en} and measure again.");
    (u "{t}をさいげんできるように、ろぐをのこします。", u "We'll keep logs so we can reproduce {en}.")
  ].

Definition make_example2 (row : Row) : result triple :=
  let jp := japanese row in
  let hira := hiragana row in
  let en := english row in
  if dict_mem specials jp then dict_getitem specials jp
  else if str_contains (u "〜") jp then
    if str_contains (u "よろしいでしょうか") jp then
      let ex_jp := u "この内容でよろしいでしょうか。" in
      let ex_hira := u "このないようでよろしいでしょうか。" in
      let ex_en := u "Would this be okay?" in
      Ok (ex_jp, ex_hira, ex_en)
    else if str_contains (u "という認識です") jp then
      let ex_jp := u "この点はそういう認識です。" in
      let ex_hira := u "このてんはそういうにんしきです。" in
      let ex_en := u "That's my understanding." in
      Ok (ex_jp, ex_hira, ex_en)
    else
      let filled_jp := str_replace jp (u "〜") (u "この点") in
      let filled_hira := str_replace hira (u "〜") (u "このてん") in
      let ex_jp := filled_jp ++ u "。" in
      let ex_hira := filled_hira ++ u "。" in
      let ex_en := u "Example: " ++ en in
      Ok (ex_jp, ex_hira, ex_en)
  else if endswith jp (u "は")
          && (str_contains (u "?") en
              || str_contains (u "evidence") (str_lower en)) then
    let ex_jp := jp ++ u "ありますか。" in
    let ex_hira := hira ++ u "ありますか。" in
    let ex_en := u "Could you share the evidence?" in
    Ok (ex_jp, ex_hira, ex_en)
  else
  let is_meeting := endswith (deck row) (u "meeting_phrases") in
  let seed := deck row ++ u "|" ++ jp ++ u "|" ++ hira ++ u "|" ++ en in
  let _make_reading := fun sentence_jp => make_reading sentence_jp jp hira in
  if endswith jp (u "します") then
    let frames := ex2_frames_v1 in
    i <- _pick_index (seed ++ u "|v1") (len frames) ;;
    ' (tmpl_jp, tmpl_en) <- list_getitem frames i ;;
    ex_jp <- format tmpl_jp [(u "t", jp)] ;;
    let ex_hira := _make_reading ex_jp in
    ex_en <- format tmpl_en [(u "en", rstrip (strip en) (u "."))] ;;
    Ok (ex_jp, ex_hira, ex_en)
  else if endswith jp (u "ください") then
    let frames := ex2_frames_v2 in
    i <- _pick_index (seed ++ u "|v2") (len frames) ;;
    ' (tmpl_jp, tmpl_en) <- list_getitem frames i ;;
    ex_jp <- format tmpl_jp [(u "t", jp)] ;;
    let ex_hira := _make_reading ex_jp in
    ex_en <- format tmpl_en [(u "en", rstrip (strip en) (u "."))] ;;
    Ok (ex_jp, ex_hira, ex_en)
  else if is_meeting && set_mem jp [u "念のため"; u "追加で"] then
    let frames := ex2_frames_v3 in
    i <- _pick_index (seed ++ u "|v3") (len frames) ;;
    ' (tmpl_jp, tmpl_en) <- list_getitem frames i ;;
    ex_jp <- format tmpl_jp [(u "t", jp)] ;;
    let ex_hira := _make_reading ex_jp in
    ex_en <- format tmpl_en [(u "en", rstrip (strip en) (u "."))] ;;
    Ok (ex_jp, ex_hira, ex_en)
  else if endswith jp (u "か") || endswith (strip en) (u "?") then
    let frames := ex2_frames_v4 in
    i <- _pick_index (seed ++ u "|v4") (len frames) ;;
    ' (tmpl_jp, tmpl_en) <- list_getitem frames i ;;
    ex_jp <- format tmpl_jp [(u "t", jp)] ;;
    let ex_jp :=
      if negb (endswith ex_jp (u "か")) && negb (endswith ex_jp (u "？"))
      then rstrip ex_jp (u "。") ++ u "？"
      else ex_jp in
    let ex_hira := _make_reading ex_jp in
    ex_en <- format tmpl_en [(u "en", rstrip (rstrip en (u "?")) (u "."))] ;;
    let ex_en := if negb (endswith ex_en (u "?")) then ex_en ++ u "?" else ex_en in
    Ok (ex_jp, ex_hira, ex_en)
  else if endswith jp (u "です") then
    let frames := ex2_frames_v5 in
    i <- _pick_index (seed ++ u "|v5") (len frames) ;;
    ' (tmpl_jp, tmpl_en) <- list_getitem frames i ;;
    ex_jp <- format tmpl_jp [(u "t", jp)] ;;
    let ex_hira := _make_reading ex_jp in
    ex_en <- format tmpl_en [(u "en", en)] ;;
    Ok (ex_jp, ex_hira, ex_en)
  else if is_meeting then
    let frames := ex2_frames_m1 in
    i <- _pick_index (seed ++ u "|m1") (len frames) ;;
    ' (tmpl_jp, tmpl_en) <- list_getitem frames i ;;
    ex_jp <- format tmpl_jp [(u "t", jp)] ;;
    let ex_hira := _make_reading ex_jp in
    ex_en <- format tmpl_en [(u "en", en)] ;;
    Ok (ex_jp, ex_hira, ex_en)
  else
    let frames := ex2_frames_t1 in
    i <- _pick_index (seed ++ u "|t1") (len frames) ;;
    ' (tmpl_jp, tmpl_en) <- list_getitem frames i ;;
    ex_jp <- format tmpl_jp [(u "t", jp)] ;;
    let ex_hira := _make_reading ex_jp in
    ex_en <- format tmpl_en [(u "en", en)] ;;
    Ok (ex_jp, ex_hira, ex_en).

Definition make_example3 (row : Row) : result triple :=
  let jp := japanese row in
  let hira := hiragana row in
  let en := english row in
  let seed := deck row ++ u "|" ++ jp ++ u "|" ++ hira ++ u "|" ++ en ++ u "|ex3" in
  let _make_reading := fun sentence_jp => make_reading sentence_jp jp hira in
  let is_meeting := endswith (deck row) (u "meeting_phrases") in
  if is_meeting && str_contains (u "させてください") jp then
    let frames := ex3_frames_mperm in
    i <- _pick_index (seed ++ u "|mperm") (len frames) ;;
    ' (tmpl_jp, tmpl_en) <- list_getitem frames i ;;
    ex_jp <- format tmpl_jp [(u "t", jp)] ;;
    let ex_hira := _make_reading ex_jp in
    ex_en <- format tmpl_en [(u "en", rstrip (strip en) (u "."))] ;;
    Ok (ex_jp, ex_hira, ex_en)
  else if endswith jp (u "ください") then
    let frames := ex3_frames_kudasai in
    i <- _pick_index (seed ++ u "|kudasai") (len frames) ;;
    ' (tmpl_jp, tmpl_en) <- list_getitem frames i ;;
    ex_jp <- format tmpl_jp [(u "t", jp)] ;;
    let ex_hira := _make_reading ex_jp in
    ex_en <- format tmpl_en [(u "en", rstrip (strip en) (u "."))] ;;
    Ok (ex_jp, ex_hira, ex_en)
  else if endswith jp (u "します") then
    let frames := ex3_frames_suru in
    i <- _pick_index (seed ++ u "|suru") (len frames) ;;
    ' (tmpl_jp, tmpl_en) <- list_getitem frames i ;;
    ex_jp <- format tmpl_jp [(u "t", jp)] ;;
    let ex_hira := _make_reading ex_jp in
    ex_en <- format tmpl_en [(u "en", rstrip (strip en) (u "."))] ;;
    Ok (ex_jp, ex_hira, ex_en)
  else if is_meeting then
    if str_eqb jp (u "念のため") then
      let frames := ex3_frames_nen in
      i <- _pick_index (seed ++ u "|nen") (len frames) ;;
      ' (tmpl_jp, tmpl_en) <- list_getitem frames i ;;
      ex_jp <- format tmpl_jp [(u "t", jp)] ;;
      let ex_hira := _make_reading ex_jp in
      ex_en <- format tmpl_en [(u "en", rstrip (strip en) (u "."))] ;;
      Ok (ex_jp, ex_hira, ex_en)
    else
      let frames := ex3_frames_m in
      i <- _pick_index (seed ++ u "|m") (len frames) ;;
      ' (tmpl_jp, tmpl_en) <- list_getitem frames i ;;
      ex_jp <- format tmpl_jp [(u "t", jp)] ;;
      let ex_hira := _make_reading ex_jp in
      ex_en <- format tmpl_en [(u "en", rstrip (strip en) (u "."))] ;;
      Ok (ex_jp, ex_hira, ex_en)
  else
    let frames := ex3_frames_t in
    i <- _pick_index (seed ++ u "|t") (len frames) ;;
    ' (tmpl_jp, tmpl_en) <- list_getitem frames i ;;
    ex_jp <- format tmpl_jp [(u "t", jp)] ;;
    let ex_hira := _make_reading ex_jp in
    ex_en <- format tmpl_en [(u "en", rstrip (strip en) (u "."))] ;;
    Ok (ex_jp, ex_hira, ex_en).

(** ** tools/llm_expand_examples.py *)

(** The character class of [HIRAGANA_KATAKANA_RE]. *)
Definition kana_class (c : char) : bool :=
  ((0x3040 <=? c) && (c <=? 0x309F))
  || ((0x30A0 <=? c) && (c <=? 0x30FF))
  || ((0x3000 <=? c) && (c <=? 0x303F))
  || (c =? 0x20)
  || ((0x30 <=? c) && (c <=? 0x39))
  || ((0x61 <=? c) && (c <=? 0x7A))
  || ((0x41 <=? c) && (c <=? 0x5A))
  || existsb (N.eqb c) (u "。、！？ー・「」『』（）()…:;,.!?/").

(** One or more code points of the class, up to the end of the text. *)
Definition class_run (t : str) : bool :=
  negb (Nat.eqb (length t) 0) && forallb kana_class t.

(** [HIRAGANA_KATAKANA_RE.match(t)]: the pattern is anchored with ^ and $,
    and $ also matches just before a final line feed. *)
Definition HIRAGANA_KATAKANA_RE_match (t : str) : bool :=
  class_run t
  || match rev t with
     | c :: r => (c =? 0x0A) && class_run (rev r)
     | [] => false
     end.

Definition is_hiraganaish (text : str) : bool :=
  let t := strip text in
  if Nat.eqb (length t) 0 then false
  else HIRAGANA_KATAKANA_RE_match t.

Record Example2 : Type := mkExample2 {
  jp : str;
  hira : str;
  en : str
}.

(** Returns the error message, or [None] when the example is accepted. *)
Definition validate_example2 (example : Example2) (japanese : str) : option str :=
  if negb (str_contains japanese (jp example)) then
    Some (u "example.jp does not contain the target term exactly")
  else if negb (is_hiraganaish (hira example)) then
    Some (u "example.hiragana contains non-hiragana/katakana characters (likely kanji)")
  else if (len (jp example) >? 140)%Z then
    Some (u "example.jp seems too long")
  else if (len (en example) >? 200)%Z then
    Some (u "example.en seems too long")
  else None.


Definition hex_digit (d : N) : ascii :=
  ascii_of_N (if d <? 10 then 48 + d else 87 + d).

Definition hexdigest (b : bytes) : string :=
  fold_right (fun x acc => String (hex_digit (x / 16)) (String (hex_digit (x mod 16)) acc))
             EmptyString b.

(** ** Definitions used to state the properties *)

(** [sub] occurs in [s] as a substring. *)
Definition occurs (sub s : str) : Prop := exists a b, s = a ++ sub ++ b.

(** The occurrence of [old] at the end of [pre ++ old] is the first one. *)
Definition leftmost (old pre : str) : Prop :=
  forall a b, pre ++ old = a ++ old ++ b -> a = pre.

(** "[s] with every occurrence of [old] replaced by [new]", the occurrences
    being taken from the left and not overlapping; for the empty [old] the
    occurrences are the positions before each code point and the end. *)
Inductive replaced_all (old new : str) : str -> str -> Prop :=
| ra_none s :
    old <> [] -> ~ occurs old s -> replaced_all old new s s
| ra_hit pre rest out :
    old <> [] -> leftmost old pre -> replaced_all old new rest out ->
    replaced_all old new (pre ++ old ++ rest) (pre ++ new ++ out)
| ra_empty_end :
    old = [] -> replaced_all old new [] new
| ra_empty_step c s out :
    old = [] -> replaced_all old new s out ->
    replaced_all old new (c :: s) (new ++ c :: out).

(** Number of occurrences of a code point. *)
Fixpoint cnt (c : char) (s : str) : nat :=
  match s with
  | [] => O
  | x :: r => ((if N.eqb x c then 1 else 0) + cnt c r)%nat
  end.

Definition brace_free (s : str) : bool :=
  forallb (fun c => negb (c =? lbrace) && negb (c =? rbrace)) s.

(** A template with exactly one replacement field [name]: the text before
    the field and the text after it. *)
Fixpoint split_field (name tmpl : str) : option (str * str) :=
  match tmpl with
  | [] => None
  | c :: r =>
      if c =? lbrace then
        if startswith r (name ++ [rbrace]) then
          let after := skipn (length name + 1) r in
          if brace_free after then Some ([], after) else None
        else None
      else if c =? rbrace then None
      else match split_field name r with
           | Some (before, after) => Some (c :: before, after)
           | None => None
           end
  end.

(** The literal parts of a frame: Japanese text before and after the term,
    English text before and after the gloss. *)
Definition lits : Type := ((str * str) * (str * str))%type.

Definition frame_lits (fr : str * str) : option lits :=
  match split_field (u "t") (fst fr), split_field (u "en") (snd fr) with
  | Some j, Some e => Some (j, e)
  | _, _ => None
  end.

Definition render_jp (q : lits) (t : str) : str :=
  fst (fst q) ++ t ++ snd (fst q).
Definition render_en (q : lits) (e : str) : str :=
  fst (snd q) ++ e ++ snd (snd q).

(** The statements that every branch but the question branch ends with. *)
Definition fill (frames : list (str * str)) (seed term reading gloss : str)
  : result triple :=
  i <- _pick_index seed (len frames) ;;
  ' (tmpl_jp, tmpl_en) <- list_getitem frames i ;;
  ex_jp <- format tmpl_jp [(u "t", term)] ;;
  let ex_hira := make_reading ex_jp term reading in
  ex_en <- format tmpl_en [(u "en", gloss)] ;;
  Ok (ex_jp, ex_hira, ex_en).

Definition ex3_frames_all : list (str * str) :=
  ex3_frames_mperm ++ ex3_frames_kudasai ++ ex3_frames_suru
  ++ ex3_frames_nen ++ ex3_frames_m ++ ex3_frames_t.

(** What the generators do to the gloss before it is put in a template. *)
Definition gloss_stripped (e : str) : str := rstrip (strip e) (u ".").
Definition gloss_question (e : str) : str := rstrip (rstrip e (u "?")) (u ".").

(** The fields of a record that the generators read. *)
Definition text_row (r : Row) : bool :=
  encodable (deck r) && encodable (japanese r)
  && encodable (hiragana r) && encodable (english r).

Local Open Scope nat_scope.

(** Every frame of [frames] is a one-field template pair whose literal
    parts satisfy [p]. *)
Definition frames_all (p : lits -> bool) (frames : list (str * str)) : bool :=
  forallb (fun fr => match frame_lits fr with
                     | Some q => p q
                     | None => false
                     end) frames.

(** The two repairs of the question branch of [make_example2]. *)
Definition question_jp (ex_jp : str) : str :=
  if negb (endswith ex_jp (u "か")) && negb (endswith ex_jp (u "？"))
  then rstrip ex_jp (u "。") ++ u "？"
  else ex_jp.

Definition question_en (ex_en : str) : str :=
  if negb (endswith ex_en (u "?")) then ex_en ++ u "?" else ex_en.

Definition fill_question (frames : list (str * str)) (seed term reading gloss : str)
  : result triple :=
  i <- _pick_index seed (len frames) ;;
  ' (tmpl_jp, tmpl_en) <- list_getitem frames i ;;
  ex_jp <- format tmpl_jp [(u "t", term)] ;;
  let ex_jp := question_jp ex_jp in
  let ex_hira := make_reading ex_jp term reading in
  ex_en <- format tmpl_en [(u "en", gloss)] ;;
  let ex_en := question_en ex_en in
  Ok (ex_jp, ex_hira, ex_en).

Definition lits_of (frames : list (str * str)) : list lits :=
  flat_map (fun fr => match frame_lits fr with
                      | Some q => [q]
                      | None => []
                      end) frames.

Definition ex2_frames_stripped : list (str * str) :=
  ex2_frames_v1 ++ ex2_frames_v2 ++ ex2_frames_v3.
Definition ex2_frames_raw : list (str * str) :=
  ex2_frames_v5 ++ ex2_frames_m1 ++ ex2_frames_t1.

Definition rendered (q : lits) (t h e : str) : triple :=
  (render_jp q t, make_reading (render_jp q t) t h, render_en q e).

(** The guards of [make_example2] up to the question branch: the record
    passes the five earlier ones and satisfies the sixth. *)
Definition reaches_question (r : Row) : bool :=
  negb (dict_mem specials (japanese r))
  && negb (str_contains (u "〜") (japanese r))
  && negb (endswith (japanese r) (u "は")
           && (str_contains (u "?") (english r)
               || str_contains (u "evidence") (str_lower (english r))))
  && negb (endswith (japanese r) (u "します"))
  && negb (endswith (japanese r) (u "ください"))
  && negb (endswith (deck r) (u "meeting_phrases")
           && set_mem (japanese r) [u "念のため"; u "追加で"])
  && (endswith (japanese r) (u "か") || endswith (strip (english r)) (u "?")).

(** The results [make_example2] can return, by the branch taken. *)
Inductive ex2_out (r : Row) : triple -> Prop :=
| out_special out :
    dict_get specials (japanese r) = Some out -> ex2_out r out
| out_okay :
    str_contains (u "〜") (japanese r) = true ->
    ex2_out r (u "この内容でよろしいでしょうか。",
               u "このないようでよろしいでしょうか。", u "Would this be okay?")
| out_understanding :
    str_contains (u "〜") (japanese r) = true ->
    ex2_out r (u "この点はそういう認識です。",
               u "このてんはそういうにんしきです。", u "That's my understanding.")
| out_filled :
    str_contains (u "〜") (japanese r) = true ->
    ex2_out r (str_replace (japanese r) (u "〜") (u "この点") ++ u "。",
               str_replace (hiragana r) (u "〜") (u "このてん") ++ u "。",
               u "Example: " ++ english r)
| out_stem :
    str_contains (u "〜") (japanese r) = false ->
    ex2_out r (japanese r ++ u "ありますか。", hiragana r ++ u "ありますか。",
               u "Could you share the evidence?")
| out_stripped q :
    str_contains (u "〜") (japanese r) = false ->
    In q (lits_of ex2_frames_stripped) ->
    ex2_out r (rendered q (japanese r) (hiragana r) (gloss_stripped (english r)))
| out_raw q :
    str_contains (u "〜") (japanese r) = false ->
    In q (lits_of ex2_frames_raw) ->
    ex2_out r (rendered q (japanese r) (hiragana r) (english r))
| out_question fr a c :
    reaches_question r = true ->
    str_contains (u "〜") (japanese r) = false ->
    In fr ex2_frames_v4 ->
    format (fst fr) [(u "t", japanese r)] = Ok a ->
    format (snd fr) [(u "en", gloss_question (english r))] = Ok c ->
    ex2_out r (question_jp a, make_reading (question_jp a) (japanese r) (hiragana r),
               question_en c).

(** No condition on the literal parts. *)
Definition any_lits (q : lits) : bool := true.

(** The card of the scenario: a verb in します of the deck 03_tech_verbs. *)
Definition row_confirm : Row :=
  mkRow (u "03_tech_verbs") (u "確認します") (u "to confirm")
        (u "確認します") (u "かくにんします") (u "to confirm")
        (u "内容を確認します。") (u "ないようをかくにんします。")
        (u "I will confirm the contents.").

(** The same card with other display strings and another seed example. *)
Definition row_confirm_other : Row :=
  mkRow (u "03_tech_verbs") (u "front") (u "back")
        (u "確認します") (u "かくにんします") (u "to confirm") [] [] [].

(** A question card. *)
Definition row_problem : Row :=
  mkRow (u "05_meeting_phrases") (u "問題ありませんか") (u "Is there any problem?")
        (u "問題ありませんか") (u "もんだいありませんか") (u "Is there any problem?")
        [] [] [].

(** Two literal texts that differ in the number of occurrences of some
    code point. *)
Definition lit_differs (a b : str) : bool :=
  existsb (fun c => negb (Nat.eqb (cnt c a) (cnt c b))) (a ++ b).

Definition jp_lit (q : lits) : str := fst (fst q) ++ snd (fst q).
Definition en_lit (q : lits) : str := fst (snd q) ++ snd (snd q).

(** Every pair made of an element of [l2] and an element of [l3]
    satisfies [p]. *)
Definition all_pairs {A B : Type} (p : A -> B -> bool) (l2 : list A) (l3 : list B)
  : bool :=
  forallb (fun a => forallb (p a) l3) l2.

(** The placeholder marker and the full-width question mark. *)
Definition tilde : char := 0x301C%N.
Definition fw_question : char := 0xFF1F%N.

(** The Japanese templates of the question branch, as text before and
    after the term. *)
Definition question_lits : list (str * str) :=
  [ (u "このへんこうで", []); ([], u "。"); (u "いまのじょうきょうで", []) ].

(** A card whose term is a question written with its full stop. *)
Definition row_full_stop : Row :=
  mkRow (u "05_meeting_phrases") (u "問題ありませんか。") (u "Is there any problem?")
        (u "問題ありませんか。") (u "もんだいありませんか。")
        (u "Is there any problem?") [] [] [].

(** A frame made of characters of the validator's class, with at most 20
    code points of Japanese text and 37 of English text around the slots. *)
Definition lit_fits (q : lits) : bool :=
  forallb kana_class (fst (fst q)) && forallb kana_class (snd (fst q))
  && (length (jp_lit q) <=? 20) && (length (en_lit q) <=? 37).

Definition accepted (out : triple) (term : str) : bool :=
  match validate_example2
          (mkExample2 (fst (fst out)) (snd (fst out)) (snd out)) term with
  | None => true
  | Some _ => false
  end.

(** What [validate_example2] says of the example that [make_example2]
    returns for a record ([None] when the generator raises). *)
Definition validation_of (r : Row) : option (option str) :=
  match make_example2 r with
  | Ok (a, b, c) => Some (validate_example2 (mkExample2 a b c) (japanese r))
  | Raise _ => None
  end.

(** A card with a placeholder in its term. *)
Definition row_about : Row :=
  mkRow (u "04_meeting_phrases") (u "〜について") (u "about ...")
        (u "〜について") (u "〜について") (u "about ...") [] [] [].

(** A term of 141 code points. *)
Definition row_long_term : Row :=
  mkRow (u "01_basics") [] [] (repeat 0x3042%N 141) (repeat 0x3042%N 141)
        (u "long") [] [] [].

(** A gloss of 201 code points. *)
Definition row_long_gloss : Row :=
  mkRow (u "01_basics") [] [] (u "変数") (u "へんすう") (repeat 0x61%N 201)
        [] [] [].

(** A reading that ends with a tabulation. *)
Definition row_tab : Row :=
  mkRow (u "01_basics") [] [] (u "変数") (u "へんすう" ++ [9%N]) (u "variable")
        [] [] [].

(** A card whose term ends in a full stop and whose reading begins with
    a space, outside the question branch. *)
Definition row_agreed : Row :=
  mkRow (u "01_basics") [] [] (u "承知しました。") (u " しょうちしました。")
        (u "Understood.") [] [] [].




(** A card whose deck name is a lone surrogate. *)
Definition row_surrogate : Row :=
  mkRow [0xD800%N] [] [] (u "変数") (u "へんすう") (u "variable") [] [] [].


(** ** tools/build_vocab_master.py: loading the cards and writing the table *)

(** Files are read through [csv.DictReader] and written through
    [csv.DictWriter]; the model starts from the rows the reader yields and
    stops at the records the writer writes.  A row of the reader holds the
    cells of one line under the names of the header line, with [None]
    under the names that a short line leaves without a cell. *)
Definition csv_row : Type := list (str * option str).

(** [row.get(name)] *)
Definition row_get (row : csv_row) (name : str) : option str :=
  match dict_get row name with
  | Some cell => cell
  | None => None
  end.

(** [x or y] on values that are a string or [None]. *)
Definition py_or (x y : option str) : option str :=
  match x with
  | Some (_ :: _) => x
  | _ => y
  end.

(** [x or ""] *)
Definition or_empty (x : option str) : str :=
  match x with
  | Some s => s
  | None => []
  end.

(** [a or b] on strings. *)
Definition str_or (a b : str) : str :=
  match a with
  | [] => b
  | _ :: _ => a
  end.

(** [not s] and [bool(s)] on a string. *)
Definition falsy (s : str) : bool :=
  match s with
  | [] => true
  | _ :: _ => false
  end.

Definition truthy (s : str) : bool := negb (falsy s).

(** Dictionaries whose keys are pairs [(deck, japanese)], in insertion
    order. *)
Definition key2 : Type := (str * str)%type.

Definition key2_eqb (a b : key2) : bool :=
  str_eqb (fst a) (fst b) && str_eqb (snd a) (snd b).

(** [d.get(k)] *)
Fixpoint dict2_get {V : Type} (d : list (key2 * V)) (k : key2) : option V :=
  match d with
  | [] => None
  | (k', v) :: d' => if key2_eqb k k' then Some v else dict2_get d' k
  end.

(** [d[k] = v]: the value of a key already there is replaced where it
    stands, a new key goes to the end. *)
Fixpoint dict2_set {V : Type} (d : list (key2 * V)) (k : key2) (v : V)
  : list (key2 * V) :=
  match d with
  | [] => [(k, v)]
  | (k', v') :: d' =>
      if key2_eqb k k' then (k', v) :: d' else (k', v') :: dict2_set d' k v
  end.

Record ManualExamples : Type := mkManualExamples {
  example1_jp : str;
  example1_hiragana : str;
  example1_en : str;
  example2_jp : str;
  example2_hiragana : str;
  example2_en : str;
  example3_jp : str;
  example3_hiragana : str;
  example3_en : str
}.

(** The body of the loop of [load_manual_examples]. *)
Definition load_manual_examples_row
  (out : list (key2 * ManualExamples)) (row : csv_row)
  : list (key2 * ManualExamples) :=
  let deck := strip (or_empty (row_get row (u "Deck"))) in
  let japanese := strip (or_empty (row_get row (u "Japanese"))) in
  if falsy deck || falsy japanese then out
  else
    dict2_set out (deck, japanese)
      (mkManualExamples
         (strip (or_empty (py_or (row_get row (u "Example1_JP"))
                                 (row_get row (u "Example_JP")))))
         (strip (or_empty (py_or (row_get row (u "Example1_Hiragana"))
                                 (row_get row (u "Example_Hiragana")))))
         (strip (or_empty (py_or (row_get row (u "Example1_EN"))
                                 (row_get row (u "Example_EN")))))
         (strip (or_empty (row_get row (u "Example2_JP"))))
         (strip (or_empty (row_get row (u "Example2_Hiragana"))))
         (strip (or_empty (row_get row (u "Example2_EN"))))
         (strip (or_empty (row_get row (u "Example3_JP"))))
         (strip (or_empty (row_get row (u "Example3_Hiragana"))))
         (strip (or_empty (row_get row (u "Example3_EN"))))).

(** [load_manual_examples(path)]; [file] is [None] when the path does not
    exist, and otherwise the rows of the file. *)
Definition load_manual_examples (file : option (list csv_row))
  : list (key2 * ManualExamples) :=
  match file with
  | None => []
  | Some rows => fold_left load_manual_examples_row rows []
  end.

(** The body of the loop of [load_manual_example1]. *)
Definition load_manual_example1_row
  (out : list (key2 * triple)) (row : csv_row) : list (key2 * triple) :=
  let deck := strip (or_empty (row_get row (u "Deck"))) in
  let japanese := strip (or_empty (row_get row (u "Japanese"))) in
  if falsy deck || falsy japanese then out
  else
    let ex_jp := strip (or_empty (row_get row (u "Example_JP"))) in
    let ex_hira := strip (or_empty (row_get row (u "Example_Hiragana"))) in
    let ex_en := strip (or_empty (row_get row (u "Example_EN"))) in
    if falsy ex_jp || falsy ex_en then out
    else dict2_set out (deck, japanese) (ex_jp, ex_hira, ex_en).

Definition load_manual_example1 (file : option (list csv_row))
  : list (key2 * triple) :=
  match file with
  | None => []
  | Some rows => fold_left load_manual_example1_row rows []
  end.

(** [read_rows(csv_path, deck)], from the rows of the file. *)
Definition read_rows (rows : list csv_row) (deck : str) : list Row :=
  map (fun r =>
         mkRow deck
               (strip (or_empty (row_get r (u "Front"))))
               (strip (or_empty (row_get r (u "Back"))))
               (strip (or_empty (row_get r (u "Japanese"))))
               (strip (or_empty (row_get r (u "Hiragana"))))
               (strip (or_empty (row_get r (u "English"))))
               (strip (or_empty (row_get r (u "Example_JP"))))
               (strip (or_empty (row_get r (u "Example_Hiragana"))))
               (strip (or_empty (row_get r (u "Example_EN")))))
      rows.

Definition fieldnames : list str :=
  [ u "Deck"; u "Front"; u "Back"; u "Japanese"; u "Hiragana"; u "English";
    u "Example_JP"; u "Example_Hiragana"; u "Example_EN";
    u "Example2_JP"; u "Example2_Hiragana"; u "Example2_EN";
    u "Example3_JP"; u "Example3_Hiragana"; u "Example3_EN";
    u "Tags"; u "Notes" ].

(** The body of the writing loop of [main], up to the dictionary handed to
    [writer.writerow]. *)
Definition main_row (manual : list (key2 * ManualExamples))
  (manual_ex1 : list (key2 * triple)) (r : Row) : result (list (str * str)) :=
  let manual_row := dict2_get manual (deck r, japanese r) in
  let manual_ex1_row := dict2_get manual_ex1 (deck r, japanese r) in
  let seed_example := (example_jp r, example_hiragana r, example_en r) in
  let '(ex1_jp, ex1_hira, ex1_en) :=
    match manual_ex1_row with
    | Some (ex1_jp, ex1_hira, ex1_en) =>
        (ex1_jp,
         str_or ex1_hira (make_reading ex1_jp (japanese r) (hiragana r)),
         ex1_en)
    | None =>
        match manual_row with
        | Some m =>
            if truthy (example1_jp m) && truthy (example1_en m) then
              (example1_jp m,
               str_or (example1_hiragana m)
                      (make_reading (example1_jp m) (japanese r) (hiragana r)),
               example1_en m)
            else seed_example
        | None => seed_example
        end
    end in
  ' (ex2_jp, ex2_hira, ex2_en) <-
    match manual_row with
    | Some m =>
        if truthy (example2_jp m) && truthy (example2_en m) then
          Ok (example2_jp m,
              str_or (example2_hiragana m)
                     (make_reading (example2_jp m) (japanese r) (hiragana r)),
              example2_en m)
        else make_example2 r
    | None => make_example2 r
    end ;;
  ' (ex3_jp, ex3_hira, ex3_en) <-
    match manual_row with
    | Some m =>
        if truthy (example3_jp m) && truthy (example3_en m) then
          Ok (example3_jp m,
              str_or (example3_hiragana m)
                     (make_reading (example3_jp m) (japanese r) (hiragana r)),
              example3_en m)
        else make_example3 r
    | None => make_example3 r
    end ;;
  Ok [ (u "Deck", deck r);
       (u "Front", front r);
       (u "Back", back r);
       (u "Japanese", japanese r);
       (u "Hiragana", hiragana r);
       (u "English", english r);
       (u "Example_JP", ex1_jp);
       (u "Example_Hiragana", ex1_hira);
       (u "Example_EN", ex1_en);
       (u "Example2_JP", ex2_jp);
       (u "Example2_Hiragana", ex2_hira);
       (u "Example2_EN", ex2_en);
       (u "Example3_JP", ex3_jp);
       (u "Example3_Hiragana", ex3_hira);
       (u "Example3_EN", ex3_en);
       (u "Tags", deck r);
       (u "Notes", []) ].

(** [csv.DictWriter._dict_to_list]: a key outside the field names raises
    [ValueError], a field name without value gets the empty string. *)
Definition dict_to_list (names : list str) (rowdict : list (str * str))
  : result (list str) :=
  if existsb (fun kv => negb (set_mem (fst kv) names)) rowdict
  then Raise ValueError
  else Ok (map (fun key => match dict_get rowdict key with
                           | Some v => v
                           | None => []
                           end) names).

(** [writer.writerow(rowdict)] on a file opened with the encoding UTF-8:
    the cells of the record that is written, or the exception of a text
    that cannot be encoded. *)
Definition writerow (names : list str) (rowdict : list (str * str))
  : result (list str) :=
  cells <- dict_to_list names rowdict ;;
  if forallb encodable cells then Ok cells else Raise UnicodeEncodeError.

(** The writing loop: [written] holds the records written so far; an
    exception leaves them in the file and ends the run. *)
Fixpoint write_rows (manual : list (key2 * ManualExamples))
  (manual_ex1 : list (key2 * triple)) (all_rows : list Row)
  (written : list (list str)) : list (list str) * result Z :=
  match all_rows with
  | [] => (written, Ok 0%Z)
  | r :: rest =>
      match (rowdict <- main_row manual manual_ex1 r ;;
             writerow fieldnames rowdict) with
      | Ok cells => write_rows manual manual_ex1 rest (written ++ [cells])
      | Raise e => (written, Raise e)
      end
  end.

(** [main()] once its inputs are read: [csv_files] gives, for each card
    file in the sorted order of the paths, the deck name taken from the
    path and the rows of the file; the result is the records written to
    data/vocab_master.csv (the header first) and the value returned or the
    exception raised. *)
Definition build_vocab_master_main (csv_files : list (str * list csv_row))
  (manual_file manual_ex1_file : option (list csv_row))
  : list (list str) * result Z :=
  let manual := load_manual_examples manual_file in
  let manual_ex1 := load_manual_example1 manual_ex1_file in
  let all_rows := flat_map (fun f => read_rows (snd f) (fst f)) csv_files in
  write_rows manual manual_ex1 all_rows [fieldnames].

(** What reading a file gives: its rows, or the exception raised while
    the file is decoded and parsed ([UnicodeDecodeError] for a file that
    is not UTF-8 text, [csv.Error] for a line that the parser refuses). *)
Inductive read_error : Type :=
| UnicodeDecodeError
| CsvError.

Inductive file_read : Type :=
| Rows (rows : list csv_row)
| ReadRaises (e : read_error).

(** The rows of a manual file that could be read, [None] standing for a
    file that does not exist. *)
Definition rows_of (file : option file_read) : option (list csv_row) :=
  match file with
  | Some (Rows rows) => Some rows
  | _ => None
  end.

(** The loop over the card files: the first file that cannot be read ends
    it with its exception. *)
Fixpoint read_all (csv_files : list (str * file_read))
  : list (str * list csv_row) + read_error :=
  match csv_files with
  | [] => inl []
  | (deck, Rows rows) :: rest =>
      match read_all rest with
      | inl files => inl ((deck, rows) :: files)
      | inr e => inr e
      end
  | (_, ReadRaises e) :: _ => inr e
  end.

(** How [main()] ends: an input cannot be read, and its exception ends the
    run before the output file is opened; or the run comes to the writing
    loop, with the records written and the value returned or the
    exception raised. *)
Inductive build_outcome : Type :=
| ReadFailed (e : read_error)
| Wrote (records : list (list str)) (res : result Z).

(** [main()] from the files as they are read: the two manual files first,
    then the card files, then the writing loop. *)
Definition build_vocab_master_run (csv_files : list (str * file_read))
  (manual_file manual_ex1_file : option file_read) : build_outcome :=
  match manual_file with
  | Some (ReadRaises e) => ReadFailed e
  | _ =>
      match manual_ex1_file with
      | Some (ReadRaises e) => ReadFailed e
      | _ =>
          match read_all csv_files with
          | inr e => ReadFailed e
          | inl files =>
              let (records, res) :=
                build_vocab_master_main files (rows_of manual_file)
                                        (rows_of manual_ex1_file) in
              Wrote records res
          end
      end
  end.

(** ** tools/llm_expand_examples.py: keys, headers and the response text *)

(** [hashlib ... .hexdigest()] as a Python string. *)
Definition hex_char (d : N) : char := (if d <? 10 then 48 + d else 87 + d)%N.

Definition hexdigest_str (b : bytes) : str :=
  flat_map (fun x => [hex_char (x / 16)%N; hex_char (x mod 16)%N]) b.

Definition stable_key (deck japanese hiragana english : str) : result str :=
  raw <- encode_utf8 (deck ++ u "|" ++ japanese ++ u "|" ++ hiragana
                      ++ u "|" ++ english) ;;
  Ok (firstn 16 (hexdigest_str (Sha256.digest raw))).

(** A row of the table as [read_csv_rows] returns it: a dictionary from
    column names to cells. *)
Definition table_row : Type := list (str * str).

(** [row.get(name, "")]; also [row.get(name) or ""], the cells being
    strings. *)
Definition get_or_empty (row : table_row) (name : str) : str :=
  match dict_get row name with
  | Some cell => cell
  | None => []
  end.

(** [d[k] = v] *)
Fixpoint dict_set {V : Type} (d : list (str * V)) (k : str) (v : V)
  : list (str * V) :=
  match d with
  | [] => [(k, v)]
  | (k', v') :: d' =>
      if str_eqb k k' then (k', v) :: d' else (k', v') :: dict_set d' k v
  end.

(** [d.update(other)] *)
Definition dict_update {V : Type} (d other : list (str * V)) : list (str * V) :=
  fold_left (fun d kv => dict_set d (fst kv) (snd kv)) other d.

Definition needed : list str :=
  [ u "Deck"; u "Front"; u "Back"; u "Japanese"; u "Hiragana"; u "English";
    u "Example_JP"; u "Example_Hiragana"; u "Example_EN";
    u "Example2_JP"; u "Example2_Hiragana"; u "Example2_EN";
    u "Tags"; u "Notes" ].

(** [ensure_headers(headers)]: the list is extended in place and returned. *)
Definition ensure_headers (headers : list str) : list str :=
  fold_left (fun headers h =>
               if negb (set_mem h headers) then headers ++ [h] else headers)
            needed headers.

Definition should_generate (row : table_row) (force : bool) : bool :=
  if force then true
  else negb (truthy (strip (get_or_empty row (u "Example2_JP")))
             && truthy (strip (get_or_empty row (u "Example2_Hiragana")))
             && truthy (strip (get_or_empty row (u "Example2_EN")))).

(** The values that [json.loads] returns; a float is kept as its bits. *)
#[warnings="-register-all"]
Inductive json : Type :=
| JNull
| JBool (b : bool)
| JInt (n : Z)
| JFloat (bits : N)
| JStr (s : str)
| JList (items : list json)
| JDict (members : list (str * json)).

(** [sep.join(parts)] *)
Fixpoint str_join (sep : str) (parts : list str) : str :=
  match parts with
  | [] => []
  | p :: rest =>
      match rest with
      | [] => p
      | _ :: _ => p ++ sep ++ str_join sep rest
      end
  end.

Definition line_feed : str := [0x0A%N].

Definition extract_response_text (payload : list (str * json)) : str :=
  let fallback :=
    match dict_get payload (u "text") with
    | Some (JStr t) => strip t
    | _ => []
    end in
  match dict_get payload (u "output") with
  | Some (JList out) =>
      let chunks :=
        fold_left
          (fun chunks item =>
             match item with
             | JDict item =>
                 match dict_get item (u "content") with
                 | Some (JList content) =>
                     fold_left
                       (fun chunks c =>
                          match c with
                          | JDict c =>
                              match dict_get c (u "type") with
                              | Some (JStr ty) =>
                                  if str_eqb ty (u "output_text") then
                                    match dict_get c (u "text") with
                                    | Some (JStr t) => chunks ++ [t]
                                    | _ => chunks
                                    end
                                  else chunks
                              | _ => chunks
                              end
                          | _ => chunks
                          end)
                       content chunks
                 | _ => chunks
                 end
             | _ => chunks
             end)
          out [] in
      match chunks with
      | _ :: _ => strip (str_join line_feed chunks)
      | [] => fallback
      end
  | _ => fallback
  end.

(** ** Definitions used to state the further properties *)

(** A lower-case hexadecimal digit. *)
Definition hex_lower (c : char) : bool :=
  ((0x30 <=? c) && (c <=? 0x39) || (0x61 <=? c) && (c <=? 0x66))%N.

(** The four fields a key or a seed is made of are text that [encode]
    accepts. *)
Definition text4 (a b c d : str) : bool :=
  encodable a && encodable b && encodable c && encodable d.

(** A frame made of characters of the validator's class, with at most [j]
    code points of Japanese text and [e] of English text around the slots. *)
Definition lit_within (j e : nat) (q : lits) : bool :=
  forallb kana_class (fst (fst q)) && forallb kana_class (snd (fst q))
  && (length (jp_lit q) <=? j) && (length (en_lit q) <=? e).

(** A card written in kana: the reading is the term. *)
Definition row_kana : Row :=
  mkRow (u "01_basics") [] [] (u "ばらつき") (u "ばらつき") (u "variability.")
        [] [] [].

(** A text without white space at either end. *)
Definition stripped (s : str) : Prop := strip s = s.

(** [field] is [cell] without the white space around it: white space,
    then [field], then white space, [field] beginning and ending with a
    code point that is not white space when it is not empty. *)
Definition trimmed_of (cell field : str) : Prop :=
  (exists a b, cell = a ++ field ++ b
               /\ forallb is_space a = true /\ forallb is_space b = true)
  /\ (forall c rest, field = c :: rest -> is_space c = false)
  /\ (forall rest c, field = rest ++ [c] -> is_space c = false).

(** What a card holds for a column of its row: the cell without the white
    space around it, and the empty string when the row has no cell under
    the name (the column is missing, or the line is short). *)
Definition field_of (row : csv_row) (name : str) (field : str) : Prop :=
  match dict_get row name with
  | Some (Some cell) => trimmed_of cell field
  | _ => field = []
  end.

(** The files that [main] reads, in the order it reads them. *)
Definition inputs (csv_files : list (str * file_read))
  (manual_file manual_ex1_file : option file_read) : list file_read :=
  match manual_file with Some f => [f] | None => [] end
  ++ match manual_ex1_file with Some f => [f] | None => [] end
  ++ map snd csv_files.

(** The lines of the card files that could be read. *)
Definition card_lines (csv_files : list (str * file_read)) : list csv_row :=
  flat_map (fun f => match snd f with
                     | Rows rows => rows
                     | ReadRaises _ => []
                     end) csv_files.

(** Every cell of the rows of a file is text that [encode] accepts, as
    text decoded from UTF-8 is. *)
Definition csv_text (rows : list csv_row) : Prop :=
  Forall (fun row =>
            Forall (fun kv => match snd kv with
                              | Some cell => encodable cell = true
                              | None => True
                              end) row) rows.

(** A file that is missing, or whose cells are all encodable text. *)
Definition file_text (file : option (list csv_row)) : Prop :=
  match file with
  | Some rows => csv_text rows
  | None => True
  end.

(** The nine texts of a card. *)
Definition row_texts (r : Row) : list str :=
  [ deck r; front r; back r; japanese r; hiragana r; english r;
    example_jp r; example_hiragana r; example_en r ].

(** The nine texts of the manual examples of a card. *)
Definition manual_texts (m : ManualExamples) : list str :=
  [ example1_jp m; example1_hiragana m; example1_en m;
    example2_jp m; example2_hiragana m; example2_en m;
    example3_jp m; example3_hiragana m; example3_en m ].

(** The literal parts of a frame are encodable text. *)
Definition lit_encodable (q : lits) : bool :=
  encodable (jp_lit q) && encodable (en_lit q).

(** The three texts of a triple are encodable. *)
Definition triple_encodable (out : triple) : bool :=
  encodable (fst (fst out)) && encodable (snd (fst out)) && encodable (snd out).

(** A line of a card file and a line of data/manual_example1.csv. *)
Definition card_line : csv_row :=
  [ (u "Front", Some (u "確認します")); (u "Back", Some (u "to confirm"));
    (u "Japanese", Some (u " 確認します ")); (u "Hiragana", Some (u "かくにんします"));
    (u "English", Some (u "to confirm")); (u "Example_JP", Some (u "内容を確認します。"));
    (u "Example_Hiragana", Some []); (u "Example_EN", None) ].

Definition manual_line (sentence : str) : csv_row :=
  [ (u "Deck", Some (u "03_tech_verbs")); (u "Japanese", Some (u "確認します"));
    (u "Example_JP", Some sentence); (u "Example_Hiragana", None);
    (u "Example_EN", Some (u "I will confirm it today.")) ].

(** The three columns of the second example. *)
Definition example2_columns : list str :=
  [u "Example2_JP"; u "Example2_Hiragana"; u "Example2_EN"].

(** A text with a code point that is not white space. *)
Definition has_text (s : str) : bool :=
  existsb (fun c => negb (is_space c)) s.

(** A response of the API in its documented shape: a list of messages,
    each with a list of text parts. *)
Definition text_part (t : str) : json :=
  JDict [(u "type", JStr (u "output_text")); (u "text", JStr t)].

Definition message (texts : list str) : json :=
  JDict [(u "type", JStr (u "message")); (u "role", JStr (u "assistant"));
         (u "content", JList (map text_part texts))].

(** The texts that the loops of [extract_response_text] collect from one
    part and from one item. *)
Definition part_texts (c : json) : list str :=
  match c with
  | JDict c =>
      match dict_get c (u "type") with
      | Some (JStr ty) =>
          if str_eqb ty (u "output_text") then
            match dict_get c (u "text") with
            | Some (JStr t) => [t]
            | _ => []
            end
          else []
      | _ => []
      end
  | _ => []
  end.

Definition item_texts (item : json) : list str :=
  match item with
  | JDict item =>
      match dict_get item (u "content") with
      | Some (JList content) => flat_map part_texts content
      | _ => []
      end
  | _ => []
  end.

(** ** tools/llm_expand_examples.py: the run *)

(** The run is modelled from the rows, the headers and the cache that the
    readers return to the table that the writer writes.  The client and
    the standard output are parameters: the client may answer anything, or
    raise, and so may [print].  The files are written in UTF-8, so that a
    write raises [UnicodeEncodeError] on a text with a lone surrogate.
    The calls [time.sleep(0.3)] and [time.sleep(0.6)] change nothing and
    are left out; [time.sleep(args.sleep)] can raise and is kept. *)

(** [args.sleep], a float, by what the loop does with it: zero, and
    [time.sleep] is not called; a length for which [time.sleep] returns;
    or a value for which it raises ([ValueError] for a negative length or
    a NaN, [OverflowError] for a length too large for the clock). *)
Inductive sleep_arg : Type :=
| SleepZero
| SleepReturns
| SleepRaises.

(** The options of the command line that the loop reads. *)
Record Args : Type := mkArgs {
  args_force : bool;
  args_limit : Z;
  args_deck : str;
  args_sleep : sleep_arg;
  args_output : str
}.

(** The keyword arguments of [client.generate_example2] that vary from
    card to card. *)
Record request : Type := mkRequest {
  req_deck : str;
  req_japanese : str;
  req_hiragana : str;
  req_english : str;
  req_example1_jp : str;
  req_example1_en : str
}.

(** The client: a call changes the world outside and either returns an
    example or raises an exception, kept as the text [str(e)]. *)
Definition client (world : Type) : Type :=
  world -> request -> (Example2 + str) * world.

(** The text kept in [last_err]: a message of the validation, the text
    [str(e)] of an exception of the client or of [print], or the text of
    the [UnicodeEncodeError] of a write, which is not empty and is not
    spelled out here. *)
Inductive err_text : Type :=
| Message (text : str)
| CodecMessage.

(** [bool(last_err)] *)
Definition err_truthy (last_err : option err_text) : bool :=
  match last_err with
  | Some (Message text) => truthy text
  | Some CodecMessage => true
  | None => false
  end.

(** The three lines that the run prints, by the values that make them. *)
Inductive line : Type :=
| LineOk (generated : Z) (number total : nat) (deck japanese : str)
| LineWarn (number : nat) (deck japanese : str) (last_err : err_text)
| LineDone (generated : Z) (output : str).

(** [print]: the call changes the world outside and returns ([None]), or
    raises an exception, as it does when the standard output cannot encode
    the line; the exception is kept as the text [str(e)]. *)
Definition console (world : Type) : Type :=
  world -> line -> option str * world.

(** What a run does besides changing the rows: the calls of the client,
    the objects appended to the cache file and the lines printed. *)
Inductive event : Type :=
| Requested (req : request)
| Appended (key deck japanese english : str) (example2 : table_row)
| Printed (l : line).

Record run (world : Type) : Type := mkRun {
  run_cache : list (str * table_row);
  run_generated : Z;
  run_events : list event;
  run_world : world
}.

Arguments mkRun {world} _ _ _ _.
Arguments run_cache {world} _.
Arguments run_generated {world} _.
Arguments run_events {world} _.
Arguments run_world {world} _.

(** An exception that nothing catches: one of [stable_key] or of the
    writer of the table, one of [print] (with its text), or one of
    [time.sleep(args.sleep)]. *)
Inductive uncaught : Type :=
| Raised (e : exn)
| PrintRaised (message : str)
| SleepRaised.

(** The three assignments to the row that gets an example. *)
Definition store_example2 (row : table_row) (ex2 : Example2) : table_row :=
  dict_set (dict_set (dict_set row (u "Example2_JP") (jp ex2))
                     (u "Example2_Hiragana") (hira ex2))
           (u "Example2_EN") (en ex2).

(** The entry of the cache for an example. *)
Definition cache_entry (ex2 : Example2) : table_row :=
  [ (u "Example2_JP", jp ex2); (u "Example2_Hiragana", hira ex2);
    (u "Example2_EN", en ex2) ].

(** [append_jsonl] writes one line of JSON, in which the texts stand as
    they are ([ensure_ascii=False]): the write succeeds when they are all
    encodable. *)
Definition jsonl_encodable (key : str) (req : request) (example2 : table_row)
  : bool :=
  encodable key && encodable (req_deck req) && encodable (req_japanese req)
  && encodable (req_english req)
  && forallb (fun kv => encodable (fst kv) && encodable (snd kv)) example2.

(** The loop [for attempt in range(1, 4)], with [n] attempts left.  An
    exception of the client, of the write to the cache file or of the
    [print] that follows it is caught and leads to the next attempt: the
    row and the cache have already been changed when the write raises,
    and the counter has gone up as well when [print] raises. *)
Fixpoint attempts {world : Type} (generate_example2 : client world)
  (print : console world) (n : nat)
  (req : request) (key : str) (number total : nat) (row : table_row)
  (st : run world) (last_err : option err_text)
  : table_row * run world * option err_text :=
  match n with
  | O => (row, st, last_err)
  | S n' =>
      let (response, w) := generate_example2 (run_world st) req in
      let st := mkRun (run_cache st) (run_generated st)
                      (run_events st ++ [Requested req]) w in
      match response with
      | inl ex2 =>
          match validate_example2 ex2 (req_japanese req) with
          | Some (c :: err) =>
              attempts generate_example2 print n' req key number total row st
                       (Some (Message (c :: err)))
          | _ =>
              let row := store_example2 row ex2 in
              let cache := dict_set (run_cache st) key (cache_entry ex2) in
              if jsonl_encodable key req (cache_entry ex2) then
                let generated := (run_generated st + 1)%Z in
                let events :=
                  run_events st
                  ++ [ Appended key (req_deck req) (req_japanese req)
                                (req_english req) (cache_entry ex2) ] in
                let l := LineOk generated number total (req_deck req)
                                (req_japanese req) in
                let (raised, w) := print (run_world st) l in
                match raised with
                | None =>
                    (row, mkRun cache generated (events ++ [Printed l]) w,
                     last_err)
                | Some message =>
                    attempts generate_example2 print n' req key number total
                             row (mkRun cache generated events w)
                             (Some (Message message))
                end
              else
                attempts generate_example2 print n' req key number total row
                         (mkRun cache (run_generated st) (run_events st)
                                (run_world st))
                         (Some CodecMessage)
          end
      | inr message =>
          attempts generate_example2 print n' req key number total row st
                   (Some (Message message))
      end
  end.

(** The end of the body of the loop over the rows, after the attempts:
    the warning, which is printed outside the [try], and the pause. *)
Definition after_attempts {world : Type} (print : console world) (args : Args)
  (number : nat) (deck japanese : str) (row : table_row) (st : run world)
  (last_err : option err_text) : run world + uncaught :=
  let warned : run world + uncaught :=
    match last_err with
    | Some text =>
        if err_truthy last_err
           && falsy (get_or_empty row (u "Example2_JP")) then
          let l := LineWarn number deck japanese text in
          let (raised, w) := print (run_world st) l in
          match raised with
          | None =>
              inl (mkRun (run_cache st) (run_generated st)
                         (run_events st ++ [Printed l]) w)
          | Some message => inr (PrintRaised message)
          end
        else inl st
    | None => inl st
    end in
  match warned with
  | inl st =>
      match args_sleep args with
      | SleepRaises => inr SleepRaised
      | _ => inl st
      end
  | inr e => inr e
  end.

(** The body of the loop over the rows for the row of index [i]: the row
    and the state after it, and whether the end of the body was reached
    (no [continue]); or the exception that ends the run. *)
Definition main_body {world : Type} (generate_example2 : client world)
  (print : console world) (args : Args) (i total : nat) (row : table_row)
  (st : run world) : (table_row * run world * bool) + uncaught :=
  let deck := strip (get_or_empty row (u "Deck")) in
  if truthy (args_deck args) && negb (str_eqb deck (args_deck args))
  then inl (row, st, false)
  else
    let japanese :=
      strip (str_or (get_or_empty row (u "Japanese"))
                    (get_or_empty row (u "Front"))) in
    let hiragana := strip (get_or_empty row (u "Hiragana")) in
    let english := strip (get_or_empty row (u "English")) in
    if falsy japanese || falsy english then inl (row, st, false)
    else if negb (should_generate row (args_force args)) then
      inl (row, st, false)
    else
      match stable_key deck japanese hiragana english with
      | Raise e => inr (Raised e)
      | Ok key =>
          match dict_get (run_cache st) key, args_force args with
          | Some (entry :: entries), false =>
              inl (dict_update row (entry :: entries), st, false)
          | _, _ =>
              let example1_jp := strip (get_or_empty row (u "Example_JP")) in
              let example1_en := strip (get_or_empty row (u "Example_EN")) in
              let req := mkRequest deck japanese hiragana english
                                   example1_jp example1_en in
              let '(row, st, last_err) :=
                attempts generate_example2 print 3 req key (S i) total row st
                         None in
              match after_attempts print args (S i) deck japanese row st
                                   last_err with
              | inl st => inl (row, st, true)
              | inr e => inr e
              end
          end
      end.

(** The loop over the rows, from the row of index [i]: [break] leaves the
    rows that follow as they are. *)
Fixpoint main_loop {world : Type} (generate_example2 : client world)
  (print : console world) (args : Args) (total i : nat)
  (rows : list table_row) (st : run world)
  : (list table_row * run world) + uncaught :=
  match rows with
  | [] => inl ([], st)
  | row :: rest =>
      match main_body generate_example2 print args i total row st with
      | inr e => inr e
      | inl (row', st', reached_end) =>
          if reached_end && negb (args_limit args =? 0)%Z
             && (run_generated st' >=? args_limit args)%Z
          then inl (row' :: rest, st')
          else
            match main_loop generate_example2 print args total (S i) rest st'
            with
            | inr e => inr e
            | inl (rest', st'') => inl (row' :: rest', st'')
            end
      end
  end.

(** The records of [write_csv_rows]: the header, then the cells of every
    row under the headers, a missing cell being empty. *)
Definition write_csv_rows (headers : list str) (rows : list table_row)
  : list (list str) :=
  headers :: map (fun row => map (fun h => get_or_empty row h) headers) rows.

(** How a run ends: [SystemExit] with a message; an exception that nothing
    catches, before the table is written or while it is; the return of 0
    after the table has been written and the last line printed; or the
    exception of that [print], with its text, after the table has been
    written. *)
Inductive outcome (world : Type) : Type :=
| Exits (message : str)
| Uncaught (e : uncaught)
| Returns (code : Z) (table : list (list str)) (st : run world)
| RaisesAtEnd (message : str) (table : list (list str)) (st : run world).

Arguments Exits {world} message.
Arguments Uncaught {world} e.
Arguments Returns {world} code table st.
Arguments RaisesAtEnd {world} message table st.

(** [main()]: [api_key] is the value of OPENAI_API_KEY in the environment
    ([None] when unset), [headers] and [rows] are what [read_csv_rows]
    returns for the input, [cache] what [load_jsonl_cache] returns. *)
Definition llm_expand_examples_main {world : Type}
  (generate_example2 : client world) (print : console world) (args : Args)
  (api_key : option str) (headers : list str) (rows : list table_row)
  (cache : list (str * table_row)) (w : world) : outcome world :=
  if falsy (strip (or_empty api_key)) then
    Exits (u "Missing OPENAI_API_KEY env var.")
  else
    let headers := ensure_headers headers in
    match main_loop generate_example2 print args (length rows) 0 rows
                    (mkRun cache 0%Z [] w) with
    | inr e => Uncaught e
    | inl (rows, st) =>
        let table := write_csv_rows headers rows in
        if forallb (forallb encodable) table then
          let l := LineDone (run_generated st) (args_output args) in
          let (raised, w) := print (run_world st) l in
          match raised with
          | None =>
              Returns 0 table
                      (mkRun (run_cache st) (run_generated st)
                             (run_events st ++ [Printed l]) w)
          | Some message =>
              RaisesAtEnd message table
                          (mkRun (run_cache st) (run_generated st)
                                 (run_events st) w)
          end
        else Uncaught (Raised UnicodeEncodeError)
    end.

(** The term of a row of the table, as the run reads it. *)
Definition term_of (row : table_row) : str :=
  strip (str_or (get_or_empty row (u "Japanese"))
                (get_or_empty row (u "Front"))).

(** Where an entry of the cache comes from: the cache file, or an example
    that [validate_example2] accepted for the term of a row of the table. *)
Definition cache_origin (cache : list (str * table_row))
  (rows : list table_row) (entry : table_row) : Prop :=
  In entry (map snd cache)
  \/ exists ex2 row,
       In row rows /\ validate_example2 ex2 (term_of row) = None
       /\ entry = cache_entry ex2.

(** What a run on [cache] and [rows] may do to a row: leave it, copy an
    entry of the cache into it, or store an example that
    [validate_example2] accepts for its term. *)
Inductive row_change (cache : list (str * table_row)) (rows : list table_row)
  (row row' : table_row) : Prop :=
| row_kept : row' = row -> row_change cache rows row row'
| row_cached entry :
    cache_origin cache rows entry -> row' = dict_update row entry ->
    row_change cache rows row row'
| row_generated ex2 :
    validate_example2 ex2 (term_of row) = None ->
    (forall name, dict_get row' name = dict_get (store_example2 row ex2) name) ->
    row_change cache rows row row'.

(** The number of calls of the client among the events. *)
Definition requests (events : list event) : nat :=
  length (filter (fun e => match e with
                           | Requested _ => true
                           | _ => false
                           end) events).






(** The standard output takes the lines of the rows that got an example. *)
Definition prints_ok {world : Type} (print : console world) : Prop :=
  forall w generated number total deck japanese,
    fst (print w (LineOk generated number total deck japanese)) = None.

(** A client that fails once, then returns an example without the term,
    then a good one. *)
Definition client_third_time : client nat :=
  fun w _ =>
    match w with
    | 0 => (inr (u "timed out"), 1)
    | 1 => (inl (mkExample2 (u "これはだめです。") (u "これはだめです。") (u "No.")), 2)
    | _ => (inl (mkExample2 (u "いま、確認します。") (u "いま、かくにんします。")
                            (u "I will confirm now.")), S w)
    end.

(** A standard output that takes every line, and one that cannot encode
    the lines that hold a term. *)
Definition console_utf8 : console nat := fun w _ => (None, w).

Definition console_ascii : console nat :=
  fun w l =>
    match l with
    | LineDone _ _ => (None, w)
    | _ => (Some (u "'ascii' codec can't encode characters"), w)
    end.

Definition table_line : table_row :=
  [ (u "Deck", u "03_tech_verbs"); (u "Japanese", u "確認します");
    (u "Hiragana", u "かくにんします"); (u "English", u "to confirm") ].

(** ** tools/rebuild_vocab_master.py *)

(** [str(n)] for an integer: its decimal digits. *)
Fixpoint digits (fuel : nat) (n : N) (acc : str) : str :=
  match fuel with
  | O => acc
  | S fuel' =>
      let acc' := (48 + n mod 10)%N :: acc in
      if (n / 10 =? 0)%N then acc' else digits fuel' (n / 10)%N acc'
  end.

Definition str_of_int (n : Z) : str :=
  match n with
  | Z0 => u "0"
  | Zpos p => digits (N.size_nat (Npos p)) (Npos p) []
  | Zneg p => u "-" ++ digits (N.size_nat (Npos p)) (Npos p) []
  end.

Record RebuildArgs : Type := mkRebuildArgs {
  with_llm : bool;
  llm_limit : Z;
  llm_deck : str;
  force : bool
}.

(** [subprocess.check_call]: the command changes the world outside, and
    the call returns ([true]) or raises ([false]), with
    [CalledProcessError] for a command that ends with another code than
    0. *)
Definition process (world : Type) : Type := world -> list str -> bool * world.

Inductive rebuild_outcome : Type :=
| RebuildReturns (code : Z)
| RebuildExits (message : str)
| CalledProcessError (argv : list str).

Definition build_command (executable : str) : list str :=
  [executable; u "tools/build_vocab_master.py"].

(** The list [llm_args] of [main]. *)
Definition llm_command (executable : str) (args : RebuildArgs) : list str :=
  let llm_args :=
    [ executable; u "tools/llm_expand_examples.py";
      u "--input"; u "data/vocab_master.csv";
      u "--output"; u "data/vocab_master.csv" ] in
  let llm_args :=
    if negb (llm_limit args =? 0)%Z
    then llm_args ++ [u "--limit"; str_of_int (llm_limit args)]
    else llm_args in
  let llm_args :=
    if truthy (llm_deck args)
    then llm_args ++ [u "--deck"; llm_deck args]
    else llm_args in
  let llm_args :=
    if force args then llm_args ++ [u "--force"] else llm_args in
  llm_args.

(** [main()]: how the run ends, the commands it has run, in order, and the
    world after them.  [executable] is [sys.executable] and [api_key] the
    value of OPENAI_API_KEY in the environment. *)
Definition rebuild_vocab_master_main {world : Type} (check_call : process world)
  (executable : str) (args : RebuildArgs) (api_key : option str) (w : world)
  : rebuild_outcome * list (list str) * world :=
  let (built, w) := check_call w (build_command executable) in
  if negb built then
    (CalledProcessError (build_command executable),
     [build_command executable], w)
  else if negb (with_llm args) then
    (RebuildReturns 0, [build_command executable], w)
  else if falsy (strip (or_empty api_key)) then
    (RebuildExits (u "OPENAI_API_KEY is required for --with-llm"),
     [build_command executable], w)
  else
    let llm_args := llm_command executable args in
    let (expanded, w) := check_call w llm_args in
    if negb expanded then
      (CalledProcessError llm_args, [build_command executable; llm_args], w)
    else
      (RebuildReturns 0, [build_command executable; llm_args], w).

(** * Properties *)

Local Open Scope nat_scope.

(** ** The hash function on test vectors *)

Example sha256_abc :
  hexdigest (Sha256.digest (bytes_of_string "abc"))
  = "ba7816bf8f01cfea414140de5dae2223b00361a396177a9cb410ff61f20015ad"%string.
Proof. vm_compute. reflexivity. Qed.

Example sha256_empty :
  hexdigest (Sha256.digest [])
  = "e3b0c44298fc1c149afbf4c8996fb92427ae41e4649b934ca495991b7852b855"%string.
Proof. vm_compute. reflexivity. Qed.

Example encode_decoded_literal :
  encode_utf8 (u "確認します")
  = Ok (bytes_of_string "確認します").
Proof. vm_compute. reflexivity. Qed.

Example sha256_two_blocks :
  hexdigest (Sha256.digest
    (bytes_of_string "abcdbcdecdefdefgefghfghighijhijkijkljklmklmnlmnomnopnopq"))
  = "248d6a61d20638b8e5c026930c3e6039a33ce45964ff2167f6ecedd419db06c1"%string.
Proof. vm_compute. reflexivity. Qed.

(** ** Results *)

Lemma bind_ok {A B : Type} (m : result A) (k : A -> result B) (b : B) :
  bind m k = Ok b -> exists a, m = Ok a /\ k a = Ok b.
Proof.
  destruct m as [a|e]; simpl; intros H.
  - exists a. split; [reflexivity | exact H].
  - discriminate H.
Qed.

(** ** Prefixes, suffixes, substrings *)

Lemma startswith_iff (s p : str) :
  startswith s p = true <-> exists r, s = p ++ r.
Proof.
  revert s. induction p as [|a p IH]; intros s; simpl.
  - split; [intros _; exists s; reflexivity | reflexivity].
  - destruct s as [|b s].
    + split; [discriminate | intros [r Hr]; discriminate Hr].
    + rewrite andb_true_iff, N.eqb_eq, IH. split.
      * intros [-> [r ->]]. exists r. reflexivity.
      * intros [r Hr]. injection Hr as -> ->. split; [reflexivity | exists r; reflexivity].
Qed.

Lemma startswith_app (p r : str) : startswith (p ++ r) p = true.
Proof. apply startswith_iff. exists r. reflexivity. Qed.

Lemma endswith_iff (s p : str) :
  endswith s p = true <-> exists r, s = r ++ p.
Proof.
  unfold endswith. rewrite startswith_iff. split.
  - intros [r Hr]. exists (rev r).
    rewrite <- (rev_involutive s), Hr, rev_app_distr, rev_involutive. reflexivity.
  - intros [r ->]. exists (rev r). apply rev_app_distr.
Qed.

Lemma endswith_app (r p : str) : endswith (r ++ p) p = true.
Proof. apply endswith_iff. exists r. reflexivity. Qed.

Lemma endswith_last (s : str) (c d : char) :
  endswith (s ++ [c]) [d] = N.eqb d c.
Proof.
  unfold endswith. rewrite rev_app_distr. simpl. apply andb_true_r.
Qed.


Lemma str_contains_iff (sub s : str) :
  str_contains sub s = true <-> occurs sub s.
Proof.
  unfold occurs. induction s as [|c s IH]; simpl.
  - rewrite startswith_iff. split.
    + intros [r Hr]. exists [], r. exact Hr.
    + intros [a [b Hab]]. symmetry in Hab.
      apply app_eq_nil in Hab. destruct Hab as [-> Hab].
      apply app_eq_nil in Hab. destruct Hab as [-> ->]. exists []. reflexivity.
  - rewrite orb_true_iff, IH, startswith_iff. split.
    + intros [[r Hr] | [a [b Hab]]].
      * exists [], r. exact Hr.
      * exists (c :: a), b. rewrite Hab. reflexivity.
    + intros [a [b Hab]]. destruct a as [|x a].
      * left. exists b. exact Hab.
      * right. injection Hab as -> ->. exists a, b. reflexivity.
Qed.

Lemma str_contains_mid (a sub b : str) : str_contains sub (a ++ sub ++ b) = true.
Proof. apply str_contains_iff. exists a, b. reflexivity. Qed.

Lemma str_contains_nil (s : str) : str_contains [] s = true.
Proof. apply str_contains_iff. exists [], s. reflexivity. Qed.

Lemma str_eqb_eq (a b : str) : str_eqb a b = true <-> a = b.
Proof.
  unfold str_eqb. destruct (list_eq_dec N.eq_dec a b); split; congruence.
Qed.

Lemma str_eqb_refl (a : str) : str_eqb a a = true.
Proof. apply str_eqb_eq. reflexivity. Qed.

(** ** Counting code points *)

Lemma cnt_app (c : char) (a b : str) : cnt c (a ++ b) = cnt c a + cnt c b.
Proof. induction a as [|x a IH]; simpl; [reflexivity | rewrite IH; lia]. Qed.


Lemma cnt_occurs (c : char) (s : str) : occurs [c] s -> 1 <= cnt c s.
Proof.
  intros [a [b ->]]. rewrite !cnt_app. simpl. rewrite N.eqb_refl. lia.
Qed.

Lemma cnt_zero_forall (c : char) (s : str) :
  cnt c s = 0 <-> forallb (fun x => negb (N.eqb x c)) s = true.
Proof.
  induction s as [|x s IH]; simpl; [tauto|].
  destruct (N.eqb x c); simpl; [split; [lia | discriminate] | exact IH].
Qed.

(** ** replace *)

Lemma replace_from_skip (old new a s : str) :
  replace_from old new (length a) (a ++ s) = replace_from old new 0 s.
Proof.
  induction a as [|x a IH]; simpl; [reflexivity | exact IH].
Qed.

Lemma replace_from_hit (old new s : str) :
  old <> [] ->
  replace_from old new 0 (old ++ s) = new ++ replace_from old new 0 s.
Proof.
  destruct old as [|c o]; [congruence | intros _].
  change ((c :: o) ++ s) with (c :: o ++ s).
  cbn [replace_from].
  change (c :: o ++ s) with ((c :: o) ++ s).
  rewrite startswith_app. cbn [length pred].
  rewrite replace_from_skip. reflexivity.
Qed.

Lemma replace_from_miss (old new : str) (c : char) (s : str) :
  startswith (c :: s) old = false ->
  replace_from old new 0 (c :: s) = c :: replace_from old new 0 s.
Proof. intros H. cbn [replace_from]. rewrite H. reflexivity. Qed.

Lemma replace_from_absent (old new s : str) :
  str_contains old s = false -> replace_from old new 0 s = s.
Proof.
  induction s as [|c s IH]; intros H; [reflexivity|].
  cbn [str_contains] in H. apply orb_false_iff in H. destruct H as [H1 H2].
  rewrite replace_from_miss by exact H1. rewrite IH by exact H2. reflexivity.
Qed.

Lemma replace_from_has_new (old new s : str) :
  old <> [] -> str_contains old s = true ->
  exists a b, replace_from old new 0 s = a ++ new ++ b.
Proof.
  intros Hold. induction s as [|c s IH]; intros H.
  - cbn [str_contains] in H. apply startswith_iff in H. destruct H as [r Hr].
    symmetry in Hr. apply app_eq_nil in Hr. tauto.
  - destruct (startswith (c :: s) old) eqn:E.
    + apply startswith_iff in E. destruct E as [r Hr]. rewrite Hr.
      rewrite replace_from_hit by exact Hold.
      exists [], (replace_from old new 0 r). reflexivity.
    + cbn [str_contains] in H. rewrite E in H. simpl in H.
      destruct (IH H) as [a [b Hab]].
      rewrite replace_from_miss by exact E. rewrite Hab.
      exists (c :: a), b. reflexivity.
Qed.

Lemma replace_from_forallb (q : char -> bool) (old new : str) :
  forallb q new = true ->
  forall s k, forallb q s = true -> forallb q (replace_from old new k s) = true.
Proof.
  intros Hn. induction s as [|c s IH]; intros k Hs; [reflexivity|].
  simpl in Hs. apply andb_true_iff in Hs. destruct Hs as [Hc Hs].
  cbn [replace_from]. destruct k as [|k].
  - destruct (startswith (c :: s) old).
    + rewrite forallb_app, Hn, IH by exact Hs. reflexivity.
    + simpl. rewrite Hc, IH by exact Hs. reflexivity.
  - apply IH. exact Hs.
Qed.

Lemma interleave_forallb (q : char -> bool) (new s : str) :
  forallb q new = true -> forallb q s = true ->
  forallb q (interleave new s) = true.
Proof.
  intros Hn. induction s as [|c s IH]; intros Hs; simpl; [exact Hn|].
  simpl in Hs. apply andb_true_iff in Hs. destruct Hs as [Hc Hs].
  rewrite forallb_app. simpl. rewrite Hn, Hc, IH by exact Hs. reflexivity.
Qed.

Lemma str_replace_forallb (q : char -> bool) (s old new : str) :
  forallb q new = true -> forallb q s = true ->
  forallb q (str_replace s old new) = true.
Proof.
  intros Hn Hs. destruct old as [|c o]; simpl.
  - apply interleave_forallb; assumption.
  - apply replace_from_forallb; assumption.
Qed.

Lemma interleave_head (new s : str) : exists r, interleave new s = new ++ r.
Proof.
  destruct s as [|c s]; simpl.
  - exists []. symmetry. apply app_nil_r.
  - eexists. reflexivity.
Qed.

Lemma str_replace_has_new (s old new : str) :
  str_contains old s = true ->
  exists a b, str_replace s old new = a ++ new ++ b.
Proof.
  intros H. destruct old as [|c o].
  - destruct (interleave_head new s) as [r Hr]. exists [], r. exact Hr.
  - apply replace_from_has_new; [discriminate | exact H].
Qed.

(** A term with a code point outside the class [q], between texts inside
    the class: the term is found once, where the template put it. *)

Lemma forallb_prefix_self (q : char -> bool) (n : nat) :
  forall t x w : str,
    length t <= n -> x <> [] -> forallb q x = true ->
    startswith (x ++ t ++ w) t = true -> forallb q t = true.
Proof.
  induction n as [|n IH]; intros t x w Hlen Hx Hq Hpre.
  - destruct t; [reflexivity | simpl in Hlen; lia].
  - apply startswith_iff in Hpre. destruct Hpre as [r Hr].
    apply app_eq_app in Hr. destruct Hr as [l [[Hx' Hr] | [Ht Hr]]].
    + rewrite Hx', forallb_app in Hq.
      apply andb_true_iff in Hq. tauto.
    + subst t. rewrite forallb_app, Hq. simpl.
      apply (IH l x w); try assumption.
      * rewrite length_app in Hlen. destruct x; [congruence | simpl in Hlen; lia].
      * apply startswith_iff. exists r. rewrite <- Hr, app_assoc. reflexivity.
Qed.

Lemma occurs_forallb (q : char -> bool) (sub s : str) :
  occurs sub s -> forallb q s = true -> forallb q sub = true.
Proof.
  intros [a [b ->]] H. rewrite !forallb_app in H.
  apply andb_true_iff in H. destruct H as [_ H].
  apply andb_true_iff in H. tauto.
Qed.

Lemma replace_from_sandwich (q : char -> bool) (t new before after : str) :
  forallb q before = true -> forallb q after = true -> forallb q t = false ->
  replace_from t new 0 (before ++ t ++ after) = before ++ new ++ after.
Proof.
  intros Hb Ha Ht.
  assert (Hne : t <> []) by (intros ->; discriminate Ht).
  induction before as [|c p IH].
  - simpl. rewrite replace_from_hit by exact Hne.
    rewrite replace_from_absent; [reflexivity|].
    destruct (str_contains t after) eqn:E; [|reflexivity].
    apply str_contains_iff in E.
    rewrite (occurs_forallb q t after E Ha) in Ht. discriminate Ht.
  - simpl in Hb. apply andb_true_iff in Hb. destruct Hb as [Hc Hp].
    change ((c :: p) ++ t ++ after) with (c :: p ++ t ++ after).
    rewrite replace_from_miss.
    + rewrite IH by exact Hp. reflexivity.
    + destruct (startswith (c :: p ++ t ++ after) t) eqn:E; [|reflexivity].
      rewrite (forallb_prefix_self q (length t) t (c :: p) after) in Ht.
      * discriminate Ht.
      * lia.
      * discriminate.
      * simpl. rewrite Hc. exact Hp.
      * exact E.
Qed.

(** ** replaced_all: the replacement computed is the one described *)

Lemma leftmost_nil (old : str) : leftmost old [].
Proof.
  intros a b H. simpl in H.
  assert (Hl : length old = length (a ++ old ++ b)) by (rewrite <- H; reflexivity).
  rewrite !length_app in Hl. destruct a; [reflexivity | simpl in Hl; lia].
Qed.

Lemma leftmost_cons (old pre rest : str) (c : char) :
  leftmost old pre ->
  startswith (c :: pre ++ old ++ rest) old = false ->
  leftmost old (c :: pre).
Proof.
  intros Hl Hs a b H. destruct a as [|x a].
  - exfalso. simpl in H.
    assert (E : startswith (c :: pre ++ old ++ rest) old = true).
    { apply startswith_iff. exists (b ++ rest).
      change (c :: pre ++ old ++ rest) with ((c :: pre) ++ old ++ rest).
      rewrite app_assoc. change ((c :: pre) ++ old) with (c :: pre ++ old).
      rewrite H, <- app_assoc. reflexivity. }
    rewrite E in Hs. discriminate Hs.
  - simpl in H. injection H as <- H. f_equal. apply (Hl a b). exact H.
Qed.

Lemma replaced_all_cons (old new s out : str) (c : char) :
  replaced_all old new s out ->
  old <> [] ->
  startswith (c :: s) old = false ->
  replaced_all old new (c :: s) (c :: out).
Proof.
  intros H Hold Hs. inversion H; subst.
  - apply ra_none; [exact Hold|].
    intros Hocc. apply str_contains_iff in Hocc. cbn [str_contains] in Hocc.
    rewrite Hs in Hocc. simpl in Hocc. apply str_contains_iff in Hocc. tauto.
  - change (c :: pre ++ old ++ rest) with ((c :: pre) ++ old ++ rest).
    change (c :: pre ++ new ++ out0) with ((c :: pre) ++ new ++ out0).
    apply ra_hit; try assumption.
    apply (leftmost_cons old pre rest c); assumption.
  - congruence.
  - congruence.
Qed.

Lemma replace_from_replaced_all (old new : str) (n : nat) :
  old <> [] ->
  forall s, length s <= n -> replaced_all old new s (replace_from old new 0 s).
Proof.
  intros Hold. induction n as [|n IH]; intros s Hlen.
  - destruct s; [|simpl in Hlen; lia]. simpl. apply ra_none; [exact Hold|].
    intros [a [b Hab]]. symmetry in Hab. apply app_eq_nil in Hab.
    destruct Hab as [_ Hab]. apply app_eq_nil in Hab. tauto.
  - destruct s as [|c s].
    + simpl. apply ra_none; [exact Hold|].
      intros [a [b Hab]]. symmetry in Hab. apply app_eq_nil in Hab.
      destruct Hab as [_ Hab]. apply app_eq_nil in Hab. tauto.
    + destruct (startswith (c :: s) old) eqn:E.
      * apply startswith_iff in E. destruct E as [r Hr]. rewrite Hr.
        rewrite replace_from_hit by exact Hold.
        apply (ra_hit old new [] r); [exact Hold | apply leftmost_nil |].
        apply IH.
        assert (Hl : length (c :: s) = length (old ++ r)) by (rewrite Hr; reflexivity).
        rewrite length_app in Hl. destruct old; [congruence | simpl in *; lia].
      * rewrite replace_from_miss by exact E.
        apply replaced_all_cons; [|exact Hold | exact E].
        apply IH. simpl in Hlen. lia.
Qed.

Lemma interleave_replaced_all (new s : str) :
  replaced_all [] new s (interleave new s).
Proof.
  induction s as [|c s IH]; simpl.
  - apply ra_empty_end. reflexivity.
  - apply ra_empty_step; [reflexivity | exact IH].
Qed.

Lemma str_replace_replaced_all (s old new : str) :
  replaced_all old new s (str_replace s old new).
Proof.
  destruct old as [|c o].
  - apply interleave_replaced_all.
  - apply (replace_from_replaced_all (c :: o) new (length s)); [discriminate | lia].
Qed.

(** ** strip and rstrip *)

Lemma drop_while_suffix (p : char -> bool) (s : str) :
  exists a, s = a ++ drop_while p s /\ forallb p a = true.
Proof.
  induction s as [|c s [a [Ha Hp]]]; simpl.
  - exists []. split; reflexivity.
  - destruct (p c) eqn:E.
    + exists (c :: a). simpl. rewrite E, Hp. split; [f_equal; exact Ha | reflexivity].
    + exists []. split; reflexivity.
Qed.

Lemma rstrip_by_prefix (p : char -> bool) (s : str) :
  exists b, s = rstrip_by p s ++ b /\ forallb p b = true.
Proof.
  unfold rstrip_by. destruct (drop_while_suffix p (rev s)) as [a [Ha Hp]].
  exists (rev a). split.
  - rewrite <- (rev_involutive s) at 1. rewrite Ha at 1. apply rev_app_distr.
  - rewrite forallb_forall in *. intros x Hx. apply Hp. apply in_rev. exact Hx.
Qed.

Lemma rstrip_by_keep (p : char -> bool) (s : str) (c : char) :
  p c = false -> rstrip_by p (s ++ [c]) = s ++ [c].
Proof.
  intros H. unfold rstrip_by. rewrite rev_app_distr. simpl. rewrite H.
  simpl. rewrite rev_involutive. reflexivity.
Qed.

Lemma rstrip_by_drop (p : char -> bool) (s : str) (c : char) :
  p c = true -> rstrip_by p (s ++ [c]) = rstrip_by p s.
Proof.
  intros H. unfold rstrip_by. rewrite rev_app_distr. simpl. rewrite H.
  reflexivity.
Qed.

Lemma rstrip_single_id (s : str) (c : char) :
  endswith s [c] = false -> rstrip s [c] = s.
Proof.
  intros H. destruct s as [|x s] using rev_ind; [reflexivity|].
  rewrite endswith_last in H. unfold rstrip.
  apply rstrip_by_keep. simpl. rewrite N.eqb_sym, H. reflexivity.
Qed.

Lemma cnt_rstrip_by (p : char -> bool) (c : char) (s : str) :
  p c = false -> cnt c (rstrip_by p s) = cnt c s.
Proof.
  intros Hc. destruct (rstrip_by_prefix p s) as [b [Hb Hp]].
  rewrite Hb at 2. rewrite cnt_app.
  assert (cnt c b = 0); [|lia].
  apply cnt_zero_forall. rewrite forallb_forall in *. intros x Hx.
  specialize (Hp x Hx). destruct (N.eqb_spec x c); [congruence | reflexivity].
Qed.

Lemma length_rstrip_by (p : char -> bool) (s : str) :
  length (rstrip_by p s) <= length s.
Proof.
  destruct (rstrip_by_prefix p s) as [b [Hb _]].
  rewrite Hb at 2. rewrite length_app. lia.
Qed.

Lemma drop_while_forallb (q p : char -> bool) (s : str) :
  forallb q s = true -> forallb q (drop_while p s) = true.
Proof.
  intros H. destruct (drop_while_suffix p s) as [a [Ha _]].
  rewrite Ha, forallb_app in H. apply andb_true_iff in H. tauto.
Qed.

Lemma forallb_rev (q : char -> bool) (s : str) :
  forallb q (rev s) = forallb q s.
Proof.
  induction s as [|c s IH]; simpl; [reflexivity|].
  rewrite forallb_app, IH. simpl. rewrite andb_true_r. apply andb_comm.
Qed.

Lemma strip_forallb (q : char -> bool) (s : str) :
  forallb q s = true -> forallb q (strip s) = true.
Proof.
  intros H. unfold strip, rstrip_by, lstrip_by.
  rewrite forallb_rev. apply drop_while_forallb.
  rewrite forallb_rev. apply drop_while_forallb. exact H.
Qed.

Lemma drop_while_nonempty (p : char -> bool) (s : str) :
  existsb (fun c => negb (p c)) s = true -> drop_while p s <> [].
Proof.
  induction s as [|c s IH]; simpl; [discriminate|].
  destruct (p c); simpl; [exact IH | discriminate].
Qed.

Lemma existsb_rev (q : char -> bool) (s : str) :
  existsb q (rev s) = existsb q s.
Proof.
  induction s as [|c s IH]; simpl; [reflexivity|].
  rewrite existsb_app, IH. simpl. rewrite orb_false_r. apply orb_comm.
Qed.

Lemma drop_while_existsb (p : char -> bool) (s : str) :
  existsb (fun c => negb (p c)) (drop_while p s)
  = existsb (fun c => negb (p c)) s.
Proof.
  induction s as [|c s IH]; simpl; [reflexivity|].
  destruct (p c) eqn:E; simpl; [exact IH | rewrite E; reflexivity].
Qed.

Lemma strip_nonempty (s : str) :
  existsb (fun c => negb (is_space c)) s = true -> strip s <> [].
Proof.
  intros H. unfold strip, rstrip_by, lstrip_by.
  intros E. apply (f_equal (@rev char)) in E. rewrite rev_involutive in E.
  simpl in E. revert E. apply drop_while_nonempty.
  rewrite existsb_rev, drop_while_existsb. exact H.
Qed.

Lemma strip_nonempty_inv (s : str) :
  strip s <> [] -> existsb (fun c => negb (is_space c)) s = true.
Proof.
  intros H. destruct (existsb (fun c => negb (is_space c)) s) eqn:E; [reflexivity|].
  exfalso. apply H. unfold strip, rstrip_by, lstrip_by.
  assert (D : drop_while is_space s = []).
  { clear H. induction s as [|c s IH]; simpl in *; [reflexivity|].
    apply orb_false_iff in E. destruct E as [Ec Es].
    apply negb_false_iff in Ec. rewrite Ec. apply IH. exact Es. }
  rewrite D. reflexivity.
Qed.

(** ** Encoding and selection *)

Lemma encode_char_ok (c : char) :
  scalar_value c = true -> exists bs, encode_char c = Ok bs.
Proof.
  unfold scalar_value, encode_char. intros H.
  apply andb_true_iff in H. destruct H as [H1 H2].
  apply negb_true_iff in H2. rewrite H1, H2.
  destruct (c <? 128)%N; [eexists; reflexivity|].
  destruct (c <? 2048)%N; [eexists; reflexivity|].
  destruct (c <? 65536)%N; eexists; reflexivity.
Qed.

Lemma encode_utf8_ok (s : str) :
  encodable s = true -> exists bs, encode_utf8 s = Ok bs.
Proof.
  induction s as [|c s IH]; simpl; intros H.
  - exists []. reflexivity.
  - apply andb_true_iff in H. destruct H as [Hc Hs].
    destruct (encode_char_ok c Hc) as [b Hb]. destruct (IH Hs) as [bs Hbs].
    rewrite Hb, Hbs. simpl. eexists. reflexivity.
Qed.

Lemma encode_utf8_raises (s : str) :
  encodable s = false -> encode_utf8 s = Raise UnicodeEncodeError.
Proof.
  induction s as [|c s IH]; [discriminate|].
  unfold encodable. cbn [forallb]. intros H. cbn [encode_utf8].
  destruct (scalar_value c) eqn:Ec.
  - destruct (encode_char_ok c Ec) as [bs ->]. cbn [bind].
    rewrite (IH H). reflexivity.
  - clear H IH. unfold scalar_value in Ec. unfold encode_char.
    destruct (N.ltb_spec c 0x80); [exfalso|].
    { destruct (N.ltb_spec c 0x110000); [|lia].
      destruct (N.leb_spec 0xD800 c); [lia|]. discriminate Ec. }
    destruct (N.ltb_spec c 0x800); [exfalso|].
    { destruct (N.ltb_spec c 0x110000); [|lia].
      destruct (N.leb_spec 0xD800 c); [lia|]. discriminate Ec. }
    destruct (N.ltb_spec c 0x10000).
    { destruct (N.ltb_spec c 0x110000); [|lia].
      destruct ((0xD800 <=? c)%N && (c <=? 0xDFFF)%N); [reflexivity|].
      discriminate Ec. }
    destruct (N.ltb_spec c 0x110000); [|reflexivity].
    destruct (N.leb_spec 0xD800 c); [|discriminate Ec].
    destruct (N.leb_spec c 0xDFFF); [lia | discriminate Ec].
Qed.

Lemma encodable_app (a b : str) :
  encodable (a ++ b) = encodable a && encodable b.
Proof. apply forallb_app. Qed.

Lemma first_word (s : Sha256.state) :
  firstn 4 (Sha256.digest_of s) = Sha256.word_bytes (Sha256.ha s).
Proof. reflexivity. Qed.

Lemma int_from_word_bytes (b0 b1 b2 b3 : N) :
  int_from_bytes_big [b0; b1; b2; b3]
  = (Z.of_N b0 * 16777216 + Z.of_N b1 * 65536 + Z.of_N b2 * 256 + Z.of_N b3)%Z.
Proof. unfold int_from_bytes_big. simpl. lia. Qed.

Lemma pick_index_range (seed : str) (n i : Z) :
  _pick_index seed n = Ok i -> (0 < n)%Z -> (0 <= i < n)%Z.
Proof.
  unfold _pick_index. intros H Hn.
  apply bind_ok in H. destruct H as [raw [_ H]].
  unfold py_mod in H. destruct (Z.eqb_spec n 0); [discriminate H|].
  injection H as <-. apply Z.mod_pos_bound. exact Hn.
Qed.

Lemma pick_index_ok (seed : str) (n : Z) :
  encodable seed = true -> n <> 0%Z -> exists i, _pick_index seed n = Ok i.
Proof.
  intros He Hn. unfold _pick_index.
  destruct (encode_utf8_ok seed He) as [raw ->]. simpl.
  unfold py_mod. destruct (Z.eqb_spec n 0); [contradiction|].
  eexists. reflexivity.
Qed.

(** ** Indexing *)

Lemma list_getitem_in {A : Type} (l : list A) (i : Z) (x : A) :
  list_getitem l i = Ok x -> In x l.
Proof.
  unfold list_getitem. destruct (_ <? 0)%Z; [discriminate|].
  destruct (nth_error l _) eqn:E; [|discriminate].
  intros H. injection H as <-. apply nth_error_In in E. exact E.
Qed.

Lemma list_getitem_ok {A : Type} (l : list A) (i : Z) :
  (0 <= i < len l)%Z -> exists x, list_getitem l i = Ok x.
Proof.
  unfold list_getitem, len. intros H.
  destruct (Z.ltb_spec i 0); [lia|]. destruct (Z.ltb_spec i 0); [lia|].
  destruct (nth_error l (Z.to_nat i)) eqn:E; [eexists; reflexivity|].
  apply nth_error_None in E. lia.
Qed.

(** ** Templates *)

Lemma format_go_lit (kw : list (str * str)) (s : str) :
  brace_free s = true -> format_go kw FLit s = Ok s.
Proof.
  induction s as [|c s IH]; simpl; intros H; [reflexivity|].
  apply andb_true_iff in H. destruct H as [Hc Hs].
  apply andb_true_iff in Hc. destruct Hc as [Hl Hr].
  apply negb_true_iff in Hl, Hr. rewrite Hl, Hr, IH by exact Hs. reflexivity.
Qed.

Lemma format_go_field (kw : list (str * str)) (name acc rest : str) :
  brace_free name = true ->
  format_go kw (FField acc) (name ++ rbrace :: rest)
  = bind (dict_getitem kw (rev acc ++ name))
         (fun v => bind (format_go kw FLit rest) (fun r => Ok (v ++ r))).
Proof.
  revert acc. induction name as [|c name IH]; intros acc H.
  - simpl. rewrite app_nil_r. reflexivity.
  - simpl in H. apply andb_true_iff in H. destruct H as [Hc Hs].
    apply andb_true_iff in Hc. destruct Hc as [_ Hr].
    apply negb_true_iff in Hr.
    change ((c :: name) ++ rbrace :: rest) with (c :: name ++ rbrace :: rest).
    cbn [format_go]. rewrite Hr. rewrite IH by exact Hs.
    simpl. rewrite <- app_assoc. reflexivity.
Qed.

Lemma format_split (name tmpl before after v : str) :
  name <> [] -> brace_free name = true ->
  split_field name tmpl = Some (before, after) ->
  format tmpl [(name, v)] = Ok (before ++ v ++ after).
Proof.
  intros Hne Hbf. unfold format. revert before.
  induction tmpl as [|c r IH]; intros before H; [discriminate H|].
  cbn [split_field] in H. cbn [format_go].
  destruct (c =? lbrace)%N.
  - destruct (startswith r (name ++ [rbrace])) eqn:E; [|discriminate H].
    destruct (brace_free (skipn (length name + 1) r)) eqn:F; [|discriminate H].
    injection H as <- <-.
    apply startswith_iff in E. destruct E as [w Hw].
    rewrite <- app_assoc in Hw. simpl in Hw. subst r.
    assert (Hsk : skipn (length name + 1) (name ++ rbrace :: w) = w).
    { replace (name ++ rbrace :: w) with ((name ++ [rbrace]) ++ w)
        by (rewrite <- app_assoc; reflexivity).
      replace (length name + 1) with (length (name ++ [rbrace]))
        by (rewrite length_app; reflexivity).
      generalize (name ++ [rbrace]). intros l. induction l; simpl; auto. }
    rewrite Hsk in *.
    destruct name as [|n0 ns]; [congruence|].
    change ((n0 :: ns) ++ rbrace :: w) with (n0 :: ns ++ rbrace :: w).
    cbn [format_go].
    simpl in Hbf. apply andb_true_iff in Hbf. destruct Hbf as [Hn0 Hns].
    apply andb_true_iff in Hn0. destruct Hn0 as [Hl Hr].
    apply negb_true_iff in Hl, Hr. rewrite Hl, Hr.
    rewrite format_go_field by exact Hns.
    unfold dict_getitem. simpl. rewrite str_eqb_refl. simpl.
    rewrite format_go_lit by exact F. reflexivity.
  - destruct (c =? rbrace)%N; [discriminate H|].
    destruct (split_field name r) as [[b a]|]; [|discriminate H].
    injection H as <- <-. rewrite (IH b eq_refl). reflexivity.
Qed.

Lemma name_t_ok : u "t" <> [] /\ brace_free (u "t") = true.
Proof. split; [discriminate | reflexivity]. Qed.

Lemma name_en_ok : u "en" <> [] /\ brace_free (u "en") = true.
Proof. split; [discriminate | reflexivity]. Qed.

Lemma frame_lits_format (fr : str * str) (q : lits) (t e : str) :
  frame_lits fr = Some q ->
  format (fst fr) [(u "t", t)] = Ok (render_jp q t)
  /\ format (snd fr) [(u "en", e)] = Ok (render_en q e).
Proof.
  unfold frame_lits, render_jp, render_en.
  destruct (split_field (u "t") (fst fr)) as [[p s]|] eqn:E1; [|discriminate].
  destruct (split_field (u "en") (snd fr)) as [[pe se]|] eqn:E2; [|discriminate].
  intros H. injection H as <-. simpl. split.
  - apply format_split; [apply name_t_ok | apply name_t_ok | exact E1].
  - apply format_split; [apply name_en_ok | apply name_en_ok | exact E2].
Qed.

Lemma frames_all_in (p : lits -> bool) (frames : list (str * str)) (fr : str * str) :
  frames_all p frames = true -> In fr frames ->
  exists q, frame_lits fr = Some q /\ p q = true.
Proof.
  unfold frames_all. rewrite forallb_forall. intros H Hin.
  specialize (H fr Hin). destruct (frame_lits fr) as [q|]; [|discriminate H].
  exists q. split; [reflexivity | exact H].
Qed.

Lemma fill_inv (frames : list (str * str)) (seed t h e : str) (out : triple) :
  fill frames seed t h e = Ok out ->
  exists fr a c,
    In fr frames
    /\ format (fst fr) [(u "t", t)] = Ok a
    /\ format (snd fr) [(u "en", e)] = Ok c
    /\ out = (a, make_reading a t h, c).
Proof.
  unfold fill. intros H.
  apply bind_ok in H. destruct H as [i [_ H]].
  apply bind_ok in H. destruct H as [[tj te] [Hget H]].
  apply bind_ok in H. destruct H as [a [Ha H]].
  apply bind_ok in H. destruct H as [c [Hc H]].
  injection H as <-.
  exists (tj, te), a, c. split; [|auto].
  apply (list_getitem_in frames i). exact Hget.
Qed.

Lemma fill_ok (p : lits -> bool) (frames : list (str * str)) (seed t h e : str) :
  frames_all p frames = true -> frames <> [] -> encodable seed = true ->
  exists out, fill frames seed t h e = Ok out.
Proof.
  intros Hall Hne Hseed. unfold fill.
  assert (Hlen : (0 < len frames)%Z).
  { unfold len. destruct frames; [congruence | simpl; lia]. }
  destruct (pick_index_ok seed (len frames) Hseed) as [i Hi]; [lia|].
  rewrite Hi. simpl.
  destruct (list_getitem_ok frames i) as [[tj te] Hget].
  { apply (pick_index_range seed); assumption. }
  rewrite Hget. simpl.
  destruct (frames_all_in p frames (tj, te) Hall) as [q [Hq _]].
  { apply (list_getitem_in frames i). exact Hget. }
  destruct (frame_lits_format (tj, te) q t e Hq) as [Hj He].
  simpl in Hj, He. rewrite Hj. simpl. rewrite He. simpl.
  eexists. reflexivity.
Qed.

Lemma make_example3_eq (row : Row) :
  make_example3 row =
  let jp := japanese row in
  let hira := hiragana row in
  let en := english row in
  let seed := deck row ++ u "|" ++ jp ++ u "|" ++ hira ++ u "|" ++ en ++ u "|ex3" in
  let is_meeting := endswith (deck row) (u "meeting_phrases") in
  if is_meeting && str_contains (u "させてください") jp then
    fill ex3_frames_mperm (seed ++ u "|mperm") jp hira (gloss_stripped en)
  else if endswith jp (u "ください") then
    fill ex3_frames_kudasai (seed ++ u "|kudasai") jp hira (gloss_stripped en)
  else if endswith jp (u "します") then
    fill ex3_frames_suru (seed ++ u "|suru") jp hira (gloss_stripped en)
  else if is_meeting then
    if str_eqb jp (u "念のため") then
      fill ex3_frames_nen (seed ++ u "|nen") jp hira (gloss_stripped en)
    else
      fill ex3_frames_m (seed ++ u "|m") jp hira (gloss_stripped en)
  else
    fill ex3_frames_t (seed ++ u "|t") jp hira (gloss_stripped en).
Proof. reflexivity. Qed.

Lemma make_example2_eq (row : Row) :
  make_example2 row =
  let jp := japanese row in
  let hira := hiragana row in
  let en := english row in
  if dict_mem specials jp then dict_getitem specials jp
  else if str_contains (u "〜") jp then
    if str_contains (u "よろしいでしょうか") jp then
      Ok (u "この内容でよろしいでしょうか。",
          u "このないようでよろしいでしょうか。", u "Would this be okay?")
    else if str_contains (u "という認識です") jp then
      Ok (u "この点はそういう認識です。",
          u "このてんはそういうにんしきです。", u "That's my understanding.")
    else
      Ok (str_replace jp (u "〜") (u "この点") ++ u "。",
          str_replace hira (u "〜") (u "このてん") ++ u "。",
          u "Example: " ++ en)
  else if endswith jp (u "は")
          && (str_contains (u "?") en
              || str_contains (u "evidence") (str_lower en)) then
    Ok (jp ++ u "ありますか。", hira ++ u "ありますか。",
        u "Could you share the evidence?")
  else
  let is_meeting := endswith (deck row) (u "meeting_phrases") in
  let seed := deck row ++ u "|" ++ jp ++ u "|" ++ hira ++ u "|" ++ en in
  if endswith jp (u "します") then
    fill ex2_frames_v1 (seed ++ u "|v1") jp hira (gloss_stripped en)
  else if endswith jp (u "ください") then
    fill ex2_frames_v2 (seed ++ u "|v2") jp hira (gloss_stripped en)
  else if is_meeting && set_mem jp [u "念のため"; u "追加で"] then
    fill ex2_frames_v3 (seed ++ u "|v3") jp hira (gloss_stripped en)
  else if endswith jp (u "か") || endswith (strip en) (u "?") then
    fill_question ex2_frames_v4 (seed ++ u "|v4") jp hira (gloss_question en)
  else if endswith jp (u "です") then
    fill ex2_frames_v5 (seed ++ u "|v5") jp hira en
  else if is_meeting then
    fill ex2_frames_m1 (seed ++ u "|m1") jp hira en
  else
    fill ex2_frames_t1 (seed ++ u "|t1") jp hira en.
Proof. reflexivity. Qed.


Lemma lits_of_in (frames : list (str * str)) (fr : str * str) (q : lits) :
  In fr frames -> frame_lits fr = Some q -> In q (lits_of frames).
Proof.
  intros Hin Hq. unfold lits_of. apply in_flat_map.
  exists fr. split; [exact Hin|]. rewrite Hq. left. reflexivity.
Qed.

Lemma fill_rendered (frames : list (str * str)) (seed t h e : str) (out : triple) :
  frames_all any_lits frames = true ->
  fill frames seed t h e = Ok out ->
  exists q, In q (lits_of frames) /\ out = rendered q t h e.
Proof.
  intros Hall H. apply fill_inv in H.
  destruct H as [fr [a [c [Hin [Ha [Hc ->]]]]]].
  destruct (frames_all_in any_lits frames fr Hall Hin) as [q [Hq _]].
  destruct (frame_lits_format fr q t e Hq) as [Hj He].
  rewrite Hj in Ha. rewrite He in Hc. injection Ha as <-. injection Hc as <-.
  exists q. split; [|reflexivity]. apply (lits_of_in frames fr); assumption.
Qed.

Lemma fill_question_inv (frames : list (str * str)) (seed t h e : str) (out : triple) :
  fill_question frames seed t h e = Ok out ->
  exists fr a c,
    In fr frames
    /\ format (fst fr) [(u "t", t)] = Ok a
    /\ format (snd fr) [(u "en", e)] = Ok c
    /\ out = (question_jp a, make_reading (question_jp a) t h, question_en c).
Proof.
  unfold fill_question. intros H.
  apply bind_ok in H. destruct H as [i [_ H]].
  apply bind_ok in H. destruct H as [[tj te] [Hget H]].
  apply bind_ok in H. destruct H as [a [Ha H]].
  apply bind_ok in H. destruct H as [c [Hc H]].
  injection H as <-.
  exists (tj, te), a, c. split; [|auto].
  apply (list_getitem_in frames i). exact Hget.
Qed.

Lemma frames_all_ex3 : frames_all any_lits ex3_frames_all = true.
Proof. vm_compute. reflexivity. Qed.

Lemma frames_all_ex2_stripped : frames_all any_lits ex2_frames_stripped = true.
Proof. vm_compute. reflexivity. Qed.

Lemma frames_all_ex2_raw : frames_all any_lits ex2_frames_raw = true.
Proof. vm_compute. reflexivity. Qed.


Lemma frames_all_incl (p : lits -> bool) (a b : list (str * str)) :
  incl a b -> frames_all p b = true -> frames_all p a = true.
Proof.
  unfold frames_all. rewrite !forallb_forall. intros Hi H x Hx.
  apply H. apply Hi. exact Hx.
Qed.

Lemma lits_of_incl (a b : list (str * str)) :
  incl a b -> incl (lits_of a) (lits_of b).
Proof.
  intros Hi q Hq. unfold lits_of in *. apply in_flat_map in Hq.
  destruct Hq as [fr [Hfr Hq]]. apply in_flat_map. exists fr.
  split; [apply Hi; exact Hfr | exact Hq].
Qed.

Lemma fill_rendered_in (frames all : list (str * str)) (seed t h e : str)
      (out : triple) :
  frames_all any_lits all = true -> incl frames all ->
  fill frames seed t h e = Ok out ->
  exists q, In q (lits_of all) /\ out = rendered q t h e.
Proof.
  intros Hall Hi H.
  apply fill_rendered in H; [|exact (frames_all_incl _ _ _ Hi Hall)].
  destruct H as [q [Hq ->]]. exists q. split; [|reflexivity].
  apply (lits_of_incl frames all Hi). exact Hq.
Qed.

(** Position of a frame list in a concatenation; the lists are never
    compared with one another. *)
Ltac incl_here := apply incl_appl; apply incl_refl.
Ltac incl_next := apply incl_appr.

Lemma make_example3_out (r : Row) (out : triple) :
  make_example3 r = Ok out ->
  exists q, In q (lits_of ex3_frames_all)
            /\ out = rendered q (japanese r) (hiragana r) (gloss_stripped (english r)).
Proof.
  rewrite make_example3_eq. cbv zeta.
  destruct (endswith (deck r) (u "meeting_phrases") && _).
  { apply fill_rendered_in; [exact frames_all_ex3 | unfold ex3_frames_all].
    incl_here. }
  destruct (endswith (japanese r) (u "ください")).
  { apply fill_rendered_in; [exact frames_all_ex3 | unfold ex3_frames_all].
    incl_next. incl_here. }
  destruct (endswith (japanese r) (u "します")).
  { apply fill_rendered_in; [exact frames_all_ex3 | unfold ex3_frames_all].
    incl_next. incl_next. incl_here. }
  destruct (endswith (deck r) (u "meeting_phrases")).
  { destruct (str_eqb (japanese r) (u "念のため")).
    - apply fill_rendered_in; [exact frames_all_ex3 | unfold ex3_frames_all].
      incl_next. incl_next. incl_next. incl_here.
    - apply fill_rendered_in; [exact frames_all_ex3 | unfold ex3_frames_all].
      incl_next. incl_next. incl_next. incl_next. incl_here. }
  apply fill_rendered_in; [exact frames_all_ex3 | unfold ex3_frames_all].
  incl_next. incl_next. incl_next. incl_next. incl_next. apply incl_refl.
Qed.

Lemma dict_getitem_mem {V : Type} (d : list (str * V)) (k : str) (v : V) :
  dict_getitem d k = Ok v -> dict_get d k = Some v.
Proof.
  unfold dict_getitem. destruct (dict_get d k); [|discriminate].
  intros H. injection H as <-. reflexivity.
Qed.

Lemma reaches_question_eq (r : Row) :
  reaches_question r = true ->
  make_example2 r
  = fill_question ex2_frames_v4
      ((deck r ++ u "|" ++ japanese r ++ u "|" ++ hiragana r ++ u "|" ++ english r)
       ++ u "|v4")
      (japanese r) (hiragana r) (gloss_question (english r)).
Proof.
  unfold reaches_question. intros H.
  repeat (apply andb_true_iff in H; let H' := fresh "G" in destruct H as [H H']).
  apply negb_true_iff in H, G4, G3, G2, G1, G0.
  rewrite make_example2_eq. cbv zeta.
  rewrite H, G4, G3, G2, G1, G0, G. reflexivity.
Qed.

Lemma make_example2_out (r : Row) (out : triple) :
  make_example2 r = Ok out -> ex2_out r out.
Proof.
  destruct (reaches_question r) eqn:Eq.
  { rewrite (reaches_question_eq r Eq). intros H.
    apply fill_question_inv in H.
    destruct H as [fr [a [c [Hin [Ha [Hc ->]]]]]].
    apply (out_question r fr a c); try assumption.
    unfold reaches_question in Eq.
    destruct (str_contains (u "〜") (japanese r)); [|reflexivity].
    rewrite andb_false_r in Eq. discriminate Eq. }
  revert Eq. unfold reaches_question.
  rewrite make_example2_eq. cbv zeta.
  destruct (dict_mem specials (japanese r)).
  { intros _ H. apply out_special. apply dict_getitem_mem. exact H. }
  destruct (str_contains (u "〜") (japanese r)) eqn:Etilde.
  { intros _.
    destruct (str_contains (u "よろしいでしょうか") (japanese r)).
    { intros H. injection H as <-. apply out_okay. exact Etilde. }
    destruct (str_contains (u "という認識です") (japanese r)).
    { intros H. injection H as <-. apply out_understanding. exact Etilde. }
    intros H. injection H as <-. apply out_filled. exact Etilde. }
  destruct (endswith (japanese r) (u "は") && _).
  { intros _ H. injection H as <-. apply out_stem. exact Etilde. }
  destruct (endswith (japanese r) (u "します")).
  { intros _ H.
    apply (fill_rendered_in _ ex2_frames_stripped) in H;
      [| exact frames_all_ex2_stripped | unfold ex2_frames_stripped; incl_here].
    destruct H as [q [Hq ->]]. apply out_stripped; assumption. }
  destruct (endswith (japanese r) (u "ください")).
  { intros _ H.
    apply (fill_rendered_in _ ex2_frames_stripped) in H;
      [| exact frames_all_ex2_stripped
       | unfold ex2_frames_stripped; incl_next; incl_here].
    destruct H as [q [Hq ->]]. apply out_stripped; assumption. }
  destruct (endswith (deck r) (u "meeting_phrases") && _).
  { intros _ H.
    apply (fill_rendered_in _ ex2_frames_stripped) in H;
      [| exact frames_all_ex2_stripped
       | unfold ex2_frames_stripped; incl_next; incl_next; apply incl_refl].
    destruct H as [q [Hq ->]]. apply out_stripped; assumption. }
  destruct (endswith (japanese r) (u "か") || _).
  { intros Hq. discriminate Hq. }
  destruct (endswith (japanese r) (u "です")).
  { intros _ H.
    apply (fill_rendered_in _ ex2_frames_raw) in H;
      [| exact frames_all_ex2_raw | unfold ex2_frames_raw; incl_here].
    destruct H as [q [Hq ->]]. apply out_raw; assumption. }
  destruct (endswith (deck r) (u "meeting_phrases")).
  { intros _ H.
    apply (fill_rendered_in _ ex2_frames_raw) in H;
      [| exact frames_all_ex2_raw | unfold ex2_frames_raw; incl_next; incl_here].
    destruct H as [q [Hq ->]]. apply out_raw; assumption. }
  intros _ H.
  apply (fill_rendered_in _ ex2_frames_raw) in H;
    [| exact frames_all_ex2_raw
     | unfold ex2_frames_raw; incl_next; incl_next; apply incl_refl].
  destruct H as [q [Hq ->]]. apply out_raw; assumption.
Qed.

(** *** Neither generator raises on text *)

Lemma text_row_fields (r : Row) :
  text_row r = true ->
  encodable (deck r) = true /\ encodable (japanese r) = true
  /\ encodable (hiragana r) = true /\ encodable (english r) = true.
Proof.
  unfold text_row. intros H.
  apply andb_true_iff in H. destruct H as [H He].
  apply andb_true_iff in H. destruct H as [H Hh].
  apply andb_true_iff in H. destruct H as [Hd Hj]. auto.
Qed.

Ltac seed_ok H :=
  destruct (text_row_fields _ H) as [?Hd [?Hj [?Hh ?He]]];
  rewrite !encodable_app;
  repeat match goal with
         | E : encodable ?s = true |- context [encodable ?s] => rewrite E
         end;
  reflexivity.

Lemma fill_question_ok (seed t h e : str) :
  encodable seed = true ->
  exists out, fill_question ex2_frames_v4 seed t h e = Ok out.
Proof.
  intros Hseed. unfold fill_question.
  destruct (pick_index_ok seed (len ex2_frames_v4) Hseed) as [i Hi];
    [discriminate|].
  rewrite Hi. cbn [bind].
  pose proof (pick_index_range seed _ i Hi eq_refl) as Hrange.
  destruct (list_getitem_ok ex2_frames_v4 i Hrange) as [[tj te] Hget].
  rewrite Hget. cbn [bind].
  apply list_getitem_in in Hget.
  destruct Hget as [E | [E | [E | []]]]; injection E as <- <-.
  - replace (format _ [(u "t", t)]) with (Ok (u "このへんこうで" ++ t ++ []))
      by (symmetry; apply format_split; reflexivity || discriminate).
    cbn [bind].
    replace (format _ [(u "en", e)]) with (Ok (u "Is there any impact from this change?"))
      by reflexivity.
    cbn [bind]. eexists. reflexivity.
  - replace (format _ [(u "t", t)]) with (Ok ([] ++ t ++ u "。"))
      by (symmetry; apply format_split; reflexivity || discriminate).
    cbn [bind].
    replace (format _ [(u "en", e)]) with (Ok ([] ++ e ++ u "?"))
      by (symmetry; apply format_split; reflexivity || discriminate).
    cbn [bind]. eexists. reflexivity.
  - replace (format _ [(u "t", t)]) with (Ok (u "いまのじょうきょうで" ++ t ++ []))
      by (symmetry; apply format_split; reflexivity || discriminate).
    cbn [bind].
    replace (format _ [(u "en", e)]) with (Ok ([] ++ e ++ u "?"))
      by (symmetry; apply format_split; reflexivity || discriminate).
    cbn [bind]. eexists. reflexivity.
Qed.

Lemma make_example3_ok (r : Row) :
  text_row r = true -> exists out, make_example3 r = Ok out.
Proof.
  intros Ht. rewrite make_example3_eq. cbv zeta.
  pose proof frames_all_ex3 as Hall. unfold ex3_frames_all in Hall.
  destruct (endswith (deck r) (u "meeting_phrases") && _).
  { apply (fill_ok any_lits); [|discriminate | seed_ok Ht].
    apply (frames_all_incl _ _ _ ltac:(incl_here) Hall). }
  destruct (endswith (japanese r) (u "ください")).
  { apply (fill_ok any_lits); [|discriminate | seed_ok Ht].
    apply (frames_all_incl _ _ _ ltac:(incl_next; incl_here) Hall). }
  destruct (endswith (japanese r) (u "します")).
  { apply (fill_ok any_lits); [|discriminate | seed_ok Ht].
    apply (frames_all_incl _ _ _ ltac:(incl_next; incl_next; incl_here) Hall). }
  destruct (endswith (deck r) (u "meeting_phrases")).
  { destruct (str_eqb (japanese r) (u "念のため")).
    - apply (fill_ok any_lits); [|discriminate | seed_ok Ht].
      apply (frames_all_incl _ _ _
               ltac:(incl_next; incl_next; incl_next; incl_here) Hall).
    - apply (fill_ok any_lits); [|discriminate | seed_ok Ht].
      apply (frames_all_incl _ _ _
               ltac:(incl_next; incl_next; incl_next; incl_next; incl_here) Hall). }
  apply (fill_ok any_lits); [|discriminate | seed_ok Ht].
  apply (frames_all_incl _ _ _
           ltac:(incl_next; incl_next; incl_next; incl_next; incl_next;
                 apply incl_refl) Hall).
Qed.

Lemma make_example2_ok (r : Row) :
  text_row r = true -> exists out, make_example2 r = Ok out.
Proof.
  intros Ht. rewrite make_example2_eq. cbv zeta.
  pose proof frames_all_ex2_stripped as Hs. unfold ex2_frames_stripped in Hs.
  pose proof frames_all_ex2_raw as Hr. unfold ex2_frames_raw in Hr.
  unfold dict_mem, dict_getitem.
  destruct (dict_get specials (japanese r)) as [t|].
  { exists t. reflexivity. }
  destruct (str_contains (u "〜") (japanese r)).
  { destruct (str_contains (u "よろしいでしょうか") (japanese r));
      [eexists; reflexivity|].
    destruct (str_contains (u "という認識です") (japanese r));
      eexists; reflexivity. }
  destruct (endswith (japanese r) (u "は") && _); [eexists; reflexivity|].
  destruct (endswith (japanese r) (u "します")).
  { apply (fill_ok any_lits); [|discriminate | seed_ok Ht].
    apply (frames_all_incl _ _ _ ltac:(incl_here) Hs). }
  destruct (endswith (japanese r) (u "ください")).
  { apply (fill_ok any_lits); [|discriminate | seed_ok Ht].
    apply (frames_all_incl _ _ _ ltac:(incl_next; incl_here) Hs). }
  destruct (endswith (deck r) (u "meeting_phrases") && _).
  { apply (fill_ok any_lits); [|discriminate | seed_ok Ht].
    apply (frames_all_incl _ _ _ ltac:(incl_next; incl_next; apply incl_refl) Hs). }
  destruct (endswith (japanese r) (u "か") || _).
  { apply fill_question_ok. seed_ok Ht. }
  destruct (endswith (japanese r) (u "です")).
  { apply (fill_ok any_lits); [|discriminate | seed_ok Ht].
    apply (frames_all_incl _ _ _ ltac:(incl_here) Hr). }
  destruct (endswith (deck r) (u "meeting_phrases")).
  { apply (fill_ok any_lits); [|discriminate | seed_ok Ht].
    apply (frames_all_incl _ _ _ ltac:(incl_next; incl_here) Hr). }
  apply (fill_ok any_lits); [|discriminate | seed_ok Ht].
  apply (frames_all_incl _ _ _ ltac:(incl_next; incl_next; apply incl_refl) Hr).
Qed.

(** ** C1: determinism *)

(** C1.  [make_example2] and [make_example3] depend on a record only
    through its deck, term, reading and gloss: two records that agree on
    these four fields get the same result from each generator, whatever
    their front, back and seed example are (and, being functions, each
    generator gives the same result every time it is applied to a record). *)
Theorem synthesis_deterministic (r1 r2 : Row) :
  deck r1 = deck r2 -> japanese r1 = japanese r2 ->
  hiragana r1 = hiragana r2 -> english r1 = english r2 ->
  make_example2 r1 = make_example2 r2 /\ make_example3 r1 = make_example3 r2.
Proof.
  intros Hd Hj Hh He. unfold make_example2, make_example3.
  rewrite Hd, Hj, Hh, He. split; reflexivity.
Qed.

Lemma synthesis_deterministic_witness :
  make_example2 row_confirm = make_example2 row_confirm_other
  /\ make_example3 row_confirm = make_example3 row_confirm_other.
Proof.
  apply (synthesis_deterministic row_confirm row_confirm_other); reflexivity.
Defined.

(** ** C2: the selection primitive *)

Lemma word_bytes_bound (x : N) :
  Forall (fun b => (b < 256)%N) (Sha256.word_bytes x).
Proof.
  unfold Sha256.word_bytes.
  repeat constructor; apply N.mod_lt; discriminate.
Qed.

(** C2, as amended.  For a seed that UTF-8 can encode (a seed without a
    lone surrogate) and a number [n >= 1], [_pick_index seed n] is the
    number whose big-endian digits are the first four bytes of the SHA-256
    digest of the encoding [raw] of the seed, reduced modulo [n]; it lies
    in [0, n).  For any other seed the call raises [UnicodeEncodeError]. *)
Theorem pick_index_spec (seed : str) (n : Z) :
  (1 <= n)%Z ->
  (encodable seed = true ->
   exists (raw : bytes) (b0 b1 b2 b3 : N),
     encode_utf8 seed = Ok raw
     /\ firstn 4 (Sha256.digest raw) = [b0; b1; b2; b3]
     /\ (b0 < 256 /\ b1 < 256 /\ b2 < 256 /\ b3 < 256)%N
     /\ _pick_index seed n
        = Ok ((Z.of_N b0 * 2 ^ 24 + Z.of_N b1 * 2 ^ 16
               + Z.of_N b2 * 2 ^ 8 + Z.of_N b3) mod n)%Z
     /\ (0 <= (Z.of_N b0 * 2 ^ 24 + Z.of_N b1 * 2 ^ 16
               + Z.of_N b2 * 2 ^ 8 + Z.of_N b3) mod n < n)%Z)
  /\ (encodable seed = false -> _pick_index seed n = Raise UnicodeEncodeError).
Proof.
  intros Hn. split.
  - intros He. destruct (encode_utf8_ok seed He) as [raw Henc].
    exists raw. unfold _pick_index. rewrite Henc. cbn [bind].
    unfold Sha256.digest. cbv zeta.
    set (st := fold_left Sha256.compress _ Sha256.initial).
    rewrite first_word.
    pose proof (word_bytes_bound (Sha256.ha st)) as Hb.
    unfold Sha256.word_bytes in *.
    set (b0 := ((Sha256.ha st / 16777216) mod 256)%N) in *.
    set (b1 := ((Sha256.ha st / 65536) mod 256)%N) in *.
    set (b2 := ((Sha256.ha st / 256) mod 256)%N) in *.
    set (b3 := (Sha256.ha st mod 256)%N) in *.
    exists b0, b1, b2, b3.
    inversion Hb as [|? ? H0 Hb1]; subst. inversion Hb1 as [|? ? H1 Hb2]; subst.
    inversion Hb2 as [|? ? H2 Hb3]; subst. inversion Hb3 as [|? ? H3 _]; subst.
    split; [reflexivity|]. split; [reflexivity|]. split; [auto|].
    rewrite int_from_word_bytes. unfold py_mod.
    destruct (Z.eqb_spec n 0); [lia|].
    change (2 ^ 24)%Z with 16777216%Z. change (2 ^ 16)%Z with 65536%Z.
    change (2 ^ 8)%Z with 256%Z.
    split; [reflexivity|]. apply Z.mod_pos_bound. lia.
  - intros He. unfold _pick_index.
    rewrite (encode_utf8_raises seed He). reflexivity.
Qed.

Lemma pick_index_spec_witness :
  exists (raw : bytes) (b0 b1 b2 b3 : N),
    encode_utf8 (u "abc") = Ok raw
    /\ firstn 4 (Sha256.digest raw) = [b0; b1; b2; b3]
    /\ (b0 < 256 /\ b1 < 256 /\ b2 < 256 /\ b3 < 256)%N
    /\ _pick_index (u "abc") 4
       = Ok ((Z.of_N b0 * 2 ^ 24 + Z.of_N b1 * 2 ^ 16
              + Z.of_N b2 * 2 ^ 8 + Z.of_N b3) mod 4)%Z
    /\ (0 <= (Z.of_N b0 * 2 ^ 24 + Z.of_N b1 * 2 ^ 16
              + Z.of_N b2 * 2 ^ 8 + Z.of_N b3) mod 4 < 4)%Z.
Proof.
  apply (proj1 (pick_index_spec (u "abc") 4 ltac:(lia))). reflexivity.
Defined.

(** C2 as stated fails: a string with a lone surrogate is a seed for which
    [_pick_index] returns no index. *)
Lemma pick_index_no_index :
  (1 <= 4)%Z /\ _pick_index [0xD800%N] 4 = Raise UnicodeEncodeError.
Proof. split; [lia | vm_compute; reflexivity]. Qed.

(** ** C3 and C10: the reading aligner *)

(** C3.  [make_reading] has two outcomes and no other: when the term occurs
    in the sentence, the sentence with every occurrence of the term replaced
    by the reading; when it does not, the empty string. *)
Theorem make_reading_spec (sentence_jp term_jp term_hira : str) :
  (occurs term_jp sentence_jp
   /\ make_reading sentence_jp term_jp term_hira
      = str_replace sentence_jp term_jp term_hira
   /\ replaced_all term_jp term_hira sentence_jp
        (make_reading sentence_jp term_jp term_hira))
  \/ (~ occurs term_jp sentence_jp
      /\ make_reading sentence_jp term_jp term_hira = []).
Proof.
  unfold make_reading.
  destruct (str_contains term_jp sentence_jp) eqn:E.
  - left. split; [apply str_contains_iff; exact E|].
    split; [reflexivity | apply str_replace_replaced_all].
  - right. split; [|reflexivity].
    intros H. apply str_contains_iff in H. congruence.
Qed.

Lemma length_interleave (new s : str) :
  length (interleave new s) = length s + (length s + 1) * length new.
Proof.
  induction s as [|c s IH]; simpl; [lia|].
  rewrite length_app. simpl. rewrite IH. lia.
Qed.

(** C10, as amended.  With an empty term the "absent" branch of
    [make_reading] is never taken: the empty string occurs in every
    sentence, and the result is the sentence with the reading put before
    every code point and at the end (the reading itself for the empty
    sentence).  For a non-empty reading the result is therefore neither
    empty nor the sentence.  The contract "the result is empty exactly
    when the term is absent" holds for every term, empty or not, as soon
    as the reading is not empty. *)
Theorem make_reading_empty_term (sentence_jp term_hira : str) :
  str_contains [] sentence_jp = true
  /\ make_reading sentence_jp [] term_hira
     = fold_right (fun c acc => term_hira ++ c :: acc) term_hira sentence_jp
  /\ make_reading [] [] term_hira = term_hira
  /\ length (make_reading sentence_jp [] term_hira)
     = length sentence_jp + (length sentence_jp + 1) * length term_hira
  /\ (term_hira <> [] ->
      make_reading sentence_jp [] term_hira <> []
      /\ make_reading sentence_jp [] term_hira <> sentence_jp)
  /\ (term_hira <> [] ->
      forall term_jp : str,
        make_reading sentence_jp term_jp term_hira = []
        <-> str_contains term_jp sentence_jp = false).
Proof.
  assert (E : make_reading sentence_jp [] term_hira = interleave term_hira sentence_jp).
  { unfold make_reading. rewrite str_contains_nil. reflexivity. }
  split; [apply str_contains_nil|].
  split.
  { rewrite E. induction sentence_jp as [|c s IH]; simpl; [reflexivity|].
    f_equal. f_equal. apply IH. unfold make_reading.
    rewrite str_contains_nil. reflexivity. }
  split; [reflexivity|].
  split; [rewrite E; apply length_interleave|].
  split.
  - intros Hh.
    assert (L : length (make_reading sentence_jp [] term_hira) > length sentence_jp).
    { rewrite E, length_interleave. destruct term_hira; [congruence | simpl; lia]. }
    split; intros C; rewrite C in L; simpl in L; lia.
  - intros Hh term_jp. unfold make_reading.
    destruct (str_contains term_jp sentence_jp) eqn:Ec.
    + split; [|discriminate]. intros C. exfalso.
      destruct (str_replace_has_new sentence_jp term_jp term_hira Ec)
        as [a [b Hab]].
      rewrite Hab in C. apply app_eq_nil in C. destruct C as [_ C].
      apply app_eq_nil in C. tauto.
    + split; reflexivity.
Qed.

Lemma make_reading_empty_term_witness :
  (make_reading (u "かくにん") [] (u "・") <> []
   /\ make_reading (u "かくにん") [] (u "・") <> u "かくにん")
  /\ (make_reading (u "かくにん") (u "確認") (u "・") = []
      <-> str_contains (u "確認") (u "かくにん") = false).
Proof.
  split.
  - apply (make_reading_empty_term (u "かくにん") (u "・")). discriminate.
  - apply (make_reading_empty_term (u "かくにん") (u "・")). discriminate.
Defined.

(** C10 as stated fails in its last sentence: a non-empty term does not
    secure the contract.  With an empty reading the term あ occurs in the
    sentence ああ and the result is empty; what secures the contract is a
    non-empty reading, with which it holds for the empty term too. *)
Lemma make_reading_contract_fails :
  (u "あ" <> [] /\ str_contains (u "あ") (u "ああ") = true
   /\ make_reading (u "ああ") (u "あ") [] = [])
  /\ (str_contains [] (u "ああ") = true
      /\ make_reading (u "ああ") [] (u "・") <> []).
Proof.
  split.
  - split; [discriminate|]. split; vm_compute; reflexivity.
  - split; [vm_compute; reflexivity | discriminate].
Qed.

Lemma Ok_inj {A : Type} (x y : A) : Ok x = Ok y -> x = y.
Proof. intros H. injection H as ->. reflexivity. Qed.

(** ** C7: the question branch *)

Lemma question_jp_ends (a : str) :
  endswith (question_jp a) (u "か") = true
  \/ endswith (question_jp a) (u "？") = true.
Proof.
  unfold question_jp.
  destruct (endswith a (u "か")) eqn:E1; [left; exact E1|].
  destruct (endswith a (u "？")) eqn:E2; [right; exact E2|].
  right. apply endswith_app.
Qed.

Lemma question_en_ends (c : str) : endswith (question_en c) (u "?") = true.
Proof.
  unfold question_en.
  destruct (endswith c (u "?")) eqn:E; [exact E | apply endswith_app].
Qed.

(** C7.  A record that reaches the question branch of [make_example2] gets
    a Japanese sentence ending in か or in the full-width question mark, and
    an English sentence ending in a question mark; and when its fields are
    encodable text the call does return. *)
Theorem question_branch_post (r : Row) :
  reaches_question r = true ->
  (forall ex_jp ex_hira ex_en,
      make_example2 r = Ok (ex_jp, ex_hira, ex_en) ->
      (endswith ex_jp (u "か") = true \/ endswith ex_jp (u "？") = true)
      /\ endswith ex_en (u "?") = true)
  /\ (text_row r = true -> exists out, make_example2 r = Ok out).
Proof.
  intros Hq. rewrite (reaches_question_eq r Hq). split.
  - intros ex_jp ex_hira ex_en H. apply fill_question_inv in H.
    destruct H as [fr [a [c [_ [_ [_ E]]]]]]. injection E as -> -> ->.
    split; [apply question_jp_ends | apply question_en_ends].
  - intros Ht. apply fill_question_ok. seed_ok Ht.
Qed.

Lemma question_branch_post_witness :
  (forall ex_jp ex_hira ex_en,
      make_example2 row_problem = Ok (ex_jp, ex_hira, ex_en) ->
      (endswith ex_jp (u "か") = true \/ endswith ex_jp (u "？") = true)
      /\ endswith ex_en (u "?") = true)
  /\ (text_row row_problem = true -> exists out, make_example2 row_problem = Ok out).
Proof.
  apply (question_branch_post row_problem). vm_compute. reflexivity.
Defined.

(** ** C8: a verb in します *)

(** C8.  For the term 確認します in the deck 03_tech_verbs, whatever the
    reading and the gloss: a result of [make_example2] is the frame of
    [ex2_frames_v1] (four frames) at the index that [_pick_index] gives for
    the seed "03_tech_verbs|確認します|reading|gloss|v1" and 4; its Japanese
    sentence contains 確認します, and its English sentence is one of the four
    English frames filled with the stripped gloss.  The call returns when
    reading and gloss are encodable text. *)
Theorem confirm_scenario (r : Row) :
  deck r = u "03_tech_verbs" -> japanese r = u "確認します" ->
  let seed := u "03_tech_verbs|確認します|" ++ hiragana r ++ u "|"
              ++ english r ++ u "|v1" in
  let gloss := rstrip (strip (english r)) (u ".") in
  (forall ex_jp ex_hira ex_en,
      make_example2 r = Ok (ex_jp, ex_hira, ex_en) ->
      len ex2_frames_v1 = 4%Z
      /\ (exists i tmpl_jp tmpl_en,
            _pick_index seed 4 = Ok i /\ (0 <= i < 4)%Z
            /\ nth_error ex2_frames_v1 (Z.to_nat i) = Some (tmpl_jp, tmpl_en)
            /\ format tmpl_jp [(u "t", u "確認します")] = Ok ex_jp
            /\ format tmpl_en [(u "en", gloss)] = Ok ex_en)
      /\ ex_hira = make_reading ex_jp (u "確認します") (hiragana r)
      /\ str_contains (u "確認します") ex_jp = true
      /\ In ex_en [ gloss ++ u " now."; gloss ++ u " after this.";
                    gloss ++ u ", so please wait a moment.";
                    gloss ++ u ". I'll let you know when I'm done." ])
  /\ (encodable (hiragana r) = true -> encodable (english r) = true ->
      exists out, make_example2 r = Ok out).
Proof.
  intros Hd Hj seed gloss.
  assert (Heq : make_example2 r
                = fill ex2_frames_v1 seed (u "確認します") (hiragana r) gloss).
  { rewrite make_example2_eq. cbv zeta. rewrite Hd, Hj.
    assert (E1 : dict_mem specials (u "確認します") = false) by (vm_compute; reflexivity).
    assert (E2 : str_contains (u "〜") (u "確認します") = false) by (vm_compute; reflexivity).
    assert (E3 : endswith (u "確認します") (u "は") = false) by (vm_compute; reflexivity).
    assert (E4 : endswith (u "確認します") (u "します") = true) by (vm_compute; reflexivity).
    rewrite E1, E2, E3, E4. cbn [andb]. unfold seed, gloss, gloss_stripped.
    f_equal. rewrite <- !app_assoc. reflexivity. }
  rewrite Heq. split.
  - clearbody seed gloss. intros ex_jp ex_hira ex_en H.
    split; [reflexivity|].
    unfold fill in H.
    apply bind_ok in H. destruct H as [i [Hi H]].
    apply bind_ok in H. destruct H as [[tj te] [Hget H]].
    apply bind_ok in H. destruct H as [a [Ha H]].
    apply bind_ok in H. destruct H as [c [Hc H]].
    apply Ok_inj in H. injection H as <- <- <-.
    change (len ex2_frames_v1) with 4%Z in Hi.
    pose proof (pick_index_range seed 4 i Hi eq_refl) as Hrange.
    assert (Hnth : nth_error ex2_frames_v1 (Z.to_nat i) = Some (tj, te)).
    { unfold list_getitem in Hget. destruct (Z.ltb_spec i 0); [lia|].
      destruct (Z.ltb_spec i 0); [lia|].
      destruct (nth_error ex2_frames_v1 (Z.to_nat i)); [|discriminate Hget].
      injection Hget as ->. reflexivity. }
    split.
    { exists i, tj, te. auto. }
    split; [reflexivity|].
    apply list_getitem_in in Hget.
    destruct Hget as [E | [E | [E | [E | []]]]]; injection E as <- <-.
    + rewrite (format_split (u "t") _ (u "いま、") (u "。")) in Ha by (first [discriminate | vm_compute; reflexivity]).
      rewrite (format_split (u "en") _ [] (u " now.")) in Hc by (first [discriminate | vm_compute; reflexivity]).
      apply Ok_inj in Ha, Hc. subst a c.
      split; [apply str_contains_mid | left; exact (eq_sym (app_nil_l _))].
    + rewrite (format_split (u "t") _ (u "このあと、") (u "。")) in Ha by (first [discriminate | vm_compute; reflexivity]).
      rewrite (format_split (u "en") _ [] (u " after this.")) in Hc by (first [discriminate | vm_compute; reflexivity]).
      apply Ok_inj in Ha, Hc. subst a c.
      split; [apply str_contains_mid | right; left; exact (eq_sym (app_nil_l _))].
    + rewrite (format_split (u "t") _ [] (u "ので、すこしまってください。")) in Ha by (first [discriminate | vm_compute; reflexivity]).
      rewrite (format_split (u "en") _ [] (u ", so please wait a moment.")) in Hc by (first [discriminate | vm_compute; reflexivity]).
      apply Ok_inj in Ha, Hc. subst a c.
      split; [exact (str_contains_mid [] (u "確認します") _) | right; right; left; exact (eq_sym (app_nil_l _))].
    + rewrite (format_split (u "t") _ [] (u "。おわったらおしえます。")) in Ha by (first [discriminate | vm_compute; reflexivity]).
      rewrite (format_split (u "en") _ [] (u ". I'll let you know when I'm done.")) in Hc by (first [discriminate | vm_compute; reflexivity]).
      apply Ok_inj in Ha, Hc. subst a c.
      split; [exact (str_contains_mid [] (u "確認します") _) | right; right; right; left; exact (eq_sym (app_nil_l _))].
  - intros Hh He. apply (fill_ok any_lits); [|discriminate|].
    + pose proof frames_all_ex2_stripped as Hs. unfold ex2_frames_stripped in Hs.
      apply (frames_all_incl _ _ _ ltac:(incl_here) Hs).
    + unfold seed. rewrite !encodable_app, Hh, He. reflexivity.
Qed.

Lemma confirm_scenario_witness :
  exists out, make_example2 row_confirm = Ok out.
Proof.
  assert (Hd : deck row_confirm = u "03_tech_verbs") by (vm_compute; reflexivity).
  assert (Hj : japanese row_confirm = u "確認します") by (vm_compute; reflexivity).
  assert (Hh : encodable (hiragana row_confirm) = true) by (vm_compute; reflexivity).
  assert (He : encodable (english row_confirm) = true) by (vm_compute; reflexivity).
  exact (proj2 (confirm_scenario row_confirm Hd Hj) Hh He).
Defined.

(** ** C5: the two examples of a record differ *)

Lemma all_pairs_in {A B : Type} (p : A -> B -> bool) (l2 : list A) (l3 : list B)
      (a : A) (b : B) :
  all_pairs p l2 l3 = true -> In a l2 -> In b l3 -> p a b = true.
Proof.
  unfold all_pairs. rewrite forallb_forall. intros H Ha Hb.
  specialize (H a Ha). rewrite forallb_forall in H. apply H. exact Hb.
Qed.

Lemma lit_differs_cnt (a b : str) :
  lit_differs a b = true -> exists c, cnt c a <> cnt c b.
Proof.
  unfold lit_differs. intros H. apply existsb_exists in H.
  destruct H as [c [_ Hc]]. exists c.
  apply negb_true_iff in Hc. apply Nat.eqb_neq in Hc. exact Hc.
Qed.

Lemma cnt_render_jp (c : char) (q : lits) (t : str) :
  cnt c (render_jp q t) = cnt c (jp_lit q) + cnt c t.
Proof. unfold render_jp, jp_lit. rewrite !cnt_app. lia. Qed.

Lemma cnt_render_en (c : char) (q : lits) (e : str) :
  cnt c (render_en q e) = cnt c (en_lit q) + cnt c e.
Proof. unfold render_en, en_lit. rewrite !cnt_app. lia. Qed.

Lemma render_jp_differs (q2 q3 : lits) (t : str) :
  lit_differs (jp_lit q2) (jp_lit q3) = true ->
  render_jp q2 t <> render_jp q3 t.
Proof.
  intros H E. apply lit_differs_cnt in H. destruct H as [c Hc].
  apply (f_equal (cnt c)) in E. rewrite !cnt_render_jp in E. lia.
Qed.

Lemma render_en_differs (q2 q3 : lits) (e : str) :
  lit_differs (en_lit q2) (en_lit q3) = true ->
  render_en q2 e <> render_en q3 e.
Proof.
  intros H E. apply lit_differs_cnt in H. destruct H as [c Hc].
  apply (f_equal (cnt c)) in E. rewrite !cnt_render_en in E. lia.
Qed.

Lemma dict_get_in {V : Type} (d : list (str * V)) (k : str) (v : V) :
  dict_get d k = Some v -> In (k, v) d.
Proof.
  induction d as [|[k' v'] d IH]; simpl; [discriminate|].
  destruct (str_eqb k k') eqn:E.
  - intros H. injection H as ->. apply str_eqb_eq in E. subst. left. reflexivity.
  - intros H. right. apply IH. exact H.
Qed.

Lemma replace_single (c : char) (new s : str) :
  replace_from [c] new 0 s
  = flat_map (fun x => if N.eqb c x then new else [x]) s.
Proof.
  induction s as [|x s IH]; [reflexivity|].
  cbn [replace_from flat_map startswith length pred].
  rewrite andb_true_r. destruct (N.eqb c x).
  - rewrite IH. reflexivity.
  - rewrite IH. reflexivity.
Qed.

Lemma cnt_replace_single (c : char) (new s : str) :
  cnt c new = 0 -> cnt c (replace_from [c] new 0 s) = 0.
Proof.
  intros Hn. rewrite replace_single.
  induction s as [|x s IH]; [reflexivity|].
  cbn [flat_map]. rewrite cnt_app, IH.
  destruct (N.eqb_spec c x) as [->|Hcx].
  - rewrite Hn. reflexivity.
  - simpl. destruct (N.eqb_spec x c); [congruence | reflexivity].
Qed.

Lemma u_tilde : u "〜" = [tilde].
Proof. vm_compute. reflexivity. Qed.

Lemma cnt_tilde_ex3 (q : lits) (t : str) :
  str_contains (u "〜") t = true -> 1 <= cnt tilde (render_jp q t).
Proof.
  intros H. rewrite u_tilde in H. apply str_contains_iff in H.
  apply cnt_occurs in H. rewrite cnt_render_jp. lia.
Qed.

(** The tables of the two generators are disjoint in the sense the
    argument needs. *)

Lemma specials_apart :
  forallb (fun kv : str * triple =>
             forallb (fun q3 => negb (str_eqb (fst (fst (snd kv)))
                                              (render_jp q3 (fst kv))))
                     (lits_of ex3_frames_all))
          specials = true.
Proof. vm_compute. reflexivity. Qed.

Lemma stem_apart :
  forallb (fun q3 => lit_differs (u "ありますか。") (jp_lit q3))
          (lits_of ex3_frames_all) = true.
Proof. vm_compute. reflexivity. Qed.

Lemma stripped_apart :
  all_pairs (fun q2 q3 => lit_differs (jp_lit q2) (jp_lit q3)
                          || lit_differs (en_lit q2) (en_lit q3))
            (lits_of ex2_frames_stripped) (lits_of ex3_frames_all) = true.
Proof. vm_compute. reflexivity. Qed.

Lemma raw_apart :
  all_pairs (fun q2 q3 => lit_differs (jp_lit q2) (jp_lit q3))
            (lits_of ex2_frames_raw) (lits_of ex3_frames_all) = true.
Proof. vm_compute. reflexivity. Qed.

Lemma question_apart :
  forallb (fun q3 =>
             lit_differs (u "このへんこうで" ++ []) (jp_lit q3)
             && lit_differs ([] ++ u "。") (jp_lit q3)
             && lit_differs (u "いまのじょうきょうで" ++ []) (jp_lit q3)
             && Nat.eqb (cnt fw_question (jp_lit q3)) 0)
          (lits_of ex3_frames_all) = true.
Proof. vm_compute. reflexivity. Qed.

Lemma triple_inj (a b c a' b' c' : str) :
  (a, b, c) = (a', b', c') -> a = a' /\ b = b' /\ c = c'.
Proof. intros H. injection H as -> -> ->. auto. Qed.

Lemma question_jp_apart (before after t : str) (q3 : lits) :
  lit_differs (before ++ after) (jp_lit q3) = true ->
  cnt fw_question (before ++ after) = 0 ->
  cnt fw_question (jp_lit q3) = 0 ->
  question_jp (before ++ t ++ after) <> render_jp q3 t.
Proof.
  intros Hd H2 H3 E. unfold question_jp in E.
  destruct (negb _ && negb _).
  - apply (f_equal (cnt fw_question)) in E.
    rewrite cnt_render_jp, cnt_app in E. unfold rstrip in E.
    rewrite cnt_rstrip_by in E by (vm_compute; reflexivity).
    rewrite !cnt_app in E. rewrite cnt_app in H2.
    replace (cnt fw_question (u "？")) with 1 in E by (vm_compute; reflexivity).
    lia.
  - apply lit_differs_cnt in Hd. destruct Hd as [c Hc].
    apply (f_equal (cnt c)) in E.
    rewrite cnt_render_jp, !cnt_app in E. rewrite cnt_app in Hc. lia.
Qed.

Lemma ex2_ex3_apart (r : Row) (out2 : triple) (q3 : lits) :
  ex2_out r out2 -> In q3 (lits_of ex3_frames_all) ->
  out2 <> rendered q3 (japanese r) (hiragana r) (gloss_stripped (english r)).
Proof.
  intros H Hq3 E. unfold rendered in E.
  destruct H as [out Hs | Ht | Ht | Ht | Ht | q2 Ht Hq2 | q2 Ht Hq2 | fr a c Hq Ht Hin Ha Hc].
  - (* special-case table *)
    apply dict_get_in in Hs.
    pose proof specials_apart as Hall. rewrite forallb_forall in Hall.
    specialize (Hall _ Hs). rewrite forallb_forall in Hall.
    specialize (Hall _ Hq3). cbn [fst snd] in Hall.
    rewrite E in Hall. cbn [fst snd] in Hall.
    rewrite str_eqb_refl in Hall. discriminate Hall.
  - apply triple_inj in E. destruct E as [E _].
    apply (f_equal (cnt tilde)) in E.
    pose proof (cnt_tilde_ex3 q3 _ Ht) as Hc.
    replace (cnt tilde (u "この内容でよろしいでしょうか。")) with 0 in E
      by (vm_compute; reflexivity).
    lia.
  - apply triple_inj in E. destruct E as [E _].
    apply (f_equal (cnt tilde)) in E.
    pose proof (cnt_tilde_ex3 q3 _ Ht) as Hc.
    replace (cnt tilde (u "この点はそういう認識です。")) with 0 in E
      by (vm_compute; reflexivity).
    lia.
  - apply triple_inj in E. destruct E as [E _].
    apply (f_equal (cnt tilde)) in E.
    pose proof (cnt_tilde_ex3 q3 _ Ht) as Hc.
    rewrite cnt_app, u_tilde in E. cbn [str_replace] in E.
    rewrite cnt_replace_single in E by (vm_compute; reflexivity).
    replace (cnt tilde (u "。")) with 0 in E by (vm_compute; reflexivity).
    lia.
  - apply triple_inj in E. destruct E as [E _].
    pose proof stem_apart as Hall. rewrite forallb_forall in Hall.
    specialize (Hall _ Hq3). apply lit_differs_cnt in Hall.
    destruct Hall as [ch Hch].
    apply (f_equal (cnt ch)) in E. rewrite cnt_render_jp, cnt_app in E. lia.
  - unfold rendered in E. apply triple_inj in E. destruct E as [E1 [_ E3]].
    pose proof (all_pairs_in _ _ _ q2 q3 stripped_apart Hq2 Hq3) as Hd.
    apply orb_true_iff in Hd. destruct Hd as [Hd | Hd].
    + exact (render_jp_differs q2 q3 _ Hd E1).
    + exact (render_en_differs q2 q3 _ Hd E3).
  - unfold rendered in E. apply triple_inj in E. destruct E as [E1 _].
    pose proof (all_pairs_in _ _ _ q2 q3 raw_apart Hq2 Hq3) as Hd.
    exact (render_jp_differs q2 q3 _ Hd E1).
  - apply triple_inj in E. destruct E as [E1 _].
    pose proof question_apart as Hall. rewrite forallb_forall in Hall.
    specialize (Hall _ Hq3).
    apply andb_true_iff in Hall. destruct Hall as [Hall H0].
    apply andb_true_iff in Hall. destruct Hall as [Hall Hd3].
    apply andb_true_iff in Hall. destruct Hall as [Hd1 Hd2].
    apply Nat.eqb_eq in H0.
    destruct Hin as [F | [F | [F | []]]]; rewrite <- F in Ha; cbn [fst] in Ha.
    + rewrite (format_split (u "t") _ (u "このへんこうで") [])
        in Ha by (first [discriminate | vm_compute; reflexivity]).
      apply Ok_inj in Ha. subst a.
      revert E1. apply question_jp_apart; [exact Hd1 | vm_compute; reflexivity | exact H0].
    + rewrite (format_split (u "t") _ [] (u "。"))
        in Ha by (first [discriminate | vm_compute; reflexivity]).
      apply Ok_inj in Ha. subst a.
      revert E1. apply question_jp_apart; [exact Hd2 | vm_compute; reflexivity | exact H0].
    + rewrite (format_split (u "t") _ (u "いまのじょうきょうで") [])
        in Ha by (first [discriminate | vm_compute; reflexivity]).
      apply Ok_inj in Ha. subst a.
      revert E1. apply question_jp_apart; [exact Hd3 | vm_compute; reflexivity | exact H0].
Qed.

(** C5.  For every record, a result of [make_example2] and a result of
    [make_example3] are different triples; and on a record whose fields are
    encodable text both generators do return. *)
Theorem examples_never_collide (r : Row) :
  (forall out2 out3,
      make_example2 r = Ok out2 -> make_example3 r = Ok out3 -> out2 <> out3)
  /\ (text_row r = true ->
      exists out2 out3,
        make_example2 r = Ok out2 /\ make_example3 r = Ok out3 /\ out2 <> out3).
Proof.
  assert (Hcore : forall out2 out3,
             make_example2 r = Ok out2 -> make_example3 r = Ok out3 -> out2 <> out3).
  { intros out2 out3 H2 H3.
    apply make_example2_out in H2. apply make_example3_out in H3.
    destruct H3 as [q3 [Hq3 ->]]. apply ex2_ex3_apart; assumption. }
  split; [exact Hcore|].
  intros Ht.
  destruct (make_example2_ok r Ht) as [out2 H2].
  destruct (make_example3_ok r Ht) as [out3 H3].
  exists out2, out3. split; [exact H2|]. split; [exact H3|].
  apply Hcore; assumption.
Qed.

Lemma examples_never_collide_witness :
  exists out2 out3,
    make_example2 row_confirm = Ok out2 /\ make_example3 row_confirm = Ok out3
    /\ out2 <> out3.
Proof.
  assert (Ht : text_row row_confirm = true) by (vm_compute; reflexivity).
  exact (proj2 (examples_never_collide row_confirm) Ht).
Defined.

(** ** The term in the sentence *)

Lemma endswith_app_nonempty (a b : str) (c : char) :
  b <> [] -> endswith (a ++ b) [c] = endswith b [c].
Proof.
  intros Hb. destruct b as [|x b] using rev_ind; [congruence|].
  rewrite app_assoc, !endswith_last. reflexivity.
Qed.

Lemma fst_pair {A B : Type} (a : A) (b : B) : fst (a, b) = a.
Proof. reflexivity. Qed.

Lemma snd_pair {A B : Type} (a : A) (b : B) : snd (a, b) = b.
Proof. reflexivity. Qed.

Lemma question_frames_jp (fr : str * str) (t a : str) :
  In fr ex2_frames_v4 -> format (fst fr) [(u "t", t)] = Ok a ->
  exists before after,
    In (before, after) question_lits /\ a = before ++ t ++ after.
Proof.
  intros Hin Ha.
  destruct Hin as [F | [F | [F | []]]]; subst fr; rewrite fst_pair in Ha.
  - exists (u "このへんこうで"), []. split; [left; reflexivity|].
    apply Ok_inj. rewrite <- Ha.
    apply format_split; first [discriminate | vm_compute; reflexivity].
  - exists [], (u "。"). split; [right; left; reflexivity|].
    apply Ok_inj. rewrite <- Ha.
    apply format_split; first [discriminate | vm_compute; reflexivity].
  - exists (u "いまのじょうきょうで"), []. split; [right; right; left; reflexivity|].
    apply Ok_inj. rewrite <- Ha.
    apply format_split; first [discriminate | vm_compute; reflexivity].
Qed.

Lemma question_jp_keeps_tail (before t : str) :
  endswith before (u "。") = false -> endswith t (u "。") = false ->
  question_jp (before ++ t ++ []) = before ++ t ++ []
  \/ question_jp (before ++ t ++ []) = before ++ t ++ u "？".
Proof.
  intros Hb Ht. unfold question_jp.
  destruct (negb _ && negb _); [right | left; reflexivity].
  rewrite app_nil_r, app_assoc. f_equal.
  apply rstrip_single_id.
  destruct t as [|x t]; [rewrite app_nil_r; exact Hb|].
  rewrite endswith_app_nonempty by discriminate. exact Ht.
Qed.

Lemma question_jp_full_stop (t : str) :
  endswith t (u "。") = false ->
  question_jp ([] ++ t ++ u "。") = [] ++ t ++ u "？".
Proof.
  intros Ht. unfold question_jp. rewrite app_nil_l.
  rewrite !endswith_last. cbn [negb andb N.eqb Pos.eqb].
  unfold rstrip. rewrite rstrip_by_drop by reflexivity.
  fold (rstrip t (u "。")). rewrite rstrip_single_id by exact Ht.
  reflexivity.
Qed.

(** The sentence of the question branch, for a term that does not end in
    a full stop: text, term, text. *)
Lemma question_jp_shape (before after t : str) :
  In (before, after) question_lits -> endswith t (u "。") = false ->
  exists after',
    question_jp (before ++ t ++ after) = before ++ t ++ after'
    /\ (after' = [] \/ after' = u "？").
Proof.
  intros Hin Ht.
  destruct Hin as [F | [F | [F | []]]]; injection F as <- <-.
  - destruct (question_jp_keeps_tail (u "このへんこうで") t eq_refl Ht) as [E | E];
      rewrite E; eexists; split; [reflexivity | left; reflexivity
                                 | reflexivity | right; reflexivity].
  - rewrite (question_jp_full_stop t Ht). eexists.
    split; [reflexivity | right; reflexivity].
  - destruct (question_jp_keeps_tail (u "いまのじょうきょうで") t eq_refl Ht) as [E | E];
      rewrite E; eexists; split; [reflexivity | left; reflexivity
                                 | reflexivity | right; reflexivity].
Qed.

Lemma occurs_cnt_le (c : char) (sub s : str) :
  occurs sub s -> cnt c sub <= cnt c s.
Proof. intros [a [b ->]]. rewrite !cnt_app. lia. Qed.

Lemma cnt_rstrip_by_le (p : char -> bool) (c : char) (s : str) :
  cnt c (rstrip_by p s) <= cnt c s.
Proof.
  destruct (rstrip_by_prefix p s) as [b [E _]].
  rewrite E at 2. rewrite cnt_app. lia.
Qed.

(** The sentence of the question branch for a term that ends in a full
    stop: the full stops at the end of the term are gone. *)
Lemma question_jp_strips (before after t : str) :
  In (before, after) question_lits -> endswith t (u "。") = true ->
  exists x, question_jp (before ++ t ++ after) = x ++ u "？"
            /\ cnt 0x3002%N x < cnt 0x3002%N t.
Proof.
  intros Hin Ht. apply endswith_iff in Ht. destruct Ht as [t0 ->].
  assert (Hcnt : cnt 0x3002%N (t0 ++ u "。") = cnt 0x3002%N t0 + 1).
  { rewrite cnt_app. reflexivity. }
  rewrite Hcnt. clear Hcnt.
  assert (Hone : forall s : str,
             question_jp (s ++ u "。")
             = rstrip_by (fun c => existsb (N.eqb c) (u "。")) s ++ u "？").
  { intros s. unfold question_jp. rewrite !endswith_last.
    cbn [negb andb N.eqb Pos.eqb]. unfold rstrip.
    rewrite rstrip_by_drop by reflexivity. reflexivity. }
  destruct Hin as [F | [F | [F | []]]]; injection F as <- <-.
  - rewrite app_nil_r, app_assoc, Hone. eexists. split; [reflexivity|].
    pose proof (cnt_rstrip_by_le (fun c => existsb (N.eqb c) (u "。"))
                  0x3002%N (u "このへんこうで" ++ t0)) as Hle.
    rewrite cnt_app in Hle.
    change (cnt 0x3002%N (u "このへんこうで")) with 0 in Hle. lia.
  - rewrite app_nil_l, Hone. rewrite rstrip_by_drop by reflexivity.
    eexists. split; [reflexivity|].
    pose proof (cnt_rstrip_by_le (fun c => existsb (N.eqb c) (u "。"))
                  0x3002%N t0) as Hle. lia.
  - rewrite app_nil_r, app_assoc, Hone. eexists. split; [reflexivity|].
    pose proof (cnt_rstrip_by_le (fun c => existsb (N.eqb c) (u "。"))
                  0x3002%N (u "いまのじょうきょうで" ++ t0)) as Hle.
    rewrite cnt_app in Hle.
    change (cnt 0x3002%N (u "いまのじょうきょうで")) with 0 in Hle. lia.
Qed.

(** So the sentence of the question branch does not contain a term that
    ends in a full stop, and the reading of the sentence is empty. *)
Lemma question_jp_loses_term (before after t : str) :
  In (before, after) question_lits -> endswith t (u "。") = true ->
  str_contains t (question_jp (before ++ t ++ after)) = false.
Proof.
  intros Hin Ht.
  destruct (question_jp_strips before after t Hin Ht) as [x [E Hlt]].
  rewrite E.
  destruct (str_contains t (x ++ u "？")) eqn:Ec; [|reflexivity].
  apply str_contains_iff in Ec.
  apply (occurs_cnt_le 0x3002%N) in Ec. rewrite cnt_app in Ec.
  change (cnt 0x3002%N (u "？")) with 0 in Ec. lia.
Qed.


Lemma specials_contain :
  forallb (fun kv : str * triple => str_contains (fst kv) (fst (fst (snd kv))))
          specials = true.
Proof. vm_compute. reflexivity. Qed.

(** For a term without placeholder that does not end in a full stop, the
    sentence of [make_example2] contains the term. *)
Lemma ex2_out_contains (r : Row) (out : triple) :
  ex2_out r out ->
  str_contains (u "〜") (japanese r) = false ->
  endswith (japanese r) (u "。") = false ->
  str_contains (japanese r) (fst (fst out)) = true.
Proof.
  intros H Hno Hstop.
  destruct H as [out Hs | Ht | Ht | Ht | Ht | q2 Ht Hq2 | q2 Ht Hq2 | fr a c Hq Ht Hin Ha Hc].
  - apply dict_get_in in Hs.
    pose proof specials_contain as Hall. rewrite forallb_forall in Hall.
    exact (Hall _ Hs).
  - congruence.
  - congruence.
  - congruence.
  - rewrite !fst_pair. exact (str_contains_mid [] (japanese r) _).
  - unfold rendered. rewrite !fst_pair. apply str_contains_mid.
  - unfold rendered. rewrite !fst_pair. apply str_contains_mid.
  - rewrite !fst_pair.
    destruct (question_frames_jp fr _ a Hin Ha) as [P [S [Hl ->]]].
    destruct (question_jp_shape P S _ Hl Hstop) as [S' [-> _]].
    apply str_contains_mid.
Qed.

(** ** The reading of a sentence built around the term *)

Lemma make_reading_mid (before after t h : str) :
  make_reading (before ++ t ++ after) t h
  = str_replace (before ++ t ++ after) t h.
Proof. unfold make_reading. rewrite str_contains_mid. reflexivity. Qed.

Lemma make_reading_has_reading (before after t h : str) :
  exists a b, make_reading (before ++ t ++ after) t h = a ++ h ++ b.
Proof.
  rewrite make_reading_mid. apply str_replace_has_new. apply str_contains_mid.
Qed.


Lemma make_reading_forallb (q : char -> bool) (before after t h : str) :
  forallb q before = true -> forallb q after = true -> forallb q h = true ->
  forallb q (make_reading (before ++ t ++ after) t h) = true.
Proof.
  intros Hb Ha Hh. rewrite make_reading_mid.
  destruct (forallb q t) eqn:Et.
  - apply str_replace_forallb; [exact Hh|].
    rewrite !forallb_app, Hb, Et, Ha. reflexivity.
  - destruct t as [|c t]; [discriminate Et|].
    cbn [str_replace].
    rewrite (replace_from_sandwich q (c :: t) h before after Hb Ha Et).
    rewrite !forallb_app, Hb, Hh, Ha. reflexivity.
Qed.

(** ** The validation predicate *)

Lemma drop_while_head (p : char -> bool) (s : str) (c : char) (r : str) :
  drop_while p s = c :: r -> p c = false.
Proof.
  induction s as [|x s IH]; simpl; [discriminate|].
  destruct (p x) eqn:E; [exact IH|].
  intros H. injection H as -> _. exact E.
Qed.

Lemma strip_last (s x : str) (c : char) :
  strip s = x ++ [c] -> is_space c = false.
Proof.
  unfold strip, rstrip_by, lstrip_by. intros H.
  apply (f_equal (@rev char)) in H.
  rewrite rev_involutive, rev_app_distr in H. simpl in H.
  exact (drop_while_head _ _ _ _ H).
Qed.

Lemma is_hiraganaish_intro (s : str) :
  forallb kana_class s = true ->
  existsb (fun c => negb (is_space c)) s = true ->
  is_hiraganaish s = true.
Proof.
  intros Hc Hs. unfold is_hiraganaish. cbv zeta.
  pose proof (strip_nonempty s Hs) as Hne.
  destruct (strip s) as [|c t] eqn:E; [congruence|].
  cbn [length Nat.eqb]. unfold HIRAGANA_KATAKANA_RE_match, class_run.
  cbn [length Nat.eqb negb andb].
  rewrite <- E, (strip_forallb kana_class s Hc). reflexivity.
Qed.

Lemma is_hiraganaish_stripped (h : str) :
  is_hiraganaish h = true -> strip h = h ->
  forallb kana_class h = true
  /\ existsb (fun c => negb (is_space c)) h = true.
Proof.
  intros H Hs. unfold is_hiraganaish in H. cbv zeta in H. rewrite Hs in H.
  destruct h as [|c t] eqn:Eh; [discriminate H|]. rewrite <- Eh in *.
  assert (Hlen : Nat.eqb (length h) 0 = false) by (rewrite Eh; reflexivity).
  rewrite Hlen in H.
  split.
  - unfold HIRAGANA_KATAKANA_RE_match in H. apply orb_true_iff in H.
    destruct H as [H | H].
    + unfold class_run in H. apply andb_true_iff in H. tauto.
    + exfalso. destruct (rev h) as [|x r] eqn:Er; [discriminate H|].
      apply andb_true_iff in H. destruct H as [Hx _].
      apply N.eqb_eq in Hx. subst x.
      assert (Hh : strip h = rev r ++ [10%N]).
      { rewrite Hs. rewrite <- (rev_involutive h), Er. reflexivity. }
      apply strip_last in Hh. discriminate Hh.
  - apply strip_nonempty_inv. rewrite Hs, Eh. discriminate.
Qed.

Lemma is_hiraganaish_has_text (h : str) :
  is_hiraganaish h = true ->
  existsb (fun c => negb (is_space c)) h = true.
Proof.
  intros H. apply strip_nonempty_inv. intros E.
  unfold is_hiraganaish in H. cbv zeta in H. rewrite E in H. discriminate H.
Qed.

Lemma validate_intro (a b c term : str) :
  str_contains term a = true -> is_hiraganaish b = true ->
  length a <= 140 -> length c <= 200 ->
  validate_example2 (mkExample2 a b c) term = None.
Proof.
  intros H1 H2 H3 H4. unfold validate_example2.
  cbn [jp hira en].
  rewrite H1, H2. cbn [negb].
  unfold len.
  destruct (Z.gtb_spec (Z.of_nat (length a)) 140); [lia|].
  destruct (Z.gtb_spec (Z.of_nat (length c)) 200); [lia|].
  reflexivity.
Qed.

Lemma existsb_mid (q : char -> bool) (a h b : str) :
  existsb q h = true -> existsb q (a ++ h ++ b) = true.
Proof.
  intros H. rewrite !existsb_app, H. rewrite orb_true_r. reflexivity.
Qed.

Lemma reading_hiraganaish (before after t h : str) :
  forallb kana_class before = true -> forallb kana_class after = true ->
  forallb kana_class h = true ->
  existsb (fun c => negb (is_space c)) h = true ->
  is_hiraganaish (make_reading (before ++ t ++ after) t h) = true.
Proof.
  intros Hb Ha Hh Hs. apply is_hiraganaish_intro.
  - apply make_reading_forallb; assumption.
  - destruct (make_reading_has_reading before after t h) as [x [y ->]].
    apply existsb_mid. exact Hs.
Qed.

Lemma length_drop_while (p : char -> bool) (s : str) :
  length (drop_while p s) <= length s.
Proof.
  induction s as [|c s IH]; simpl; [lia|].
  destruct (p c); simpl; lia.
Qed.

Lemma length_gloss_stripped (e : str) : length (gloss_stripped e) <= length e.
Proof.
  unfold gloss_stripped, rstrip, strip, lstrip_by.
  pose proof (length_rstrip_by (fun c => existsb (N.eqb c) (u "."))
                (rstrip_by is_space (drop_while is_space e))).
  pose proof (length_rstrip_by is_space (drop_while is_space e)).
  pose proof (length_drop_while is_space e). lia.
Qed.

Lemma length_gloss_question (e : str) : length (gloss_question e) <= length e.
Proof.
  unfold gloss_question, rstrip.
  pose proof (length_rstrip_by (fun c => existsb (N.eqb c) (u "."))
                (rstrip_by (fun c => existsb (N.eqb c) (u "?")) e)).
  pose proof (length_rstrip_by (fun c => existsb (N.eqb c) (u "?")) e). lia.
Qed.

Lemma question_frames_en (fr : str * str) (e c : str) :
  In fr ex2_frames_v4 -> format (snd fr) [(u "en", e)] = Ok c ->
  c = u "Is there any impact from this change?" \/ c = [] ++ e ++ u "?".
Proof.
  intros Hin Hc.
  destruct Hin as [F | [F | [F | []]]]; subst fr; rewrite snd_pair in Hc.
  - left. apply Ok_inj. rewrite <- Hc. reflexivity.
  - right. apply Ok_inj. rewrite <- Hc.
    apply format_split; first [discriminate | vm_compute; reflexivity].
  - right. apply Ok_inj. rewrite <- Hc.
    apply format_split; first [discriminate | vm_compute; reflexivity].
Qed.

Lemma length_question_en (c : str) : length (question_en c) <= length c + 1.
Proof.
  unfold question_en. destruct (negb _); [|lia].
  rewrite length_app. simpl. lia.
Qed.

(** ** C9: synthesized examples and the validation predicate *)

Lemma stripped_fit : forallb lit_fits (lits_of ex2_frames_stripped) = true.
Proof. vm_compute. reflexivity. Qed.

Lemma raw_fit : forallb lit_fits (lits_of ex2_frames_raw) = true.
Proof. vm_compute. reflexivity. Qed.

Lemma specials_accepted :
  forallb (fun kv : str * triple => accepted (snd kv) (fst kv)) specials = true.
Proof. vm_compute. reflexivity. Qed.

Lemma rendered_accepted (q : lits) (t h e : str) :
  lit_fits q = true ->
  forallb kana_class h = true ->
  existsb (fun c => negb (is_space c)) h = true ->
  length t <= 120 -> length e <= 163 ->
  validate_example2
    (mkExample2 (render_jp q t) (make_reading (render_jp q t) t h) (render_en q e)) t
  = None.
Proof.
  unfold lit_fits. intros Hq Hh Hs Ht He.
  apply andb_true_iff in Hq. destruct Hq as [Hq Hen].
  apply andb_true_iff in Hq. destruct Hq as [Hq Hjp].
  apply andb_true_iff in Hq. destruct Hq as [Hb Ha].
  apply Nat.leb_le in Hen, Hjp. unfold jp_lit in Hjp. unfold en_lit in Hen.
  rewrite length_app in Hjp, Hen.
  apply validate_intro.
  - apply str_contains_mid.
  - apply reading_hiraganaish; assumption.
  - unfold render_jp. rewrite !length_app. lia.
  - unfold render_en. rewrite !length_app. lia.
Qed.

Lemma question_lits_class (before after after' : str) :
  In (before, after) question_lits -> after' = [] \/ after' = u "？" ->
  forallb kana_class before = true /\ forallb kana_class after' = true
  /\ length before <= 10 /\ length after' <= 1.
Proof.
  intros Hin Ha.
  destruct Hin as [F | [F | [F | []]]]; injection F as <- <-;
    destruct Ha as [-> | ->];
    (split; [|split; [|split]]);
    first [vm_compute; reflexivity | apply Nat.leb_le; vm_compute; reflexivity].
Qed.

Lemma ex2_out_accepted (r : Row) (out : triple) :
  ex2_out r out ->
  is_hiraganaish (hiragana r) = true ->
  forallb kana_class (hiragana r) = true ->
  str_contains (u "〜") (japanese r) = false ->
  (reaches_question r = true -> endswith (japanese r) (u "。") = false) ->
  length (japanese r) <= 120 -> length (english r) <= 163 ->
  validate_example2
    (mkExample2 (fst (fst out)) (snd (fst out)) (snd out)) (japanese r) = None.
Proof.
  intros H Hh Hclass Hno Hstop Hlt Hle.
  pose proof (is_hiraganaish_has_text _ Hh) as Hspace.
  destruct H as [out Hs | Ht | Ht | Ht | Ht | q2 Ht Hq2 | q2 Ht Hq2 | fr a c Hq Ht Hin Ha Hc];
    try congruence.
  - apply dict_get_in in Hs.
    pose proof specials_accepted as Hall. rewrite forallb_forall in Hall.
    specialize (Hall _ Hs). unfold accepted in Hall.
    rewrite fst_pair, snd_pair in Hall.
    destruct (validate_example2 _ _); [discriminate Hall | reflexivity].
  - rewrite !fst_pair, !snd_pair. apply validate_intro.
    + exact (str_contains_mid [] (japanese r) _).
    + apply is_hiraganaish_intro.
      * rewrite forallb_app, Hclass. reflexivity.
      * rewrite existsb_app, Hspace. reflexivity.
    + rewrite length_app.
      replace (length (u "ありますか。")) with 6 by reflexivity. lia.
    + apply Nat.leb_le. vm_compute. reflexivity.
  - pose proof stripped_fit as Hall. rewrite forallb_forall in Hall.
    unfold rendered. rewrite !fst_pair, !snd_pair.
    apply rendered_accepted; auto.
    pose proof (length_gloss_stripped (english r)). lia.
  - pose proof raw_fit as Hall. rewrite forallb_forall in Hall.
    unfold rendered. rewrite !fst_pair, !snd_pair.
    apply rendered_accepted; auto.
  - rewrite !fst_pair, !snd_pair.
    destruct (question_frames_jp fr _ a Hin Ha) as [P [S [Hl ->]]].
    destruct (question_jp_shape P S _ Hl (Hstop Hq)) as [S' [-> HS']].
    destruct (question_lits_class P S S' Hl HS') as [HP [HS [LP LS]]].
    apply validate_intro.
    + apply str_contains_mid.
    + apply reading_hiraganaish; assumption.
    + rewrite !length_app. lia.
    + pose proof (length_gloss_question (english r)) as Lg.
      destruct (question_frames_en fr _ c Hin Hc) as [-> | ->].
      * pose proof (length_question_en (u "Is there any impact from this change?")) as Lq.
        replace (length (u "Is there any impact from this change?")) with 37 in Lq
          by reflexivity.
        lia.
      * rewrite app_nil_l.
        pose proof (length_question_en (gloss_question (english r) ++ u "?")) as Lq.
        rewrite length_app in Lq.
        replace (length (u "?")) with 1 in Lq by reflexivity. lia.
Qed.

(** C9, as amended.  For a record of encodable text with non-empty term
    and gloss, whose reading is accepted by [is_hiraganaish] and made of
    code points of the class of the pattern, whose term has no placeholder
    and at most 120 code points, whose gloss has at most 163 code points,
    and which does not reach the question branch with a term that ends in
    a full stop: [make_example2] returns a triple that [validate_example2]
    accepts. *)
Theorem synthesized_example_validates (r : Row) :
  text_row r = true ->
  japanese r <> [] -> english r <> [] ->
  is_hiraganaish (hiragana r) = true ->
  forallb kana_class (hiragana r) = true ->
  str_contains (u "〜") (japanese r) = false ->
  (reaches_question r = true -> endswith (japanese r) (u "。") = false) ->
  length (japanese r) <= 120 -> length (english r) <= 163 ->
  exists ex_jp ex_hira ex_en,
    make_example2 r = Ok (ex_jp, ex_hira, ex_en)
    /\ validate_example2 (mkExample2 ex_jp ex_hira ex_en) (japanese r) = None.
Proof.
  intros Ht _ _ Hh Hclass Hno Hstop Hlt Hle.
  destruct (make_example2_ok r Ht) as [[[a b] c] H].
  exists a, b, c. split; [exact H|].
  apply make_example2_out in H.
  exact (ex2_out_accepted r (a, b, c) H Hh Hclass Hno Hstop Hlt Hle).
Qed.

Lemma synthesized_example_validates_witness :
  exists ex_jp ex_hira ex_en,
    make_example2 row_agreed = Ok (ex_jp, ex_hira, ex_en)
    /\ validate_example2 (mkExample2 ex_jp ex_hira ex_en) (japanese row_agreed)
       = None.
Proof.
  apply (synthesized_example_validates row_agreed);
    first [ discriminate | vm_compute; first [reflexivity | lia] ].
Defined.

(** C9 as stated fails: each of these records has non-empty term, reading
    and gloss and a reading that [is_hiraganaish] accepts, and
    [validate_example2] rejects the example that [make_example2] returns
    (the term with a placeholder is not in the sentence; the sentence of a
    long term and the English of a long gloss are too long; the tabulation
    at the end of the reading, which is not of the class, ends up inside
    the sentence's reading; the question branch takes the full stop of the
    term away). *)
Lemma synthesized_example_rejected :
  (is_hiraganaish (hiragana row_about) = true
   /\ make_example2 row_about
      = Ok (u "この点について。", u "このてんについて。", u "Example: about ...")
   /\ validation_of row_about
      = Some (Some (u "example.jp does not contain the target term exactly")))
  /\ (is_hiraganaish (hiragana row_long_term) = true
      /\ validation_of row_long_term = Some (Some (u "example.jp seems too long")))
  /\ (is_hiraganaish (hiragana row_long_gloss) = true
      /\ validation_of row_long_gloss = Some (Some (u "example.en seems too long")))
  /\ (is_hiraganaish (hiragana row_tab) = true
      /\ forallb kana_class (hiragana row_tab) = false
      /\ validation_of row_tab
         = Some (Some (u "example.hiragana contains non-hiragana/katakana characters (likely kanji)")))
  /\ (is_hiraganaish (hiragana row_full_stop) = true
      /\ reaches_question row_full_stop = true
      /\ validation_of row_full_stop
         = Some (Some (u "example.jp does not contain the target term exactly"))).
Proof.
  split; [split; [|split]; vm_compute; reflexivity|].
  split; [split; vm_compute; reflexivity|].
  split; [split; vm_compute; reflexivity|].
  split; (split; [|split]); vm_compute; reflexivity.
Qed.

(** ** C4: the term in the synthesized sentence *)

(** [make_example3] always keeps the term. *)
Lemma term_kept_example3 (r : Row) (out : triple) :
  make_example3 r = Ok out ->
  str_contains (japanese r) (fst (fst out)) = true.
Proof.
  intros H. apply make_example3_out in H. destruct H as [q [_ ->]].
  unfold rendered. rewrite !fst_pair. apply str_contains_mid.
Qed.

(** [make_example2] keeps a term without placeholder when the term does
    not end in a full stop. *)
Lemma term_kept_example2 (r : Row) (out : triple) :
  make_example2 r = Ok out ->
  str_contains (u "〜") (japanese r) = false ->
  endswith (japanese r) (u "。") = false ->
  str_contains (japanese r) (fst (fst out)) = true.
Proof.
  intros H. apply make_example2_out in H. apply ex2_out_contains. exact H.
Qed.

(** C4.  The term 問題ありませんか。 has no placeholder, and the sentence
    that [make_example2] returns for it does not contain it: the question
    branch strips the full stop of the term together with that of the
    frame, and the reading is lost with it. *)
Theorem term_lost_with_full_stop :
  str_contains (u "〜") (japanese row_full_stop) = false
  /\ reaches_question row_full_stop = true
  /\ make_example2 row_full_stop
     = Ok (u "このへんこうで問題ありませんか？", [],
           u "Is there any impact from this change?")
  /\ str_contains (japanese row_full_stop) (u "このへんこうで問題ありませんか？")
     = false.
Proof.
  split; [vm_compute; reflexivity|].
  split; [vm_compute; reflexivity|].
  split; vm_compute; reflexivity.
Qed.

(** ** C6: both generators return three non-empty fields *)














(** * Further properties of the code *)

(** ** White space *)

Lemma drop_while_app_all (p : char -> bool) (a x : str) :
  forallb p a = true -> drop_while p (a ++ x) = drop_while p x.
Proof.
  induction a as [|c a IH]; simpl; [reflexivity|].
  intros H. apply andb_true_iff in H. destruct H as [Hc Ha].
  rewrite Hc. exact (IH Ha).
Qed.

Lemma drop_while_app_stop (p : char -> bool) (x b : str) :
  existsb (fun c => negb (p c)) x = true ->
  drop_while p (x ++ b) = drop_while p x ++ b.
Proof.
  induction x as [|c x IH]; simpl; [discriminate|].
  destruct (p c); simpl; [exact IH | reflexivity].
Qed.

Lemma drop_while_all (p : char -> bool) (x : str) :
  forallb p x = true -> drop_while p x = [].
Proof.
  induction x as [|c x IH]; simpl; [reflexivity|].
  intros H. apply andb_true_iff in H. destruct H as [Hc Hx].
  rewrite Hc. exact (IH Hx).
Qed.

Lemma not_existsb_forallb (p : char -> bool) (x : str) :
  existsb (fun c => negb (p c)) x = false -> forallb p x = true.
Proof.
  induction x as [|c x IH]; simpl; [reflexivity|].
  intros H. apply orb_false_iff in H. destruct H as [Hc Hx].
  apply negb_false_iff in Hc. rewrite Hc. exact (IH Hx).
Qed.

(** White space around a text does not change what [strip] returns. *)
Lemma strip_surrounded (a s b : str) :
  forallb is_space a = true -> forallb is_space b = true ->
  strip (a ++ s ++ b) = strip s.
Proof.
  intros Ha Hb. unfold strip, lstrip_by, rstrip_by.
  rewrite (drop_while_app_all _ _ _ Ha).
  destruct (existsb (fun c => negb (is_space c)) s) eqn:E.
  - rewrite (drop_while_app_stop _ _ _ E), rev_app_distr.
    rewrite drop_while_app_all; [reflexivity|].
    rewrite forallb_rev. exact Hb.
  - apply not_existsb_forallb in E.
    rewrite (drop_while_all _ s E).
    rewrite (drop_while_all _ (s ++ b)); [reflexivity|].
    rewrite forallb_app, E, Hb. reflexivity.
Qed.

(** A text is its stripped text between two runs of white space. *)
Lemma strip_decompose (s : str) :
  exists a b, s = a ++ strip s ++ b
              /\ forallb is_space a = true /\ forallb is_space b = true.
Proof.
  destruct (drop_while_suffix is_space s) as [a [Ha Hsa]].
  destruct (rstrip_by_prefix is_space (drop_while is_space s)) as [b [Hb Hsb]].
  exists a, b. split; [|split; assumption].
  unfold strip, lstrip_by. rewrite <- Hb. exact Ha.
Qed.

Lemma strip_idem (s : str) : strip (strip s) = strip s.
Proof.
  destruct (strip_decompose s) as [a [b [E [Ha Hb]]]].
  rewrite E at 2. symmetry. exact (strip_surrounded a (strip s) b Ha Hb).
Qed.

Lemma strip_nil : strip [] = [].
Proof. reflexivity. Qed.

Lemma strip_in (s : str) (c : char) :
  In c s -> is_space c = false -> In c (strip s).
Proof.
  intros Hin Hc. destruct (strip_decompose s) as [a [b [E [Ha Hb]]]].
  rewrite E in Hin. apply in_app_or in Hin. destruct Hin as [Hin | Hin].
  { rewrite forallb_forall in Ha. rewrite (Ha c Hin) in Hc. discriminate. }
  apply in_app_or in Hin. destruct Hin as [Hin | Hin]; [exact Hin|].
  rewrite forallb_forall in Hb. rewrite (Hb c Hin) in Hc. discriminate.
Qed.

Lemma strip_encodable (s : str) :
  encodable s = true -> encodable (strip s) = true.
Proof. apply strip_forallb. Qed.

(** ** The validation predicate, continued *)

Lemma is_hiraganaish_strip (text : str) :
  is_hiraganaish (strip text) = is_hiraganaish text.
Proof. unfold is_hiraganaish. rewrite strip_idem. reflexivity. Qed.

Lemma is_hiraganaish_iff (text : str) :
  is_hiraganaish text = true
  <-> strip text <> [] /\ forallb kana_class (strip text) = true.
Proof.
  split.
  - intros H. rewrite <- is_hiraganaish_strip in H.
    destruct (is_hiraganaish_stripped (strip text) H (strip_idem text))
      as [Hc He].
    split; [|exact Hc].
    intros E. rewrite E in He. discriminate He.
  - intros [Hne Hc]. rewrite <- is_hiraganaish_strip.
    apply is_hiraganaish_intro; [exact Hc|].
    apply strip_nonempty_inv. rewrite strip_idem. exact Hne.
Qed.

(** X1.  [is_hiraganaish] accepts exactly the texts made of white space, a run
    of code points of the class of which one at least is not white space,
    and white space again: the text is stripped before it is matched, so
    that the line feed that $ tolerates at the end never comes into play. *)
Theorem is_hiraganaish_shape (text : str) :
  is_hiraganaish text = true
  <-> exists a t b,
        text = a ++ t ++ b
        /\ forallb is_space a = true /\ forallb is_space b = true
        /\ forallb kana_class t = true
        /\ existsb (fun c => negb (is_space c)) t = true.
Proof.
  rewrite is_hiraganaish_iff. split.
  - intros [Hne Hc].
    destruct (strip_decompose text) as [a [b [E [Ha Hb]]]].
    exists a, (strip text), b. repeat split; try assumption.
    apply strip_nonempty_inv. rewrite strip_idem. exact Hne.
  - intros [a [t [b [-> [Ha [Hb [Hc Hs]]]]]]].
    rewrite (strip_surrounded a t b Ha Hb). split.
    + exact (strip_nonempty t Hs).
    + exact (strip_forallb kana_class t Hc).
Qed.

(** X2.  A text with a code point that is neither white space nor in the class
    of the pattern (any kanji, for one) is rejected, wherever the code
    point stands. *)
Theorem is_hiraganaish_rejects (text : str) (c : char) :
  In c text -> is_space c = false -> kana_class c = false ->
  is_hiraganaish text = false.
Proof.
  intros Hin Hs Hk. destruct (is_hiraganaish text) eqn:E; [|reflexivity].
  apply is_hiraganaish_iff in E. destruct E as [_ Hc].
  rewrite forallb_forall in Hc.
  rewrite (Hc c (strip_in text c Hin Hs)) in Hk. discriminate Hk.
Qed.

Lemma is_hiraganaish_rejects_witness :
  is_hiraganaish (u "かん字です") = false.
Proof.
  apply (is_hiraganaish_rejects (u "かん字です") 0x5B57%N).
  - simpl. tauto.
  - reflexivity.
  - reflexivity.
Defined.

(** X3.  [validate_example2] returns no error exactly when the sentence
    contains the term, the reading without its surrounding white space is
    a non-empty run of code points of the class, the sentence has at most
    140 code points and the translation at most 200. *)
Theorem validate_example2_accepts_iff (example : Example2) (japanese : str) :
  validate_example2 example japanese = None
  <-> occurs japanese (jp example)
      /\ strip (hira example) <> []
      /\ forallb kana_class (strip (hira example)) = true
      /\ length (jp example) <= 140
      /\ length (en example) <= 200.
Proof.
  unfold validate_example2, len.
  rewrite <- str_contains_iff.
  destruct (str_contains japanese (jp example)); cbn [negb];
    [|split; [discriminate | intros [H _]; discriminate H]].
  destruct (is_hiraganaish (hira example)) eqn:Eh; cbn [negb].
  - apply is_hiraganaish_iff in Eh. destruct Eh as [Hne Hc].
    destruct (Z.gtb_spec (Z.of_nat (length (jp example))) 140) as [Hj|Hj];
      [split; [discriminate | intros [_ [_ [_ [H _]]]]; lia]|].
    destruct (Z.gtb_spec (Z.of_nat (length (en example))) 200) as [He|He];
      [split; [discriminate | intros [_ [_ [_ [_ H]]]]; lia]|].
    split; [|reflexivity]. intros _.
    split; [reflexivity|]. split; [exact Hne|]. split; [exact Hc|]. lia.
  - split; [discriminate|]. intros [_ [Hne [Hc _]]].
    assert (is_hiraganaish (hira example) = true) as E
        by (apply is_hiraganaish_iff; split; assumption).
    rewrite E in Eh. discriminate Eh.
Qed.

(** ** Keys and seeds *)

Lemma digest_length (msg : bytes) : length (Sha256.digest msg) = 32.
Proof.
  unfold Sha256.digest. cbv zeta.
  generalize (fold_left Sha256.compress
                (Sha256.blocks
                   (length (Sha256.be_words (length (Sha256.pad msg))
                                            (Sha256.pad msg)))
                   (Sha256.be_words (length (Sha256.pad msg)) (Sha256.pad msg)))
                Sha256.initial).
  intros st. reflexivity.
Qed.

Lemma digest_bytes (msg : bytes) :
  Forall (fun b => (b < 256)%N) (Sha256.digest msg).
Proof.
  unfold Sha256.digest. cbv zeta.
  generalize (fold_left Sha256.compress
                (Sha256.blocks
                   (length (Sha256.be_words (length (Sha256.pad msg))
                                            (Sha256.pad msg)))
                   (Sha256.be_words (length (Sha256.pad msg)) (Sha256.pad msg)))
                Sha256.initial).
  intros st. unfold Sha256.digest_of.
  repeat (apply Forall_app; split); apply word_bytes_bound.
Qed.

Lemma hex_char_lower (d : N) : (d < 16)%N -> hex_lower (hex_char d) = true.
Proof.
  intros H. unfold hex_char, hex_lower.
  destruct (N.ltb_spec d 10).
  - apply orb_true_iff. left. apply andb_true_iff.
    split; apply N.leb_le; lia.
  - apply orb_true_iff. right. apply andb_true_iff.
    split; apply N.leb_le; lia.
Qed.

Lemma hexdigest_str_lower (b : bytes) :
  Forall (fun x => (x < 256)%N) b -> forallb hex_lower (hexdigest_str b) = true.
Proof.
  induction 1 as [|x b Hx Hb IH]; [reflexivity|].
  unfold hexdigest_str. cbn [flat_map app forallb].
  fold (hexdigest_str b). rewrite IH.
  rewrite !hex_char_lower; [reflexivity | |].
  - apply N.mod_lt. discriminate.
  - apply N.Div0.div_lt_upper_bound. exact Hx.
Qed.

Lemma hexdigest_str_length (b : bytes) :
  length (hexdigest_str b) = 2 * length b.
Proof.
  induction b as [|x b IH]; [reflexivity|].
  unfold hexdigest_str. cbn [flat_map app length].
  fold (hexdigest_str b). rewrite IH. lia.
Qed.

(** A slice [s[:n]] keeps a property of all the code points of [s]. *)
Lemma slice_forallb (q : char -> bool) (s : str) (n : nat) :
  forallb q s = true -> forallb q (firstn n s) = true.
Proof.
  revert s. induction n as [|n IH]; intros [|c s]; simpl; try reflexivity.
  intros H. apply andb_true_iff in H. destruct H as [-> H].
  exact (IH s H).
Qed.

Example stable_key_value :
  stable_key (u "03_tech_verbs") (u "確認します") (u "かくにんします")
             (u "to confirm")
  = Ok (u "010a736360423d60").
Proof. vm_compute. reflexivity. Qed.

(** X4.  The key of a card is a string of 16 lower-case hexadecimal digits
    whenever the four fields are text that can be encoded, and the call
    raises [UnicodeEncodeError] otherwise. *)
Theorem stable_key_format (deck japanese hiragana english : str) :
  (text4 deck japanese hiragana english = true ->
   exists key, stable_key deck japanese hiragana english = Ok key
               /\ length key = 16 /\ forallb hex_lower key = true)
  /\ (text4 deck japanese hiragana english = false ->
      stable_key deck japanese hiragana english = Raise UnicodeEncodeError).
Proof.
  assert (E : encodable (deck ++ u "|" ++ japanese ++ u "|" ++ hiragana
                         ++ u "|" ++ english)
              = text4 deck japanese hiragana english).
  { unfold text4. rewrite !encodable_app.
    change (encodable (u "|")) with true.
    cbn [andb]. rewrite !andb_assoc. reflexivity. }
  unfold stable_key. split; intros H; rewrite H in E.
  - destruct (encode_utf8_ok _ E) as [raw Hraw].
    exists (firstn 16 (hexdigest_str (Sha256.digest raw))).
    rewrite Hraw. cbn [bind]. split; [reflexivity|]. split.
    + rewrite length_firstn, hexdigest_str_length, digest_length. reflexivity.
    + apply slice_forallb, hexdigest_str_lower, digest_bytes.
  - rewrite (encode_utf8_raises _ E). reflexivity.
Qed.

Lemma stable_key_format_witness :
  exists key,
    stable_key (u "03_tech_verbs") (u "確認します") (u "かくにんします")
               (u "to confirm") = Ok key
    /\ length key = 16 /\ forallb hex_lower key = true.
Proof.
  apply (stable_key_format (u "03_tech_verbs") (u "確認します")
                           (u "かくにんします") (u "to confirm")).
  reflexivity.
Defined.

(** X5.  The separator of the fields is not escaped: a separator moved from the
    end of the deck name to the head of the term gives the same key, so two
    different cards can share one. *)
Theorem stable_key_separator (deck x japanese hiragana english : str) :
  stable_key (deck ++ u "|" ++ x) japanese hiragana english
  = stable_key deck (x ++ u "|" ++ japanese) hiragana english.
Proof.
  unfold stable_key. rewrite <- !app_assoc. reflexivity.
Qed.

(** X6.  The edges of [_pick_index]: a seed with a lone surrogate raises
    [UnicodeEncodeError] whatever [n] is; otherwise [n = 0] raises
    [ZeroDivisionError], and a negative [n] gives an index in (n, 0]. *)
Theorem pick_index_edges (seed : str) (n : Z) :
  (encodable seed = false -> _pick_index seed n = Raise UnicodeEncodeError)
  /\ (encodable seed = true -> n = 0%Z ->
      _pick_index seed n = Raise ZeroDivisionError)
  /\ (encodable seed = true -> (n < 0)%Z ->
      exists i, _pick_index seed n = Ok i /\ (n < i <= 0)%Z).
Proof.
  unfold _pick_index. split; [|split].
  - intros H. rewrite (encode_utf8_raises seed H). reflexivity.
  - intros H ->. destruct (encode_utf8_ok seed H) as [raw ->]. reflexivity.
  - intros H Hn. destruct (encode_utf8_ok seed H) as [raw Hraw].
    rewrite Hraw. cbn [bind].
    unfold py_mod. destruct (Z.eqb_spec n 0); [lia|].
    eexists. split; [reflexivity|].
    apply Z.mod_neg_bound. exact Hn.
Qed.

Lemma pick_index_edges_witness :
  _pick_index [0xD800%N] 0 = Raise UnicodeEncodeError
  /\ _pick_index (u "abc") 0 = Raise ZeroDivisionError
  /\ exists i, _pick_index (u "abc") (-4) = Ok i /\ (-4 < i <= 0)%Z.
Proof.
  split; [|split].
  - apply (proj1 (pick_index_edges [0xD800%N] 0)). reflexivity.
  - apply (proj1 (proj2 (pick_index_edges (u "abc") 0))); reflexivity.
  - apply (proj2 (proj2 (pick_index_edges (u "abc") (-4)))); [reflexivity | lia].
Defined.

(** ** The generators, continued *)

Lemma replaced_all_same (old s out : str) :
  replaced_all old old s out -> out = s.
Proof.
  induction 1 as [s Hne Hno | pre rest out Hne Hl Hr IH | He | c s out He Hr IH].
  - reflexivity.
  - rewrite IH. reflexivity.
  - exact He.
  - rewrite He, IH. reflexivity.
Qed.

(** X7.  When the reading is the term itself (a term written in kana), the
    reading of a sentence that contains the term is the sentence. *)
Theorem make_reading_same (sentence_jp term : str) :
  str_contains term sentence_jp = true ->
  make_reading sentence_jp term term = sentence_jp.
Proof.
  intros H. unfold make_reading. rewrite H.
  apply (replaced_all_same term).
  apply str_replace_replaced_all.
Qed.

Lemma make_reading_same_witness :
  make_reading (u "いったん、ここで止めます。") (u "いったん") (u "いったん")
  = u "いったん、ここで止めます。".
Proof.
  apply (make_reading_same (u "いったん、ここで止めます。") (u "いったん")).
  reflexivity.
Defined.

Lemma occurs_mid (a sub b : str) : occurs sub (a ++ sub ++ b).
Proof. exists a, b. reflexivity. Qed.

(** X8.  Whatever the record, an example that [make_example3] returns keeps
    the three texts of the card: the sentence contains the term, the
    reading of the sentence contains the reading, and the translation
    contains the gloss without its surrounding white space and final full
    stops. *)
Theorem example3_keeps_card (r : Row) (out : triple) :
  make_example3 r = Ok out ->
  occurs (japanese r) (fst (fst out))
  /\ occurs (hiragana r) (snd (fst out))
  /\ occurs (rstrip (strip (english r)) (u ".")) (snd out).
Proof.
  intros H. apply make_example3_out in H. destruct H as [q [_ ->]].
  unfold rendered. rewrite !fst_pair, !snd_pair.
  split; [apply occurs_mid|]. split; [|apply occurs_mid].
  unfold render_jp. apply make_reading_has_reading.
Qed.

Lemma example3_keeps_card_witness :
  exists out,
    make_example3 row_confirm = Ok out
    /\ occurs (japanese row_confirm) (fst (fst out))
    /\ occurs (hiragana row_confirm) (snd (fst out))
    /\ occurs (rstrip (strip (english row_confirm)) (u ".")) (snd out).
Proof.
  eexists. split; [vm_compute; reflexivity|].
  apply (example3_keeps_card row_confirm). vm_compute. reflexivity.
Defined.

(** X9.  On a card written in kana (the reading is the term), the reading that
    [make_example3] returns is the sentence itself. *)
Theorem example3_kana_reading (r : Row) (out : triple) :
  hiragana r = japanese r ->
  make_example3 r = Ok out -> snd (fst out) = fst (fst out).
Proof.
  intros Hk H. apply make_example3_out in H. destruct H as [q [_ ->]].
  unfold rendered. rewrite fst_pair, snd_pair, fst_pair.
  rewrite Hk. unfold render_jp. rewrite make_reading_mid.
  apply (replaced_all_same (japanese r)).
  apply str_replace_replaced_all.
Qed.

Lemma example3_kana_reading_witness :
  exists out, make_example3 row_kana = Ok out /\ snd (fst out) = fst (fst out).
Proof.
  eexists. split; [vm_compute; reflexivity|].
  apply (example3_kana_reading row_kana); vm_compute; reflexivity.
Defined.

(** *** Where [make_example2] loses the term *)

Lemma rendered_contains (q : lits) (t h e : str) :
  str_contains t (fst (fst (rendered q t h e))) = true.
Proof.
  unfold rendered. rewrite !fst_pair. apply str_contains_mid.
Qed.

(** Outside the question branch the sentence of [make_example2] contains
    a term without placeholder. *)
Lemma example2_kept_elsewhere (r : Row) (out : triple) :
  make_example2 r = Ok out ->
  str_contains (u "〜") (japanese r) = false ->
  reaches_question r = false ->
  str_contains (japanese r) (fst (fst out)) = true.
Proof.
  intros H Hno Hq. revert H. rewrite make_example2_eq. cbv zeta. rewrite Hno.
  unfold reaches_question in Hq. rewrite Hno in Hq. revert Hq.
  destruct (dict_mem specials (japanese r)).
  { intros _ H. apply dict_getitem_mem, dict_get_in in H.
    pose proof specials_contain as Hall. rewrite forallb_forall in Hall.
    exact (Hall _ H). }
  destruct (endswith (japanese r) (u "は") && _).
  { intros _ H. apply Ok_inj in H. subst out. rewrite !fst_pair.
    exact (str_contains_mid [] (japanese r) _). }
  destruct (endswith (japanese r) (u "します")).
  { intros _ H.
    apply (fill_rendered _ _ _ _ _ _
             (frames_all_incl _ _ _ ltac:(incl_here) frames_all_ex2_stripped))
      in H.
    destruct H as [q [_ ->]]. apply rendered_contains. }
  destruct (endswith (japanese r) (u "ください")).
  { intros _ H.
    apply (fill_rendered _ _ _ _ _ _
             (frames_all_incl _ _ _ ltac:(incl_next; incl_here)
                              frames_all_ex2_stripped)) in H.
    destruct H as [q [_ ->]]. apply rendered_contains. }
  destruct (endswith (deck r) (u "meeting_phrases") && _).
  { intros _ H.
    apply (fill_rendered _ _ _ _ _ _
             (frames_all_incl _ _ _ ltac:(incl_next; incl_next; apply incl_refl)
                              frames_all_ex2_stripped)) in H.
    destruct H as [q [_ ->]]. apply rendered_contains. }
  destruct (endswith (japanese r) (u "か") || _).
  { intros Hq. discriminate Hq. }
  destruct (endswith (japanese r) (u "です")).
  { intros _ H.
    apply (fill_rendered _ _ _ _ _ _
             (frames_all_incl _ _ _ ltac:(incl_here) frames_all_ex2_raw)) in H.
    destruct H as [q [_ ->]]. apply rendered_contains. }
  destruct (endswith (deck r) (u "meeting_phrases")).
  { intros _ H.
    apply (fill_rendered _ _ _ _ _ _
             (frames_all_incl _ _ _ ltac:(incl_next; incl_here)
                              frames_all_ex2_raw)) in H.
    destruct H as [q [_ ->]]. apply rendered_contains. }
  intros _ H.
  apply (fill_rendered _ _ _ _ _ _
           (frames_all_incl _ _ _ ltac:(incl_next; incl_next; apply incl_refl)
                            frames_all_ex2_raw)) in H.
  destruct H as [q [_ ->]]. apply rendered_contains.
Qed.

(** X10.  For a term without placeholder, the sentence that [make_example2]
    returns lacks the term in one case and no other: the record reaches
    the question branch and its term ends in a full stop. *)
Theorem example2_loses_term_iff (r : Row) (out : triple) :
  make_example2 r = Ok out ->
  str_contains (u "〜") (japanese r) = false ->
  str_contains (japanese r) (fst (fst out)) = false
  <-> reaches_question r = true /\ endswith (japanese r) (u "。") = true.
Proof.
  intros H Hno. split.
  - intros Hlost. split.
    + destruct (reaches_question r) eqn:Eq; [reflexivity|].
      rewrite (example2_kept_elsewhere r out H Hno Eq) in Hlost.
      discriminate Hlost.
    + destruct (endswith (japanese r) (u "。")) eqn:Es; [reflexivity|].
      rewrite (ex2_out_contains r out (make_example2_out r out H) Hno Es)
        in Hlost.
      discriminate Hlost.
  - intros [Hq Hs]. rewrite (reaches_question_eq r Hq) in H.
    apply fill_question_inv in H.
    destruct H as [fr [a [c [Hin [Ha [_ ->]]]]]].
    destruct (question_frames_jp fr (japanese r) a Hin Ha)
      as [before [after [Hl ->]]].
    rewrite !fst_pair.
    exact (question_jp_loses_term before after (japanese r) Hl Hs).
Qed.

Lemma example2_loses_term_iff_witness :
  str_contains (japanese row_full_stop)
               (u "このへんこうで問題ありませんか？") = false
  <-> reaches_question row_full_stop = true
      /\ endswith (japanese row_full_stop) (u "。") = true.
Proof.
  apply (example2_loses_term_iff row_full_stop
           (u "このへんこうで問題ありませんか？", [],
            u "Is there any impact from this change?"));
    vm_compute; reflexivity.
Defined.

(** *** Example 3 and the validation predicate *)

Lemma ex3_within : forallb (lit_within 22 46) (lits_of ex3_frames_all) = true.
Proof. vm_compute. reflexivity. Qed.

Lemma rendered_within (j e : nat) (q : lits) (t h g : str) :
  lit_within j e q = true ->
  forallb kana_class h = true ->
  existsb (fun c => negb (is_space c)) h = true ->
  length t + j <= 140 -> length g + e <= 200 ->
  validate_example2
    (mkExample2 (render_jp q t) (make_reading (render_jp q t) t h) (render_en q g)) t
  = None.
Proof.
  unfold lit_within. intros Hq Hh Hs Ht Hg.
  apply andb_true_iff in Hq. destruct Hq as [Hq Hen].
  apply andb_true_iff in Hq. destruct Hq as [Hq Hjp].
  apply andb_true_iff in Hq. destruct Hq as [Hb Ha].
  apply Nat.leb_le in Hen, Hjp. unfold jp_lit in Hjp. unfold en_lit in Hen.
  rewrite length_app in Hjp, Hen.
  apply validate_intro.
  - apply str_contains_mid.
  - apply reading_hiraganaish; assumption.
  - unfold render_jp. rewrite !length_app. lia.
  - unfold render_en. rewrite !length_app. lia.
Qed.

(** X11.  [validate_example2] accepts what [make_example3] returns for a record
    of encodable text whose reading is stripped and accepted by
    [is_hiraganaish], whose term has at most 118 code points and whose
    gloss has at most 154; a placeholder or a full stop in the term does
    no harm here. *)
Theorem example3_validates (r : Row) :
  text_row r = true ->
  is_hiraganaish (hiragana r) = true -> strip (hiragana r) = hiragana r ->
  length (japanese r) <= 118 -> length (english r) <= 154 ->
  exists ex_jp ex_hira ex_en,
    make_example3 r = Ok (ex_jp, ex_hira, ex_en)
    /\ validate_example2 (mkExample2 ex_jp ex_hira ex_en) (japanese r) = None.
Proof.
  intros Ht Hh Hstrip Hlt Hle.
  destruct (make_example3_ok r Ht) as [[[a b] c] H].
  exists a, b, c. split; [exact H|].
  apply make_example3_out in H. destruct H as [q [Hq E]].
  unfold rendered in E. apply triple_inj in E. destruct E as [-> [-> ->]].
  destruct (is_hiraganaish_stripped (hiragana r) Hh Hstrip) as [Hc Hs].
  pose proof ex3_within as Hall. rewrite forallb_forall in Hall.
  apply (rendered_within 22 46 q); try assumption.
  - exact (Hall q Hq).
  - lia.
  - pose proof (length_gloss_stripped (english r)). lia.
Qed.

Lemma example3_validates_witness :
  exists ex_jp ex_hira ex_en,
    make_example3 row_full_stop = Ok (ex_jp, ex_hira, ex_en)
    /\ validate_example2 (mkExample2 ex_jp ex_hira ex_en)
                         (japanese row_full_stop) = None.
Proof.
  apply (example3_validates row_full_stop);
    first [ vm_compute; reflexivity | apply Nat.leb_le; vm_compute; reflexivity ].
Defined.

(** *** The placeholder *)

Lemma specials_no_placeholder :
  forallb (fun kv : str * triple =>
             Nat.eqb (cnt tilde (fst (fst (snd kv)))) 0
             && Nat.eqb (cnt tilde (snd (fst (snd kv)))) 0) specials = true.
Proof. vm_compute. reflexivity. Qed.

(** X12.  For a term with the placeholder 〜, the sentence and the reading that
    [make_example2] returns have no placeholder left, while the sentence
    that [make_example3] returns still has it. *)
Theorem placeholder_filled_or_kept (r : Row) :
  str_contains (u "〜") (japanese r) = true ->
  (forall out, make_example2 r = Ok out ->
               cnt tilde (fst (fst out)) = 0 /\ cnt tilde (snd (fst out)) = 0)
  /\ (forall out, make_example3 r = Ok out -> 1 <= cnt tilde (fst (fst out))).
Proof.
  intros Ht. split.
  - intros out H. apply make_example2_out in H.
    destruct H as [out Hs | _ | _ | _ | Hn | q Hn _ | q Hn _ | fr a c _ Hn _ _ _];
      try (rewrite Hn in Ht; discriminate Ht).
    + apply dict_get_in in Hs.
      pose proof specials_no_placeholder as Hall.
      rewrite forallb_forall in Hall. specialize (Hall _ Hs).
      apply andb_true_iff in Hall. destruct Hall as [H1 H2].
      apply Nat.eqb_eq in H1, H2. rewrite snd_pair in H1, H2. auto.
    + split; reflexivity.
    + split; reflexivity.
    + rewrite !fst_pair, !snd_pair, !cnt_app.
      unfold str_replace. rewrite u_tilde.
      rewrite !cnt_replace_single by reflexivity. split; reflexivity.
  - intros out H. apply make_example3_out in H. destruct H as [q [_ ->]].
    unfold rendered. rewrite !fst_pair. apply cnt_tilde_ex3. exact Ht.
Qed.

Lemma placeholder_filled_or_kept_witness :
  (forall out, make_example2 row_about = Ok out ->
               cnt tilde (fst (fst out)) = 0 /\ cnt tilde (snd (fst out)) = 0)
  /\ (forall out, make_example3 row_about = Ok out ->
                  1 <= cnt tilde (fst (fst out))).
Proof.
  apply (placeholder_filled_or_kept row_about). vm_compute. reflexivity.
Defined.

(** *** The exceptions of the generators *)

Lemma pick_index_raises (seed : str) (n : Z) :
  encodable seed = false -> _pick_index seed n = Raise UnicodeEncodeError.
Proof.
  intros H. unfold _pick_index. rewrite (encode_utf8_raises seed H).
  reflexivity.
Qed.

Lemma fill_raises (frames : list (str * str)) (seed t h e : str) :
  encodable seed = false -> fill frames seed t h e = Raise UnicodeEncodeError.
Proof.
  intros H. unfold fill. rewrite (pick_index_raises seed _ H). reflexivity.
Qed.

Lemma fill_question_raises (frames : list (str * str)) (seed t h e : str) :
  encodable seed = false ->
  fill_question frames seed t h e = Raise UnicodeEncodeError.
Proof.
  intros H. unfold fill_question. rewrite (pick_index_raises seed _ H).
  reflexivity.
Qed.

(** The seed of a record is encodable exactly when its four fields are. *)
Lemma seed_encodable (r : Row) (suffix : str) :
  encodable (deck r ++ u "|" ++ japanese r ++ u "|" ++ hiragana r ++ u "|"
             ++ english r ++ suffix)
  = text_row r && encodable suffix.
Proof.
  unfold text_row. rewrite !encodable_app.
  change (encodable (u "|")) with true. cbn [andb].
  rewrite !andb_assoc. reflexivity.
Qed.

Lemma seed2_encodable (r : Row) (suffix : str) :
  encodable ((deck r ++ u "|" ++ japanese r ++ u "|" ++ hiragana r ++ u "|"
              ++ english r) ++ suffix)
  = text_row r && encodable suffix.
Proof. rewrite <- seed_encodable, <- !app_assoc. reflexivity. Qed.

Lemma seed3_encodable (r : Row) (suffix : str) :
  encodable ((deck r ++ u "|" ++ japanese r ++ u "|" ++ hiragana r ++ u "|"
              ++ english r ++ u "|ex3") ++ suffix)
  = text_row r && encodable suffix.
Proof.
  rewrite <- !app_assoc. rewrite seed_encodable, encodable_app.
  reflexivity.
Qed.

Ltac raised_by_seed Ht :=
  let H := fresh "H" in
  intros H;
  first [ rewrite fill_raises in H
        | rewrite fill_question_raises in H ];
  [ injection H as <-; reflexivity
  | first [ rewrite seed2_encodable | rewrite seed3_encodable ];
    rewrite Ht; reflexivity ].

Lemma make_example2_raises (r : Row) (e : exn) :
  make_example2 r = Raise e -> e = UnicodeEncodeError /\ text_row r = false.
Proof.
  destruct (text_row r) eqn:Ht.
  { intros H. destruct (make_example2_ok r Ht) as [out E]. congruence. }
  intros H. split; [|reflexivity]. revert H.
  rewrite make_example2_eq. cbv zeta.
  unfold dict_mem, dict_getitem.
  destruct (dict_get specials (japanese r)); [discriminate|].
  destruct (str_contains (u "〜") (japanese r)).
  { destruct (str_contains (u "よろしいでしょうか") (japanese r));
      [discriminate|].
    destruct (str_contains (u "という認識です") (japanese r)); discriminate. }
  destruct (endswith (japanese r) (u "は") && _); [discriminate|].
  destruct (endswith (japanese r) (u "します")); [raised_by_seed Ht|].
  destruct (endswith (japanese r) (u "ください")); [raised_by_seed Ht|].
  destruct (endswith (deck r) (u "meeting_phrases") && _);
    [raised_by_seed Ht|].
  destruct (endswith (japanese r) (u "か") || _); [raised_by_seed Ht|].
  destruct (endswith (japanese r) (u "です")); [raised_by_seed Ht|].
  destruct (endswith (deck r) (u "meeting_phrases")); raised_by_seed Ht.
Qed.

Lemma make_example3_raises (r : Row) (e : exn) :
  make_example3 r = Raise e -> e = UnicodeEncodeError /\ text_row r = false.
Proof.
  destruct (text_row r) eqn:Ht.
  { intros H. destruct (make_example3_ok r Ht) as [out E]. congruence. }
  intros H. split; [|reflexivity]. revert H.
  rewrite make_example3_eq. cbv zeta.
  destruct (endswith (deck r) (u "meeting_phrases") && _);
    [raised_by_seed Ht|].
  destruct (endswith (japanese r) (u "ください")); [raised_by_seed Ht|].
  destruct (endswith (japanese r) (u "します")); [raised_by_seed Ht|].
  destruct (endswith (deck r) (u "meeting_phrases")).
  { destruct (str_eqb (japanese r) (u "念のため")); raised_by_seed Ht. }
  raised_by_seed Ht.
Qed.

(** X13.  The only exception that [make_example2] and [make_example3] raise is
    [UnicodeEncodeError], and they raise it only for a record with a lone
    surrogate in its deck, term, reading or gloss: no template is
    malformed, no index is out of range, no key is missing. *)
Theorem generators_raise_encode_error (r : Row) (e : exn) :
  make_example2 r = Raise e \/ make_example3 r = Raise e ->
  e = UnicodeEncodeError /\ text_row r = false.
Proof.
  intros [H | H].
  - exact (make_example2_raises r e H).
  - exact (make_example3_raises r e H).
Qed.

Lemma generators_raise_encode_error_witness :
  UnicodeEncodeError = UnicodeEncodeError /\ text_row row_surrogate = false.
Proof.
  apply (generators_raise_encode_error row_surrogate UnicodeEncodeError).
  left. vm_compute. reflexivity.
Defined.

(** *** The examples of encodable cards are encodable *)

Lemma rstrip_by_forallb (q p : char -> bool) (s : str) :
  forallb q s = true -> forallb q (rstrip_by p s) = true.
Proof.
  intros H. destruct (rstrip_by_prefix p s) as [b [E _]].
  rewrite E, forallb_app in H. apply andb_true_iff in H. tauto.
Qed.

Lemma make_reading_all (q : char -> bool) (s t h : str) :
  forallb q s = true -> forallb q h = true ->
  forallb q (make_reading s t h) = true.
Proof.
  intros Hs Hh. unfold make_reading.
  destruct (str_contains t s); [|reflexivity].
  apply str_replace_forallb; assumption.
Qed.

Lemma make_reading_encodable (s t h : str) :
  encodable s = true -> encodable h = true ->
  encodable (make_reading s t h) = true.
Proof. apply make_reading_all. Qed.

Lemma str_replace_encodable (s old new : str) :
  encodable new = true -> encodable s = true ->
  encodable (str_replace s old new) = true.
Proof. apply str_replace_forallb. Qed.

Lemma gloss_stripped_encodable (e : str) :
  encodable e = true -> encodable (gloss_stripped e) = true.
Proof.
  intros H. unfold gloss_stripped, rstrip.
  apply rstrip_by_forallb, strip_encodable. exact H.
Qed.

Lemma gloss_question_encodable (e : str) :
  encodable e = true -> encodable (gloss_question e) = true.
Proof.
  intros H. unfold gloss_question, rstrip.
  apply rstrip_by_forallb, rstrip_by_forallb. exact H.
Qed.

Lemma question_jp_encodable (a : str) :
  encodable a = true -> encodable (question_jp a) = true.
Proof.
  intros H. unfold question_jp. destruct (negb _ && negb _); [|exact H].
  rewrite encodable_app. unfold rstrip, encodable.
  rewrite (rstrip_by_forallb _ _ a H). reflexivity.
Qed.

Lemma question_en_encodable (c : str) :
  encodable c = true -> encodable (question_en c) = true.
Proof.
  intros H. unfold question_en. destruct (negb _); [|exact H].
  rewrite encodable_app, H. reflexivity.
Qed.

Lemma specials_encodable :
  forallb (fun kv : str * triple => triple_encodable (snd kv)) specials = true.
Proof. vm_compute. reflexivity. Qed.

Lemma ex2_stripped_encodable :
  forallb lit_encodable (lits_of ex2_frames_stripped) = true.
Proof. vm_compute. reflexivity. Qed.

Lemma ex2_raw_encodable : forallb lit_encodable (lits_of ex2_frames_raw) = true.
Proof. vm_compute. reflexivity. Qed.

Lemma ex3_encodable : forallb lit_encodable (lits_of ex3_frames_all) = true.
Proof. vm_compute. reflexivity. Qed.

Lemma rendered_encodable (q : lits) (t h e : str) :
  lit_encodable q = true ->
  encodable t = true -> encodable h = true -> encodable e = true ->
  triple_encodable (rendered q t h e) = true.
Proof.
  unfold lit_encodable, jp_lit, en_lit. rewrite !encodable_app.
  intros Hq Ht Hh He.
  apply andb_true_iff in Hq. destruct Hq as [Hj Hen].
  apply andb_true_iff in Hj. destruct Hj as [Hj1 Hj2].
  apply andb_true_iff in Hen. destruct Hen as [He1 He2].
  assert (Hjp : encodable (render_jp q t) = true).
  { unfold render_jp. rewrite !encodable_app, Hj1, Ht, Hj2. reflexivity. }
  unfold triple_encodable, rendered. rewrite !fst_pair, !snd_pair.
  rewrite Hjp, (make_reading_encodable _ t h Hjp Hh).
  unfold render_en. rewrite !encodable_app, He1, He, He2. reflexivity.
Qed.

Lemma ex2_out_encodable (r : Row) (out : triple) :
  ex2_out r out -> text_row r = true -> triple_encodable out = true.
Proof.
  intros H Ht. destruct (text_row_fields r Ht) as [_ [Hj [Hh He]]].
  destruct H as [out Hs | _ | _ | _ | _ | q _ Hq | q _ Hq | fr a c _ _ Hin Ha Hc].
  - apply dict_get_in in Hs. pose proof specials_encodable as Hall.
    rewrite forallb_forall in Hall. exact (Hall _ Hs).
  - reflexivity.
  - reflexivity.
  - unfold triple_encodable. rewrite !fst_pair, !snd_pair, !encodable_app.
    rewrite !str_replace_encodable by (assumption || reflexivity).
    rewrite He. reflexivity.
  - unfold triple_encodable. rewrite !fst_pair, !snd_pair, !encodable_app.
    rewrite Hj, Hh. reflexivity.
  - pose proof ex2_stripped_encodable as Hall. rewrite forallb_forall in Hall.
    apply rendered_encodable; try assumption; [exact (Hall q Hq)|].
    apply gloss_stripped_encodable. exact He.
  - pose proof ex2_raw_encodable as Hall. rewrite forallb_forall in Hall.
    apply rendered_encodable; try assumption. exact (Hall q Hq).
  - destruct (question_frames_jp fr (japanese r) a Hin Ha)
      as [before [after [Hl ->]]].
    assert (Hq : encodable (question_jp (before ++ japanese r ++ after)) = true).
    { apply question_jp_encodable. rewrite !encodable_app, Hj.
      destruct Hl as [F | [F | [F | []]]]; injection F as <- <-; reflexivity. }
    unfold triple_encodable. rewrite !fst_pair, !snd_pair.
    rewrite Hq, (make_reading_encodable _ _ _ Hq Hh). cbn [andb].
    apply question_en_encodable.
    destruct (question_frames_en fr _ c Hin Hc) as [-> | ->]; [reflexivity|].
    rewrite !encodable_app, (gloss_question_encodable _ He). reflexivity.
Qed.

Lemma make_example2_encodable (r : Row) (out : triple) :
  text_row r = true -> make_example2 r = Ok out -> triple_encodable out = true.
Proof.
  intros Ht H. apply make_example2_out in H.
  exact (ex2_out_encodable r out H Ht).
Qed.

Lemma make_example3_encodable (r : Row) (out : triple) :
  text_row r = true -> make_example3 r = Ok out -> triple_encodable out = true.
Proof.
  intros Ht H. destruct (text_row_fields r Ht) as [_ [Hj [Hh He]]].
  apply make_example3_out in H. destruct H as [q [Hq ->]].
  pose proof ex3_encodable as Hall. rewrite forallb_forall in Hall.
  apply rendered_encodable; try assumption; [exact (Hall q Hq)|].
  apply gloss_stripped_encodable. exact He.
Qed.

(** ** Loading the cards and the manual examples *)

Lemma stripped_strip (s : str) : stripped (strip s).
Proof. apply strip_idem. Qed.

(** [strip] removes the white space around a text, and no more. *)
Lemma strip_trimmed (s : str) : trimmed_of s (strip s).
Proof.
  split; [|split].
  - destruct (strip_decompose s) as [a [b [E [Ha Hb]]]].
    exists a, b. split; [exact E | split; assumption].
  - intros c rest E. unfold strip, lstrip_by in E.
    destruct (rstrip_by_prefix is_space (drop_while is_space s)) as [b [Hb _]].
    rewrite E in Hb. exact (drop_while_head _ _ _ _ Hb).
  - intros rest c E. exact (strip_last s rest c E).
Qed.

Lemma field_of_get (row : csv_row) (name : str) :
  field_of row name (strip (or_empty (row_get row name))).
Proof.
  unfold field_of, row_get.
  destruct (dict_get row name) as [[cell|]|]; cbn [or_empty];
    [apply strip_trimmed | reflexivity | reflexivity].
Qed.

(** X14.  [read_rows] makes one card of every row of the file, in order and
    under the deck it is given; each of the eight texts of the card is the
    cell of its column without the white space around it, and the empty
    string when the row has no cell for the column. *)
Theorem read_rows_cards (rows : list csv_row) (d : str) :
  length (read_rows rows d) = length rows
  /\ Forall2 (fun row r =>
                deck r = d
                /\ field_of row (u "Front") (front r)
                /\ field_of row (u "Back") (back r)
                /\ field_of row (u "Japanese") (japanese r)
                /\ field_of row (u "Hiragana") (hiragana r)
                /\ field_of row (u "English") (english r)
                /\ field_of row (u "Example_JP") (example_jp r)
                /\ field_of row (u "Example_Hiragana") (example_hiragana r)
                /\ field_of row (u "Example_EN") (example_en r))
             rows (read_rows rows d).
Proof.
  unfold read_rows. split; [apply length_map|].
  induction rows as [|row rows IH]; [constructor|].
  cbn [map]. constructor; [|exact IH].
  cbn [deck front back japanese hiragana english example_jp
       example_hiragana example_en].
  split; [reflexivity|]. repeat split; apply field_of_get.
Qed.

Lemma key2_eqb_eq (a b : key2) : key2_eqb a b = true <-> a = b.
Proof.
  unfold key2_eqb. rewrite andb_true_iff, !str_eqb_eq.
  destruct a as [a1 a2], b as [b1 b2]. simpl. split.
  - intros [-> ->]. reflexivity.
  - intros H. injection H as -> ->. split; reflexivity.
Qed.

Lemma key2_eqb_refl (a : key2) : key2_eqb a a = true.
Proof. apply key2_eqb_eq. reflexivity. Qed.

(** Lookup after an assignment. *)
Lemma dict2_get_set {V : Type} (d : list (key2 * V)) (k k' : key2) (v : V) :
  dict2_get (dict2_set d k v) k'
  = if key2_eqb k' k then Some v else dict2_get d k'.
Proof.
  induction d as [|[k0 v0] d IH]; simpl; [reflexivity|].
  destruct (key2_eqb k k0) eqn:E; simpl.
  - apply key2_eqb_eq in E. subst k0.
    destruct (key2_eqb k' k); reflexivity.
  - rewrite IH. destruct (key2_eqb k' k0) eqn:E0; [|reflexivity].
    apply key2_eqb_eq in E0. subst k0.
    destruct (key2_eqb k' k) eqn:E1; [|reflexivity].
    apply key2_eqb_eq in E1. subst k'. rewrite key2_eqb_refl in E.
    discriminate E.
Qed.

Lemma falsy_false (s : str) : falsy s = false <-> s <> [].
Proof. destruct s; simpl; split; congruence. Qed.

Lemma truthy_true (s : str) : truthy s = true <-> s <> [].
Proof. unfold truthy. rewrite negb_true_iff. apply falsy_false. Qed.

(** An invariant of a dictionary built by a loop: every entry satisfies
    [P]. *)
Lemma fold_left_entries {V R : Type} (P : key2 -> V -> Prop)
      (step : list (key2 * V) -> R -> list (key2 * V)) (rows : list R)
      (d : list (key2 * V)) :
  (forall d row, (forall k v, dict2_get d k = Some v -> P k v) ->
                 forall k v, dict2_get (step d row) k = Some v -> P k v) ->
  (forall k v, dict2_get d k = Some v -> P k v) ->
  forall k v, dict2_get (fold_left step rows d) k = Some v -> P k v.
Proof.
  intros Hstep. revert d. induction rows as [|row rows IH]; intros d Hd.
  - exact Hd.
  - simpl. apply IH. apply Hstep. exact Hd.
Qed.

(** X15.  Every entry that [load_manual_example1] returns has a non-empty deck
    and term, a non-empty sentence and a non-empty translation, and none of
    its five texts begins or ends with white space. *)
Theorem manual_example1_entries (file : option (list csv_row)) (k : key2)
        (ex : triple) :
  dict2_get (load_manual_example1 file) k = Some ex ->
  (fst k <> [] /\ snd k <> [] /\ fst (fst ex) <> [] /\ snd ex <> [])
  /\ stripped (fst k) /\ stripped (snd k)
  /\ stripped (fst (fst ex)) /\ stripped (snd (fst ex)) /\ stripped (snd ex).
Proof.
  destruct file as [rows|]; [|discriminate].
  unfold load_manual_example1. revert k ex.
  apply fold_left_entries; [|discriminate].
  intros d row Hd k ex. unfold load_manual_example1_row. cbv zeta.
  destruct (falsy (strip (or_empty (row_get row (u "Deck"))))) eqn:E1;
    [exact (Hd k ex)|].
  destruct (falsy (strip (or_empty (row_get row (u "Japanese"))))) eqn:E2;
    [exact (Hd k ex)|].
  cbn [orb].
  destruct (falsy (strip (or_empty (row_get row (u "Example_JP"))))) eqn:E3;
    [exact (Hd k ex)|].
  destruct (falsy (strip (or_empty (row_get row (u "Example_EN"))))) eqn:E4;
    [exact (Hd k ex)|].
  cbn [orb]. rewrite dict2_get_set.
  destruct (key2_eqb k _) eqn:Ek; [|exact (Hd k ex)].
  apply key2_eqb_eq in Ek. subst k. intros H. injection H as <-.
  rewrite !fst_pair, !snd_pair.
  apply falsy_false in E1, E2, E3, E4.
  repeat split; try assumption; apply stripped_strip.
Qed.

Lemma manual_example1_entries_witness :
  ((u "03_tech_verbs" <> [] /\ u "確認します" <> []
    /\ u "きょう確認します。" <> [] /\ u "I will confirm it today." <> [])
   /\ stripped (u "03_tech_verbs") /\ stripped (u "確認します")
   /\ stripped (u "きょう確認します。") /\ stripped []
   /\ stripped (u "I will confirm it today.")).
Proof.
  apply (manual_example1_entries
           (Some [manual_line (u " きょう確認します。 ")])
           (u "03_tech_verbs", u "確認します")
           (u "きょう確認します。", [], u "I will confirm it today.")).
  vm_compute. reflexivity.
Defined.

(** X16.  The last line of data/manual_example1.csv decides: a line with a deck,
    a term, a sentence and a translation gives the entry of its key,
    whatever the lines before it hold; a line that lacks one of the four
    leaves the dictionary as it was. *)
Theorem manual_example1_last_line (rows : list csv_row) (row : csv_row) :
  let d := strip (or_empty (row_get row (u "Deck"))) in
  let j := strip (or_empty (row_get row (u "Japanese"))) in
  let ex_jp := strip (or_empty (row_get row (u "Example_JP"))) in
  let ex_hira := strip (or_empty (row_get row (u "Example_Hiragana"))) in
  let ex_en := strip (or_empty (row_get row (u "Example_EN"))) in
  (d <> [] /\ j <> [] /\ ex_jp <> [] /\ ex_en <> [] ->
   dict2_get (load_manual_example1 (Some (rows ++ [row]))) (d, j)
   = Some (ex_jp, ex_hira, ex_en))
  /\ (d = [] \/ j = [] \/ ex_jp = [] \/ ex_en = [] ->
      load_manual_example1 (Some (rows ++ [row]))
      = load_manual_example1 (Some rows)).
Proof.
  cbv zeta. unfold load_manual_example1. rewrite fold_left_app.
  cbn [fold_left]. unfold load_manual_example1_row at 1 3. cbv zeta.
  split.
  - intros [H1 [H2 [H3 H4]]].
    apply falsy_false in H1, H2, H3, H4. rewrite H1, H2, H3, H4. cbn [orb].
    rewrite dict2_get_set, key2_eqb_refl. reflexivity.
  - intros H.
    destruct (strip (or_empty (row_get row (u "Deck")))); [reflexivity|].
    destruct (strip (or_empty (row_get row (u "Japanese")))); [reflexivity|].
    destruct (strip (or_empty (row_get row (u "Example_JP")))); [reflexivity|].
    destruct (strip (or_empty (row_get row (u "Example_EN")))); [reflexivity|].
    exfalso. destruct H as [H | [H | [H | H]]]; discriminate H.
Qed.

Lemma manual_example1_last_line_witness :
  dict2_get (load_manual_example1
               (Some ([manual_line (u "きょう確認します。")]
                      ++ [manual_line (u "あとで確認します。")])))
            (u "03_tech_verbs", u "確認します")
  = Some (u "あとで確認します。", [], u "I will confirm it today.")
  /\ load_manual_example1
       (Some ([manual_line (u "きょう確認します。")] ++ [manual_line (u "  ")]))
     = load_manual_example1 (Some [manual_line (u "きょう確認します。")]).
Proof.
  split.
  - apply (proj1 (manual_example1_last_line
                    [manual_line (u "きょう確認します。")]
                    (manual_line (u "あとで確認します。")))).
    repeat split; discriminate.
  - apply (proj2 (manual_example1_last_line
                    [manual_line (u "きょう確認します。")]
                    (manual_line (u "  ")))).
    right. right. left. reflexivity.
Defined.

Lemma manual_examples_keys (file : option (list csv_row)) (k : key2)
      (m : ManualExamples) :
  dict2_get (load_manual_examples file) k = Some m ->
  fst k <> [] /\ snd k <> [].
Proof.
  destruct file as [rows|]; [|discriminate].
  unfold load_manual_examples. revert k m.
  apply (fold_left_entries (fun k _ => fst k <> [] /\ snd k <> []));
    [|discriminate].
  intros d row Hd k m. unfold load_manual_examples_row. cbv zeta.
  destruct (falsy (strip (or_empty (row_get row (u "Deck"))))) eqn:E1;
    [exact (Hd k m)|].
  destruct (falsy (strip (or_empty (row_get row (u "Japanese"))))) eqn:E2;
    [exact (Hd k m)|].
  cbn [orb]. rewrite dict2_get_set.
  destruct (key2_eqb k _) eqn:Ek; [|exact (Hd k m)].
  apply key2_eqb_eq in Ek. subst k. intros _.
  apply falsy_false in E1, E2. split; assumption.
Qed.

Lemma manual_example1_keys (file : option (list csv_row)) (k : key2)
      (ex : triple) :
  dict2_get (load_manual_example1 file) k = Some ex ->
  fst k <> [] /\ snd k <> [].
Proof.
  destruct file as [rows|]; [|discriminate].
  unfold load_manual_example1. revert k ex.
  apply (fold_left_entries (fun k _ => fst k <> [] /\ snd k <> []));
    [|discriminate].
  intros d row Hd k ex. unfold load_manual_example1_row. cbv zeta.
  destruct (falsy (strip (or_empty (row_get row (u "Deck"))))) eqn:E1;
    [exact (Hd k ex)|].
  destruct (falsy (strip (or_empty (row_get row (u "Japanese"))))) eqn:E2;
    [exact (Hd k ex)|].
  cbn [orb].
  destruct (falsy _ || falsy _); [exact (Hd k ex)|].
  rewrite dict2_get_set.
  destruct (key2_eqb k _) eqn:Ek; [|exact (Hd k ex)].
  apply key2_eqb_eq in Ek. subst k. intros _.
  apply falsy_false in E1, E2. split; assumption.
Qed.

(** ** Writing the table *)

(** X17.  The manual files cannot reach a card whose deck or term is empty: its
    line of the table is what it would be without any manual file. *)
Theorem empty_term_not_overridden (manual_file manual_ex1_file : option (list csv_row))
        (r : Row) :
  deck r = [] \/ japanese r = [] ->
  main_row (load_manual_examples manual_file)
           (load_manual_example1 manual_ex1_file) r
  = main_row [] [] r.
Proof.
  intros He.
  assert (H1 : dict2_get (load_manual_examples manual_file) (deck r, japanese r)
               = None).
  { destruct (dict2_get (load_manual_examples manual_file)
                        (deck r, japanese r)) as [m|] eqn:E; [|reflexivity].
    apply manual_examples_keys in E. simpl in E. tauto. }
  assert (H2 : dict2_get (load_manual_example1 manual_ex1_file)
                         (deck r, japanese r) = None).
  { destruct (dict2_get (load_manual_example1 manual_ex1_file)
                        (deck r, japanese r)) as [m|] eqn:E; [|reflexivity].
    apply manual_example1_keys in E. simpl in E. tauto. }
  unfold main_row. cbv zeta. rewrite H1, H2. reflexivity.
Qed.

Lemma empty_term_not_overridden_witness :
  main_row (load_manual_examples (Some [manual_line (u "きょう確認します。")]))
           (load_manual_example1 (Some [manual_line (u "きょう確認します。")]))
           (mkRow (u "03_tech_verbs") [] [] [] [] (u "to confirm") [] [] [])
  = main_row [] [] (mkRow (u "03_tech_verbs") [] [] [] [] (u "to confirm") [] [] []).
Proof.
  apply (empty_term_not_overridden
           (Some [manual_line (u "きょう確認します。")])
           (Some [manual_line (u "きょう確認します。")])
           (mkRow (u "03_tech_verbs") [] [] [] [] (u "to confirm") [] [] [])).
  right. reflexivity.
Defined.

(** The dictionary that [main] hands to the writer, given the three
    examples. *)
Lemma main_row_inv (manual : list (key2 * ManualExamples))
      (manual_ex1 : list (key2 * triple)) (r : Row) (rowdict : list (str * str)) :
  main_row manual manual_ex1 r = Ok rowdict ->
  exists e1 e2 e3 : triple,
    rowdict
    = [ (u "Deck", deck r); (u "Front", front r); (u "Back", back r);
        (u "Japanese", japanese r); (u "Hiragana", hiragana r);
        (u "English", english r);
        (u "Example_JP", fst (fst e1)); (u "Example_Hiragana", snd (fst e1));
        (u "Example_EN", snd e1);
        (u "Example2_JP", fst (fst e2)); (u "Example2_Hiragana", snd (fst e2));
        (u "Example2_EN", snd e2);
        (u "Example3_JP", fst (fst e3)); (u "Example3_Hiragana", snd (fst e3));
        (u "Example3_EN", snd e3);
        (u "Tags", deck r); (u "Notes", []) ].
Proof.
  unfold main_row. cbv zeta.
  set (e1 := match dict2_get manual_ex1 (deck r, japanese r) with
             | Some _ => _ | None => _ end).
  set (m2 := match dict2_get manual (deck r, japanese r) with
             | Some m => if truthy (example2_jp m) && _ then _ else _
             | None => _ end).
  set (m3 := match dict2_get manual (deck r, japanese r) with
             | Some m => if truthy (example3_jp m) && _ then _ else _
             | None => _ end).
  clearbody e1 m2 m3. destruct e1 as [[a1 b1] c1].
  destruct m2 as [[[a2 b2] c2]|]; [|discriminate].
  destruct m3 as [[[a3 b3] c3]|]; [|discriminate].
  cbn [bind]. intros H. apply Ok_inj in H. subst rowdict.
  exists (a1, b1, c1), (a2, b2, c2), (a3, b3, c3). reflexivity.
Qed.

(** The writer finds every field in the dictionary of [main], and no key
    outside the field names: the cells are the values in order. *)
Lemma main_row_cells (manual : list (key2 * ManualExamples))
      (manual_ex1 : list (key2 * triple)) (r : Row) (rowdict : list (str * str)) :
  main_row manual manual_ex1 r = Ok rowdict ->
  dict_to_list fieldnames rowdict = Ok (map snd rowdict)
  /\ length rowdict = 17.
Proof.
  intros H. apply main_row_inv in H. destruct H as [e1 [e2 [e3 ->]]].
  split; [vm_compute|]; reflexivity.
Qed.

Lemma main_row_returns (manual : list (key2 * ManualExamples))
      (manual_ex1 : list (key2 * triple)) (r : Row) :
  text_row r = true -> exists rowdict, main_row manual manual_ex1 r = Ok rowdict.
Proof.
  intros Ht.
  destruct (make_example2_ok r Ht) as [[[a2 b2] c2] H2].
  destruct (make_example3_ok r Ht) as [[[a3 b3] c3] H3].
  unfold main_row. cbv zeta. rewrite H2, H3.
  set (e1 := match dict2_get manual_ex1 (deck r, japanese r) with
             | Some _ => _ | None => _ end).
  clearbody e1. destruct e1 as [[a1 b1] c1].
  destruct (dict2_get manual (deck r, japanese r)) as [m|].
  - destruct (truthy (example2_jp m) && truthy (example2_en m));
      destruct (truthy (example3_jp m) && truthy (example3_en m));
      cbn [bind]; eexists; reflexivity.
  - cbn [bind]. eexists. reflexivity.
Qed.

(** [main] raises nothing but what a generator raises. *)
Lemma main_row_raises (manual : list (key2 * ManualExamples))
      (manual_ex1 : list (key2 * triple)) (r : Row) (e : exn) :
  main_row manual manual_ex1 r = Raise e -> e = UnicodeEncodeError.
Proof.
  unfold main_row. cbv zeta.
  set (e1 := match dict2_get manual_ex1 (deck r, japanese r) with
             | Some _ => _ | None => _ end).
  clearbody e1. destruct e1 as [[a1 b1] c1].
  destruct (make_example2 r) as [[[a2 b2] c2]|e2] eqn:H2;
    destruct (make_example3 r) as [[[a3 b3] c3]|e3] eqn:H3;
    try (apply make_example2_raises in H2; destruct H2 as [-> _]);
    try (apply make_example3_raises in H3; destruct H3 as [-> _]);
    destruct (dict2_get manual (deck r, japanese r)) as [m|];
    try destruct (truthy (example2_jp m) && truthy (example2_en m));
    try destruct (truthy (example3_jp m) && truthy (example3_en m));
    cbn [bind]; intros H; first [discriminate H | injection H as <-; reflexivity].
Qed.

Lemma dict2_get_in {V : Type} (d : list (key2 * V)) (k : key2) (v : V) :
  dict2_get d k = Some v -> exists k', In (k', v) d.
Proof.
  induction d as [|[k0 v0] d IH]; simpl; [discriminate|].
  destruct (key2_eqb k k0).
  - intros H. injection H as ->. exists k0. left. reflexivity.
  - intros H. destruct (IH H) as [k' Hk]. exists k'. right. exact Hk.
Qed.

Lemma str_or_encodable (a b : str) :
  encodable a = true -> encodable b = true -> encodable (str_or a b) = true.
Proof. intros Ha Hb. destruct a; [exact Hb | exact Ha]. Qed.

Lemma row_get_encodable (row : csv_row) (name : str) :
  Forall (fun kv : str * option str =>
            match snd kv with
            | Some cell => encodable cell = true
            | None => True
            end) row ->
  encodable (or_empty (row_get row name)) = true.
Proof.
  intros H. unfold row_get.
  destruct (dict_get row name) as [[cell|]|] eqn:E; try reflexivity.
  apply dict_get_in in E. rewrite Forall_forall in H.
  exact (H _ E).
Qed.

Lemma py_or_encodable (row : csv_row) (a b : str) :
  Forall (fun kv : str * option str =>
            match snd kv with
            | Some cell => encodable cell = true
            | None => True
            end) row ->
  encodable (or_empty (py_or (row_get row a) (row_get row b))) = true.
Proof.
  intros H. pose proof (row_get_encodable row a H) as Ha.
  pose proof (row_get_encodable row b H) as Hb.
  unfold py_or. destruct (row_get row a) as [[|c s]|]; assumption.
Qed.

(** The entries loaded from files of encodable text are encodable. *)
Lemma manual_examples_encodable (file : option (list csv_row)) (k : key2)
      (m : ManualExamples) :
  file_text file ->
  dict2_get (load_manual_examples file) k = Some m ->
  forallb encodable (manual_texts m) = true.
Proof.
  destruct file as [rows|]; [|discriminate].
  cbn [file_text]. unfold csv_text, load_manual_examples. intros Hrows.
  assert (G : forall (d : list (key2 * ManualExamples)),
             (forall k m, dict2_get d k = Some m ->
                          forallb encodable (manual_texts m) = true) ->
             forall k m, dict2_get (fold_left load_manual_examples_row rows d) k
                         = Some m ->
                         forallb encodable (manual_texts m) = true).
  { induction Hrows as [|row rows Hrow _ IH]; intros d Hd; [exact Hd|].
    cbn [fold_left]. apply IH. clear IH.
    intros k0 m0. unfold load_manual_examples_row. cbv zeta.
    destruct (falsy _ || falsy _); [exact (Hd k0 m0)|].
    rewrite dict2_get_set. destruct (key2_eqb k0 _); [|exact (Hd k0 m0)].
    intros H. injection H as <-. unfold manual_texts.
    cbn [example1_jp example1_hiragana example1_en example2_jp
         example2_hiragana example2_en example3_jp example3_hiragana
         example3_en forallb].
    rewrite !strip_encodable;
      first [ reflexivity
            | apply py_or_encodable; exact Hrow
            | apply row_get_encodable; exact Hrow ]. }
  apply G. discriminate.
Qed.

Lemma manual_example1_encodable (file : option (list csv_row)) (k : key2)
      (ex : triple) :
  file_text file ->
  dict2_get (load_manual_example1 file) k = Some ex ->
  triple_encodable ex = true.
Proof.
  destruct file as [rows|]; [|discriminate].
  cbn [file_text]. unfold csv_text, load_manual_example1. intros Hrows.
  assert (G : forall (d : list (key2 * triple)),
             (forall k ex, dict2_get d k = Some ex -> triple_encodable ex = true) ->
             forall k ex, dict2_get (fold_left load_manual_example1_row rows d) k
                          = Some ex -> triple_encodable ex = true).
  { induction Hrows as [|row rows Hrow _ IH]; intros d Hd; [exact Hd|].
    cbn [fold_left]. apply IH. clear IH.
    intros k0 ex0. unfold load_manual_example1_row. cbv zeta.
    destruct (falsy _ || falsy _); [exact (Hd k0 ex0)|].
    destruct (falsy _ || falsy _); [exact (Hd k0 ex0)|].
    rewrite dict2_get_set. destruct (key2_eqb k0 _); [|exact (Hd k0 ex0)].
    intros H. injection H as <-. unfold triple_encodable.
    rewrite !fst_pair, !snd_pair.
    rewrite !strip_encodable;
      first [ reflexivity | apply row_get_encodable; exact Hrow ]. }
  apply G. discriminate.
Qed.

Lemma triple_encodable_intro (a b c : str) :
  encodable a = true -> encodable b = true -> encodable c = true ->
  triple_encodable (a, b, c) = true.
Proof.
  intros Ha Hb Hc. unfold triple_encodable.
  rewrite !fst_pair, !snd_pair, Ha, Hb, Hc. reflexivity.
Qed.

Lemma triple_encodable_inv (a b c : str) :
  triple_encodable (a, b, c) = true ->
  encodable a = true /\ encodable b = true /\ encodable c = true.
Proof.
  unfold triple_encodable. rewrite !fst_pair, !snd_pair. intros H.
  apply andb_true_iff in H. destruct H as [H Hc].
  apply andb_true_iff in H. tauto.
Qed.

(** The record of a card of encodable text, with encodable manual
    examples, is encodable. *)
Lemma main_row_encodable (manual : list (key2 * ManualExamples))
      (manual_ex1 : list (key2 * triple)) (r : Row) (rowdict : list (str * str)) :
  forallb encodable (row_texts r) = true ->
  (forall m, dict2_get manual (deck r, japanese r) = Some m ->
             forallb encodable (manual_texts m) = true) ->
  (forall ex, dict2_get manual_ex1 (deck r, japanese r) = Some ex ->
              triple_encodable ex = true) ->
  main_row manual manual_ex1 r = Ok rowdict ->
  forallb encodable (map snd rowdict) = true.
Proof.
  intros Hr Hm Hm1. unfold row_texts in Hr. cbn [forallb] in Hr.
  repeat (apply andb_true_iff in Hr;
          let H := fresh "F" in destruct Hr as [H Hr]).
  assert (Ht : text_row r = true).
  { unfold text_row. rewrite F, F2, F3, F4. reflexivity. }
  assert (Hmr : forall s, encodable s = true ->
                          encodable (make_reading s (japanese r) (hiragana r))
                          = true).
  { intros s Hs. apply make_reading_encodable; assumption. }
  unfold main_row. cbv zeta.
  set (e1 := match dict2_get manual_ex1 (deck r, japanese r) with
             | Some _ => _ | None => _ end).
  assert (He1 : triple_encodable e1 = true).
  { subst e1.
    destruct (dict2_get manual_ex1 (deck r, japanese r)) as [[[a b] c]|].
    - destruct (triple_encodable_inv a b c (Hm1 _ eq_refl)) as [Ha [Hb Hc]].
      apply triple_encodable_intro; try assumption.
      apply str_or_encodable; [exact Hb | exact (Hmr a Ha)].
    - destruct (dict2_get manual (deck r, japanese r)) as [m|];
        [|apply triple_encodable_intro; assumption].
      specialize (Hm m eq_refl). unfold manual_texts in Hm.
      cbn [forallb] in Hm.
      repeat (apply andb_true_iff in Hm;
              let H := fresh "G" in destruct Hm as [H Hm]).
      destruct (truthy (example1_jp m) && truthy (example1_en m));
        [|apply triple_encodable_intro; assumption].
      apply triple_encodable_intro; try assumption.
      apply str_or_encodable; [assumption | apply Hmr; assumption]. }
  set (m2 := match dict2_get manual (deck r, japanese r) with
             | Some m => if truthy (example2_jp m) && _ then _ else _
             | None => _ end).
  assert (He2 : forall t, m2 = Ok t -> triple_encodable t = true).
  { subst m2. intros t.
    destruct (dict2_get manual (deck r, japanese r)) as [m|];
      [|apply make_example2_encodable; exact Ht].
    specialize (Hm m eq_refl). unfold manual_texts in Hm.
    cbn [forallb] in Hm.
    repeat (apply andb_true_iff in Hm;
            let H := fresh "G" in destruct Hm as [H Hm]).
    destruct (truthy (example2_jp m) && truthy (example2_en m));
      [|apply make_example2_encodable; exact Ht].
    intros E. apply Ok_inj in E. subst t.
    apply triple_encodable_intro; try assumption.
    apply str_or_encodable; [assumption | apply Hmr; assumption]. }
  set (m3 := match dict2_get manual (deck r, japanese r) with
             | Some m => if truthy (example3_jp m) && _ then _ else _
             | None => _ end).
  assert (He3 : forall t, m3 = Ok t -> triple_encodable t = true).
  { subst m3. intros t.
    destruct (dict2_get manual (deck r, japanese r)) as [m|];
      [|apply make_example3_encodable; exact Ht].
    specialize (Hm m eq_refl). unfold manual_texts in Hm.
    cbn [forallb] in Hm.
    repeat (apply andb_true_iff in Hm;
            let H := fresh "G" in destruct Hm as [H Hm]).
    destruct (truthy (example3_jp m) && truthy (example3_en m));
      [|apply make_example3_encodable; exact Ht].
    intros E. apply Ok_inj in E. subst t.
    apply triple_encodable_intro; try assumption.
    apply str_or_encodable; [assumption | apply Hmr; assumption]. }
  clearbody e1 m2 m3. destruct e1 as [[a1 b1] c1].
  destruct m2 as [[[a2 b2] c2]|]; [|discriminate].
  destruct m3 as [[[a3 b3] c3]|]; [|discriminate].
  destruct (triple_encodable_inv _ _ _ He1) as [A1 [B1 C1]].
  destruct (triple_encodable_inv _ _ _ (He2 _ eq_refl)) as [A2 [B2 C2]].
  destruct (triple_encodable_inv _ _ _ (He3 _ eq_refl)) as [A3 [B3 C3]].
  cbn [bind]. intros H. apply Ok_inj in H. subst rowdict.
  cbn [map snd forallb].
  rewrite F, F0, F1, F2, F3, F4, A1, B1, C1, A2, B2, C2, A3, B3, C3.
  reflexivity.
Qed.

(** What the loop does with one card: a record of 17 cells, or
    [UnicodeEncodeError]. *)
Lemma record_cases (manual : list (key2 * ManualExamples))
      (manual_ex1 : list (key2 * triple)) (r : Row) :
  (exists cells,
      (rowdict <- main_row manual manual_ex1 r ;; writerow fieldnames rowdict)
      = Ok cells /\ length cells = 17)
  \/ (rowdict <- main_row manual manual_ex1 r ;; writerow fieldnames rowdict)
     = Raise UnicodeEncodeError.
Proof.
  destruct (main_row manual manual_ex1 r) as [rowdict|e] eqn:E.
  - destruct (main_row_cells manual manual_ex1 r rowdict E) as [Hc Hl].
    cbn [bind]. unfold writerow. rewrite Hc. cbn [bind].
    destruct (forallb encodable (map snd rowdict)); [left | right; reflexivity].
    eexists. split; [reflexivity|]. rewrite length_map. exact Hl.
  - apply main_row_raises in E. subst e. right. reflexivity.
Qed.

Lemma record_written (manual : list (key2 * ManualExamples))
      (manual_ex1 : list (key2 * triple)) (r : Row) :
  forallb encodable (row_texts r) = true ->
  (forall m, dict2_get manual (deck r, japanese r) = Some m ->
             forallb encodable (manual_texts m) = true) ->
  (forall ex, dict2_get manual_ex1 (deck r, japanese r) = Some ex ->
              triple_encodable ex = true) ->
  exists cells,
    (rowdict <- main_row manual manual_ex1 r ;; writerow fieldnames rowdict)
    = Ok cells.
Proof.
  intros Hr Hm Hm1.
  assert (Ht : text_row r = true).
  { unfold row_texts in Hr. cbn [forallb] in Hr.
    repeat (apply andb_true_iff in Hr;
            let H := fresh "F" in destruct Hr as [H Hr]).
    unfold text_row. rewrite F, F2, F3, F4. reflexivity. }
  destruct (main_row_returns manual manual_ex1 r Ht) as [rowdict E].
  rewrite E. cbn [bind]. unfold writerow.
  rewrite (proj1 (main_row_cells manual manual_ex1 r rowdict E)). cbn [bind].
  rewrite (main_row_encodable manual manual_ex1 r rowdict Hr Hm Hm1 E).
  eexists. reflexivity.
Qed.

(** The loop ends by returning 0 after a record for every card, or by
    raising [UnicodeEncodeError] after the records of the cards before the
    one that cannot be encoded. *)
Lemma write_rows_cases (manual : list (key2 * ManualExamples))
      (manual_ex1 : list (key2 * triple)) (rows : list Row) :
  forall written : list (list str),
  exists records,
    fst (write_rows manual manual_ex1 rows written) = written ++ records
    /\ Forall (fun cells => length cells = 17) records
    /\ (snd (write_rows manual manual_ex1 rows written) = Ok 0%Z
        /\ length records = length rows
        \/ snd (write_rows manual manual_ex1 rows written)
           = Raise UnicodeEncodeError
           /\ length records < length rows).
Proof.
  induction rows as [|r rows IH]; intros written.
  - exists []. cbn [write_rows fst snd]. rewrite app_nil_r.
    split; [reflexivity|]. split; [constructor|]. left. split; reflexivity.
  - cbn [write_rows].
    destruct (record_cases manual manual_ex1 r) as [[cells [E Hl]] | E];
      rewrite E.
    + destruct (IH (written ++ [cells])) as [records [Hw [Hall Hres]]].
      exists (cells :: records). rewrite Hw, <- app_assoc.
      split; [reflexivity|]. split; [constructor; assumption|].
      cbn [length]. destruct Hres as [[Hs Hn] | [Hs Hn]];
        [left | right]; split; try assumption; lia.
    + exists []. cbn [fst snd length]. rewrite app_nil_r.
      split; [reflexivity|]. split; [constructor|]. right.
      split; [reflexivity | lia].
Qed.

Lemma write_rows_total (manual : list (key2 * ManualExamples))
      (manual_ex1 : list (key2 * triple)) (rows : list Row) :
  Forall (fun r =>
            exists cells,
              (rowdict <- main_row manual manual_ex1 r ;;
               writerow fieldnames rowdict) = Ok cells) rows ->
  forall written : list (list str),
    snd (write_rows manual manual_ex1 rows written) = Ok 0%Z.
Proof.
  induction 1 as [|r rows [cells E] _ IH]; intros written; [reflexivity|].
  cbn [write_rows]. rewrite E. apply IH.
Qed.

Lemma read_rows_encodable (rows : list csv_row) (d : str) :
  encodable d = true -> csv_text rows ->
  Forall (fun r => forallb encodable (row_texts r) = true) (read_rows rows d).
Proof.
  intros Hd H. unfold read_rows. apply Forall_forall. intros r Hr.
  apply in_map_iff in Hr. destruct Hr as [row [<- Hin]].
  unfold csv_text in H. rewrite Forall_forall in H. specialize (H row Hin).
  unfold row_texts.
  cbn [deck front back japanese hiragana english example_jp
       example_hiragana example_en forallb].
  rewrite Hd, !strip_encodable
    by (apply row_get_encodable; exact H).
  reflexivity.
Qed.

(** X18.  On files of encodable text (which text decoded from UTF-8 is), with
    deck names that are encodable, [main] writes the header and one record
    of 17 cells for every line of every card file, and returns 0. *)
Theorem build_main_total (csv_files : list (str * list csv_row))
        (manual_file manual_ex1_file : option (list csv_row)) :
  Forall (fun f => encodable (fst f) = true /\ csv_text (snd f)) csv_files ->
  file_text manual_file -> file_text manual_ex1_file ->
  exists records,
    build_vocab_master_main csv_files manual_file manual_ex1_file
    = (fieldnames :: records, Ok 0%Z)
    /\ length records = length (flat_map snd csv_files)
    /\ Forall (fun cells => length cells = 17) records.
Proof.
  intros H Hm Hm1. unfold build_vocab_master_main. cbv zeta.
  set (manual := load_manual_examples manual_file).
  set (manual_ex1 := load_manual_example1 manual_ex1_file).
  set (all_rows := flat_map (fun f => read_rows (snd f) (fst f)) csv_files).
  assert (Ht : Forall (fun r => forallb encodable (row_texts r) = true) all_rows).
  { subst all_rows. induction H as [|f fs [Hd Hf] _ IH]; [constructor|].
    cbn [flat_map]. apply Forall_app. split; [|exact IH].
    apply read_rows_encodable; assumption. }
  assert (Hw : Forall (fun r =>
                         exists cells,
                           (rowdict <- main_row manual manual_ex1 r ;;
                            writerow fieldnames rowdict) = Ok cells) all_rows).
  { apply Forall_forall. intros r Hr. rewrite Forall_forall in Ht.
    apply record_written; [exact (Ht r Hr) | |].
    - intros m. apply manual_examples_encodable. exact Hm.
    - intros ex. apply manual_example1_encodable. exact Hm1. }
  destruct (write_rows_cases manual manual_ex1 all_rows [fieldnames])
    as [records [Hf [Hall Hres]]].
  pose proof (write_rows_total manual manual_ex1 all_rows Hw [fieldnames])
    as Hs.
  destruct Hres as [[_ Hn] | [Hbad _]]; [|rewrite Hs in Hbad; discriminate].
  exists records. split.
  - destruct (write_rows manual manual_ex1 all_rows [fieldnames]) as [w res].
    cbn [fst snd] in Hf, Hs. rewrite Hf, Hs. reflexivity.
  - split; [|exact Hall]. rewrite Hn. subst all_rows. clear.
    induction csv_files as [|f fs IH]; [reflexivity|].
    cbn [flat_map]. rewrite !length_app, IH.
    unfold read_rows. rewrite length_map. reflexivity.
Qed.

Lemma build_main_total_witness :
  exists records,
    build_vocab_master_main [(u "03_tech_verbs", [card_line])] None
                            (Some [manual_line (u "きょう確認します。")])
    = (fieldnames :: records, Ok 0%Z)
    /\ length records = 1
    /\ Forall (fun cells => length cells = 17) records.
Proof.
  apply (build_main_total [(u "03_tech_verbs", [card_line])] None
                          (Some [manual_line (u "きょう確認します。")])).
  - repeat constructor.
  - exact I.
  - repeat constructor.
Defined.

(** The writing loop ends in one of two ways. *)
Lemma main_written_cases (csv_files : list (str * list csv_row))
      (manual_file manual_ex1_file : option (list csv_row)) :
  exists records,
    fst (build_vocab_master_main csv_files manual_file manual_ex1_file)
    = fieldnames :: records
    /\ Forall (fun cells => length cells = 17) records
    /\ (snd (build_vocab_master_main csv_files manual_file manual_ex1_file)
        = Ok 0%Z
        /\ length records = length (flat_map snd csv_files)
        \/ snd (build_vocab_master_main csv_files manual_file manual_ex1_file)
           = Raise UnicodeEncodeError
           /\ length records < length (flat_map snd csv_files)).
Proof.
  unfold build_vocab_master_main. cbv zeta.
  destruct (write_rows_cases (load_manual_examples manual_file)
              (load_manual_example1 manual_ex1_file)
              (flat_map (fun f => read_rows (snd f) (fst f)) csv_files)
              [fieldnames]) as [records [Hf [Hall Hres]]].
  exists records. split; [exact Hf|]. split; [exact Hall|].
  assert (E : length (flat_map (fun f => read_rows (snd f) (fst f)) csv_files)
              = length (flat_map snd csv_files)).
  { clear. induction csv_files as [|f fs IH]; [reflexivity|].
    cbn [flat_map]. rewrite !length_app, IH.
    unfold read_rows. rewrite length_map. reflexivity. }
  rewrite <- E. exact Hres.
Qed.

Lemma read_all_cases (csv_files : list (str * file_read)) :
  match read_all csv_files with
  | inr e => In (ReadRaises e) (map snd csv_files)
  | inl files =>
      (forall e, ~ In (ReadRaises e) (map snd csv_files))
      /\ flat_map snd files = card_lines csv_files
  end.
Proof.
  induction csv_files as [|[d [rows|e]] rest IH]; cbn [read_all].
  - split; [intros e [] | reflexivity].
  - destruct (read_all rest) as [files|e].
    + destruct IH as [Hno Hl]. split.
      * intros e [F | F]; [discriminate F | exact (Hno e F)].
      * unfold card_lines in *. cbn [flat_map snd]. rewrite Hl. reflexivity.
    + right. exact IH.
  - left. reflexivity.
Qed.

(** X19.  [main] ends in one of three ways.  When one of its inputs cannot be
    read, the exception of the reader ends it before the output file is
    opened.  Otherwise it returns 0 after writing the header and a record
    of 17 cells for every card, or it raises [UnicodeEncodeError] after
    writing the header and fewer records of 17 cells than there are
    cards.  No other exception leaves the writing loop. *)
Theorem build_main_outcome (csv_files : list (str * file_read))
        (manual_file manual_ex1_file : option file_read) :
  match build_vocab_master_run csv_files manual_file manual_ex1_file with
  | ReadFailed e =>
      In (ReadRaises e) (inputs csv_files manual_file manual_ex1_file)
  | Wrote written res =>
      (forall e,
          ~ In (ReadRaises e) (inputs csv_files manual_file manual_ex1_file))
      /\ exists records,
           written = fieldnames :: records
           /\ Forall (fun cells => length cells = 17) records
           /\ (res = Ok 0%Z
               /\ length records = length (card_lines csv_files)
               \/ res = Raise UnicodeEncodeError
                  /\ length records < length (card_lines csv_files))
  end.
Proof.
  unfold build_vocab_master_run, inputs.
  destruct manual_file as [[rows|e]|]; [| left; reflexivity |];
    (destruct manual_ex1_file as [[rows1|e1]|];
     [| apply in_or_app; right; left; reflexivity |]);
    pose proof (read_all_cases csv_files) as Hr;
    (destruct (read_all csv_files) as [files|e];
     [| repeat (apply in_or_app; right); exact Hr]);
    destruct Hr as [Hno Hl];
    match goal with
    | |- context [build_vocab_master_main files ?m ?m1] =>
        pose proof (main_written_cases files m m1) as Hw;
        destruct (build_vocab_master_main files m m1) as [written res]
    end;
    cbn [fst snd] in Hw; destruct Hw as [records [Hf [Hall Hres]]];
    rewrite Hl in Hres;
    (split; [| exists records; split; [exact Hf | split; [exact Hall | exact Hres]]]);
    intros e F; cbn [app] in F;
    repeat (destruct F as [F | F]; [discriminate F|]);
    exact (Hno e F).
Qed.

(** ** Headers *)

Lemma set_mem_iff (x : str) (l : list str) : set_mem x l = true <-> In x l.
Proof.
  unfold set_mem. rewrite existsb_exists. split.
  - intros [y [Hy E]]. apply str_eqb_eq in E. subst y. exact Hy.
  - intros H. exists x. split; [exact H | apply str_eqb_refl].
Qed.

Lemma set_mem_app (x : str) (a b : list str) :
  set_mem x (a ++ b) = set_mem x a || set_mem x b.
Proof. apply existsb_app. Qed.

(** A loop that appends the missing names of a list without repetition
    appends them all at once. *)
Lemma append_missing (names headers : list str) :
  NoDup names ->
  fold_left (fun headers h =>
               if negb (set_mem h headers) then headers ++ [h] else headers)
            names headers
  = headers ++ filter (fun h => negb (set_mem h headers)) names.
Proof.
  intros Hn. revert headers.
  induction Hn as [|n names Hnot Hnd IH]; intros headers.
  - simpl. rewrite app_nil_r. reflexivity.
  - cbn [fold_left filter]. destruct (set_mem n headers) eqn:E; cbn [negb].
    + apply IH.
    + rewrite IH, <- app_assoc. cbn [app]. do 2 f_equal.
      apply filter_ext_in. intros x Hx. rewrite set_mem_app.
      assert (Hxn : set_mem x [n] = false).
      { destruct (set_mem x [n]) eqn:Ex; [|reflexivity].
        apply set_mem_iff in Ex. destruct Ex as [-> | []]. contradiction. }
      rewrite Hxn, orb_false_r. reflexivity.
Qed.

Lemma needed_nodup : NoDup needed.
Proof.
  unfold needed.
  repeat (constructor; [cbn [In]; intros H;
                        repeat (destruct H as [H | H]; [discriminate H|]);
                        exact H|]).
  constructor.
Qed.

Lemma ensure_headers_eq (headers : list str) :
  ensure_headers headers
  = headers ++ filter (fun h => negb (set_mem h headers)) needed.
Proof. apply append_missing. exact needed_nodup. Qed.

Lemma ensure_headers_needed (headers : list str) :
  incl needed (ensure_headers headers).
Proof.
  rewrite ensure_headers_eq. intros h Hh. apply in_or_app.
  destruct (set_mem h headers) eqn:E.
  - left. apply set_mem_iff. exact E.
  - right. apply filter_In. split; [exact Hh|]. rewrite E. reflexivity.
Qed.

Lemma filter_none {A : Type} (f : A -> bool) (l : list A) :
  (forall x, In x l -> f x = false) -> filter f l = [].
Proof.
  induction l as [|x l IH]; intros H; [reflexivity|].
  cbn [filter]. rewrite (H x (or_introl eq_refl)).
  apply IH. intros y Hy. apply H. right. exact Hy.
Qed.

(** X20.  [ensure_headers] keeps the headers it is given, in their order, and
    appends the needed names that are missing, each once and in the order
    of the list of needed names: the result holds every needed name, and
    has no repetition if the headers had none. *)
Theorem ensure_headers_spec (headers : list str) :
  ensure_headers headers
  = headers ++ filter (fun h => negb (set_mem h headers)) needed
  /\ incl needed (ensure_headers headers)
  /\ (NoDup headers -> NoDup (ensure_headers headers)).
Proof.
  split; [apply ensure_headers_eq|].
  split; [apply ensure_headers_needed|].
  rewrite ensure_headers_eq.
  intros Hnd. apply NoDup_app.
  - exact Hnd.
  - apply NoDup_filter. exact needed_nodup.
  - intros h Hh Hf. apply filter_In in Hf. destruct Hf as [_ Hf].
    apply negb_true_iff in Hf.
    apply set_mem_iff in Hh. rewrite Hh in Hf. discriminate Hf.
Qed.

Lemma ensure_headers_spec_witness :
  NoDup (ensure_headers [u "Notes"; u "Japanese"; u "Extra"]).
Proof.
  apply (proj2 (proj2 (ensure_headers_spec [u "Notes"; u "Japanese"; u "Extra"]))).
  repeat (constructor; [cbn [In]; intros H;
                        repeat (destruct H as [H | H]; [discriminate H|]);
                        exact H|]).
  constructor.
Defined.

(** X21.  [ensure_headers] changes nothing the second time. *)
Theorem ensure_headers_idempotent (headers : list str) :
  ensure_headers (ensure_headers headers) = ensure_headers headers.
Proof.
  rewrite (ensure_headers_eq (ensure_headers headers)).
  rewrite filter_none; [apply app_nil_r|].
  intros h Hh. apply negb_false_iff. apply set_mem_iff.
  exact (ensure_headers_needed headers h Hh).
Qed.

(** ** Rows that need an example *)

Lemma str_eqb_neq (a b : str) : str_eqb a b = false <-> a <> b.
Proof.
  unfold str_eqb. destruct (list_eq_dec N.eq_dec a b); split; congruence.
Qed.

(** Lookup after an assignment. *)
Lemma dict_get_set {V : Type} (d : list (str * V)) (k k' : str) (v : V) :
  dict_get (dict_set d k v) k'
  = if str_eqb k' k then Some v else dict_get d k'.
Proof.
  induction d as [|[k0 v0] d IH]; simpl; [reflexivity|].
  destruct (str_eqb k k0) eqn:E; simpl.
  - apply str_eqb_eq in E. subst k0.
    destruct (str_eqb k' k); reflexivity.
  - rewrite IH. destruct (str_eqb k' k0) eqn:E0; [|reflexivity].
    apply str_eqb_eq in E0. subst k0.
    destruct (str_eqb k' k) eqn:E1; [|reflexivity].
    apply str_eqb_eq in E1. subst k'. rewrite str_eqb_refl in E.
    discriminate E.
Qed.

Lemma truthy_strip (s : str) : truthy (strip s) = has_text s.
Proof.
  unfold has_text. destruct (existsb _ s) eqn:E.
  - apply truthy_true. exact (strip_nonempty s E).
  - destruct (strip s) eqn:Es; [reflexivity|].
    assert (H : strip s <> []) by (rewrite Es; discriminate).
    apply strip_nonempty_inv in H. rewrite H in E. discriminate E.
Qed.

Lemma has_text_get (row : table_row) (name : str) :
  has_text (get_or_empty row name) = true
  <-> exists cell, dict_get row name = Some cell /\ has_text cell = true.
Proof.
  unfold get_or_empty. destruct (dict_get row name) as [cell|].
  - split; [intros H; exists cell; auto|].
    intros [c [E H]]. injection E as ->. exact H.
  - split; [discriminate|]. intros [c [E _]]. discriminate E.
Qed.

(** X22.  Without [--force] a row is passed over exactly when each of its three
    Example2 columns is there and holds a code point that is not white
    space; with [--force] no row is passed over. *)
Theorem should_generate_spec (row : table_row) :
  should_generate row true = true
  /\ (should_generate row false = false
      <-> forall name, In name example2_columns ->
            exists cell, dict_get row name = Some cell /\ has_text cell = true).
Proof.
  split; [reflexivity|].
  unfold should_generate. rewrite negb_false_iff, !truthy_strip.
  rewrite !andb_true_iff, !has_text_get. unfold example2_columns. split.
  - intros [[H1 H2] H3] name [<- | [<- | [<- | []]]]; assumption.
  - intros H. repeat split; apply H; cbn [In]; tauto.
Qed.

(** X23.  A row that has got an example which [validate_example2] accepts for a
    term that is not blank, with a translation that is not blank, is passed
    over by the next run without [--force]. *)
Theorem stored_example_not_regenerated (row : table_row) (ex : Example2)
        (japanese : str) :
  validate_example2 ex japanese = None ->
  has_text japanese = true -> has_text (en ex) = true ->
  should_generate (store_example2 row ex) false = false.
Proof.
  intros Hv Hj He. unfold should_generate, store_example2, get_or_empty.
  rewrite !dict_get_set. cbn [str_eqb]. rewrite negb_false_iff, !truthy_strip.
  change (str_eqb (u "Example2_JP") (u "Example2_EN")) with false.
  change (str_eqb (u "Example2_JP") (u "Example2_Hiragana")) with false.
  change (str_eqb (u "Example2_JP") (u "Example2_JP")) with true.
  change (str_eqb (u "Example2_Hiragana") (u "Example2_EN")) with false.
  change (str_eqb (u "Example2_Hiragana") (u "Example2_Hiragana")) with true.
  change (str_eqb (u "Example2_EN") (u "Example2_EN")) with true.
  cbv iota. rewrite He, andb_true_r.
  unfold validate_example2 in Hv.
  destruct (str_contains japanese (jp ex)) eqn:Ec; [|discriminate Hv].
  destruct (is_hiraganaish (hira ex)) eqn:Eh; [|discriminate Hv].
  apply andb_true_iff. split.
  - apply str_contains_iff in Ec. destruct Ec as [a [b ->]].
    unfold has_text. apply existsb_mid. exact Hj.
  - apply is_hiraganaish_iff in Eh. destruct Eh as [Hne _].
    rewrite <- truthy_strip. apply truthy_true. exact Hne.
Qed.

Lemma stored_example_not_regenerated_witness :
  should_generate
    (store_example2 [(u "Japanese", u "確認します"); (u "Example2_JP", [])]
                    (mkExample2 (u "いま、確認します。") (u "いま、かくにんします。")
                                (u "I will confirm now.")))
    false = false.
Proof.
  apply (stored_example_not_regenerated
           [(u "Japanese", u "確認します"); (u "Example2_JP", [])]
           (mkExample2 (u "いま、確認します。") (u "いま、かくにんします。")
                       (u "I will confirm now."))
           (u "確認します"));
    vm_compute; reflexivity.
Defined.

(** ** The text of a response *)

Lemma fold_left_collect {A B : Type} (f : list B -> A -> list B)
      (g : A -> list B) :
  (forall acc x, f acc x = acc ++ g x) ->
  forall l acc, fold_left f l acc = acc ++ flat_map g l.
Proof.
  intros H l. induction l as [|x l IH]; intros acc; simpl.
  - rewrite app_nil_r. reflexivity.
  - rewrite IH, H, <- app_assoc. reflexivity.
Qed.

(** The loops of [extract_response_text] collect the texts of the parts of
    the items, in order. *)
Lemma extract_response_text_eq (payload : list (str * json)) :
  extract_response_text payload
  = let fallback :=
      match dict_get payload (u "text") with
      | Some (JStr t) => strip t
      | _ => []
      end in
    match dict_get payload (u "output") with
    | Some (JList out) =>
        match flat_map item_texts out with
        | _ :: _ => strip (str_join line_feed (flat_map item_texts out))
        | [] => fallback
        end
    | _ => fallback
    end.
Proof.
  unfold extract_response_text. cbv zeta.
  destruct (dict_get payload (u "output")) as [[| | | | |out|]|]; try reflexivity.
  rewrite (fold_left_collect _ item_texts); [reflexivity|].
  intros acc item. unfold item_texts.
  destruct item as [| | | | | |item]; try (rewrite app_nil_r; reflexivity).
  destruct (dict_get item (u "content")) as [[| | | | |content|]|];
    try (rewrite app_nil_r; reflexivity).
  apply (fold_left_collect _ part_texts).
  clear. intros acc c. unfold part_texts.
  destruct c as [| | | | | |c]; try (rewrite app_nil_r; reflexivity).
  destruct (dict_get c (u "type")) as [[| | | |ty| |]|];
    try (rewrite app_nil_r; reflexivity).
  destruct (str_eqb ty (u "output_text")); [|rewrite app_nil_r; reflexivity].
  destruct (dict_get c (u "text")) as [[| | | |t| |]|];
    try (rewrite app_nil_r; reflexivity).
  reflexivity.
Qed.

(** X24.  What [extract_response_text] returns never begins or ends with white
    space. *)
Theorem extract_response_text_stripped (payload : list (str * json)) :
  stripped (extract_response_text payload).
Proof.
  rewrite extract_response_text_eq. cbv zeta. unfold stripped.
  assert (F : strip match dict_get payload (u "text") with
                    | Some (JStr t) => strip t
                    | _ => []
                    end
              = match dict_get payload (u "text") with
                | Some (JStr t) => strip t
                | _ => []
                end).
  { destruct (dict_get payload (u "text")) as [[| | | |t| |]|];
      try reflexivity. apply strip_idem. }
  destruct (dict_get payload (u "output")) as [[| | | | |out|]|];
    try exact F.
  destruct (flat_map item_texts out); [exact F | apply strip_idem].
Qed.

Lemma part_texts_text_part (t : str) : part_texts (text_part t) = [t].
Proof. reflexivity. Qed.

Lemma item_texts_message (texts : list str) : item_texts (message texts) = texts.
Proof.
  unfold message, item_texts.
  change (dict_get _ (u "content")) with (Some (JList (map text_part texts))).
  cbv iota. induction texts as [|t texts IH]; [reflexivity|].
  cbn [map flat_map]. rewrite IH, part_texts_text_part. reflexivity.
Qed.

(** X25.  For a response in the documented shape, with one text at least, the
    result is the texts of all the messages joined by line feeds, without
    the white space around the whole; the other members of the payload,
    its [text] among them, play no part. *)
Theorem extract_response_text_messages (payload : list (str * json))
        (messages : list (list str)) :
  dict_get payload (u "output") = Some (JList (map message messages)) ->
  concat messages <> [] ->
  extract_response_text payload
  = strip (str_join line_feed (concat messages)).
Proof.
  intros Ho Hne. rewrite extract_response_text_eq. cbv zeta. rewrite Ho.
  assert (E : flat_map item_texts (map message messages) = concat messages).
  { clear. induction messages as [|m ms IH]; [reflexivity|].
    cbn [map flat_map concat]. rewrite IH, item_texts_message. reflexivity. }
  rewrite E. destruct (concat messages); [congruence | reflexivity].
Qed.

Lemma extract_response_text_messages_witness :
  extract_response_text
    [ (u "text", JStr (u "not this"));
      (u "output", JList (map message [[u " first"]; []; [u "second "]])) ]
  = strip (str_join line_feed (concat [[u " first"]; []; [u "second "]])).
Proof.
  apply (extract_response_text_messages
           [ (u "text", JStr (u "not this"));
             (u "output", JList (map message [[u " first"]; []; [u "second "]])) ]
           [[u " first"]; []; [u "second "]]).
  - reflexivity.
  - discriminate.
Defined.

(** ** The run of llm_expand_examples.py *)

Lemma validate_message_nonempty (ex2 : Example2) (japanese message : str) :
  validate_example2 ex2 japanese = Some message -> message <> [].
Proof.
  unfold validate_example2.
  destruct (negb _); [intros H; injection H as <-; discriminate|].
  destruct (negb _); [intros H; injection H as <-; discriminate|].
  destruct (_ >? _)%Z; [intros H; injection H as <-; discriminate|].
  destruct (_ >? _)%Z; [intros H; injection H as <-; discriminate|].
  discriminate.
Qed.

Lemma requests_app (a b : list event) :
  requests (a ++ b) = requests a + requests b.
Proof. unfold requests. rewrite filter_app, length_app. reflexivity. Qed.

Lemma requests_requested (events : list event) (req : request) :
  requests (events ++ [Requested req]) = S (requests events).
Proof. rewrite requests_app. unfold requests at 2. cbn. lia. Qed.

Lemma requests_appended (events : list event) (key deck japanese english : str)
      (example2 : table_row) :
  requests (events ++ [Appended key deck japanese english example2])
  = requests events.
Proof. rewrite requests_app. unfold requests at 2. cbn. lia. Qed.

Lemma requests_printed (events : list event) (l : line) :
  requests (events ++ [Printed l]) = requests events.
Proof. rewrite requests_app. unfold requests at 2. cbn. lia. Qed.

(** The columns of a row after the three assignments. *)
Lemma store_example2_get (row : table_row) (ex2 : Example2) (name : str) :
  dict_get (store_example2 row ex2) name
  = if str_eqb name (u "Example2_EN") then Some (en ex2)
    else if str_eqb name (u "Example2_Hiragana") then Some (hira ex2)
    else if str_eqb name (u "Example2_JP") then Some (jp ex2)
    else dict_get row name.
Proof. unfold store_example2. rewrite !dict_get_set. reflexivity. Qed.

Lemma store_example2_twice (row : table_row) (ex ex' : Example2) (name : str) :
  dict_get (store_example2 (store_example2 row ex) ex') name
  = dict_get (store_example2 row ex') name.
Proof.
  rewrite !store_example2_get.
  destruct (str_eqb name (u "Example2_EN")); [reflexivity|].
  destruct (str_eqb name (u "Example2_Hiragana")); [reflexivity|].
  destruct (str_eqb name (u "Example2_JP")); reflexivity.
Qed.

Lemma dict_set_cells {V : Type} (P : V -> Prop) (d : list (str * V)) (k : str)
      (v : V) :
  Forall (fun kv => P (snd kv)) d -> P v ->
  Forall (fun kv => P (snd kv)) (dict_set d k v).
Proof.
  intros Hd Hv. induction Hd as [|[k0 v0] d H0 Hd IH]; cbn [dict_set].
  - constructor; [exact Hv | constructor].
  - destruct (str_eqb k k0); constructor; assumption.
Qed.

(** The entries that the attempts add to the cache are examples that pass
    the validation for the term of the request. *)
Lemma attempts_cache {world : Type} (gen : client world) (print : console world)
      (P : table_row -> Prop) (n : nat) (req : request) (key : str)
      (number total : nat) :
  (forall ex2, validate_example2 ex2 (req_japanese req) = None ->
               P (cache_entry ex2)) ->
  forall (row : table_row) (st : run world) (last_err : option err_text)
         (row' : table_row) (st' : run world) (last_err' : option err_text),
  Forall (fun kv => P (snd kv)) (run_cache st) ->
  attempts gen print n req key number total row st last_err
  = (row', st', last_err') ->
  Forall (fun kv => P (snd kv)) (run_cache st').
Proof.
  intros HP. induction n as [|n IH];
    intros row st last_err row' st' last_err' Hc.
  - cbn [attempts]. intros H. injection H as _ <- _. exact Hc.
  - cbn [attempts]. destruct (gen (run_world st) req) as [response w].
    destruct response as [ex2|message]; [|apply IH; exact Hc].
    destruct (validate_example2 ex2 (req_japanese req)) as [[|c err]|] eqn:Ev.
    + apply validate_message_nonempty in Ev. congruence.
    + apply IH. exact Hc.
    + assert (Hcache : Forall (fun kv => P (snd kv))
                              (dict_set (run_cache st) key (cache_entry ex2)))
        by (apply dict_set_cells; [exact Hc | exact (HP ex2 Ev)]).
      destruct (jsonl_encodable key req (cache_entry ex2)).
      * cbn [run_world run_cache run_generated run_events].
        destruct (print w _) as [[message|] w1].
        -- apply IH. exact Hcache.
        -- intros H. injection H as _ <- _. exact Hcache.
      * apply IH. exact Hcache.
Qed.

(** The attempts for one row: at most [n] calls; the counter goes up by
    [n] at most, and by one at most when the line of a row that got an
    example can be printed; the row changes only to hold an example that
    passes the validation. *)
Lemma attempts_cases {world : Type} (gen : client world) (print : console world)
      (n : nat) (req : request) (key : str) (number total : nat) :
  forall (row : table_row) (st : run world) (last_err : option err_text)
         (row' : table_row) (st' : run world) (last_err' : option err_text),
  attempts gen print n req key number total row st last_err
  = (row', st', last_err') ->
  requests (run_events st') <= requests (run_events st) + n
  /\ (run_generated st <= run_generated st'
      <= run_generated st + Z.of_nat n)%Z
  /\ (prints_ok print -> (run_generated st' <= run_generated st + 1)%Z)
  /\ (row' = row
      \/ exists ex2,
           validate_example2 ex2 (req_japanese req) = None
           /\ forall name,
                dict_get row' name = dict_get (store_example2 row ex2) name).
Proof.
  induction n as [|n IH]; intros row st last_err row' st' last_err'.
  - cbn [attempts]. intros H. injection H as <- <- _.
    split; [lia|]. split; [cbn; lia|]. split; [intros _; lia|].
    left; reflexivity.
  - cbn [attempts]. destruct (gen (run_world st) req) as [response w].
    destruct response as [ex2|message].
    + destruct (validate_example2 ex2 (req_japanese req)) as [[|c err]|] eqn:Ev.
      * apply validate_message_nonempty in Ev. congruence.
      * intros H. apply IH in H. cbn [run_events run_generated run_cache] in H.
        rewrite requests_requested in H.
        destruct H as [Hr [Hg [Hp Hc]]].
        split; [lia|]. split; [lia|]. split; assumption.
      * destruct (jsonl_encodable key req (cache_entry ex2)).
        { cbn [run_world run_cache run_generated run_events].
          destruct (print w _) as [[message|] w1] eqn:Ep.
          - intros H. apply IH in H.
            cbn [run_events run_generated run_cache] in H.
            rewrite requests_appended, requests_requested in H.
            destruct H as [Hr [Hg [_ Hc]]].
            split; [lia|]. split; [lia|]. split.
            + intros Hp. specialize (Hp w (run_generated st + 1)%Z number total
                                       (req_deck req) (req_japanese req)).
              rewrite Ep in Hp. discriminate Hp.
            + right. destruct Hc as [-> | [ex2' [Hv Hn]]].
              { exists ex2. split; [exact Ev | reflexivity]. }
              exists ex2'. split; [exact Hv|]. intros name.
              rewrite Hn. apply store_example2_twice.
          - intros H. injection H as <- <- _.
            cbn [run_events run_generated run_cache].
            rewrite requests_printed, requests_appended, requests_requested.
            split; [lia|]. split; [lia|]. split; [intros _; lia|].
            right. exists ex2. split; [exact Ev | reflexivity]. }
        intros H. apply IH in H. cbn [run_events run_generated run_cache] in H.
        rewrite requests_requested in H.
        destruct H as [Hr [Hg [Hp Hc]]].
        split; [lia|]. split; [lia|]. split; [exact Hp|].
        right. destruct Hc as [-> | [ex2' [Hv Hn]]].
        { exists ex2. split; [exact Ev | reflexivity]. }
        exists ex2'. split; [exact Hv|]. intros name.
        rewrite Hn. apply store_example2_twice.
    + intros H. apply IH in H. cbn [run_events run_generated run_cache] in H.
      rewrite requests_requested in H.
      destruct H as [Hr [Hg [Hp Hc]]].
      split; [lia|]. split; [lia|]. split; assumption.
Qed.

(** The warning and the pause change neither the cache nor the counter,
    and call no client. *)
Lemma after_attempts_cases {world : Type} (print : console world) (args : Args)
      (number : nat) (deck japanese : str) (row : table_row) (st : run world)
      (last_err : option err_text) (st' : run world) :
  after_attempts print args number deck japanese row st last_err = inl st' ->
  run_cache st' = run_cache st /\ run_generated st' = run_generated st
  /\ requests (run_events st') = requests (run_events st).
Proof.
  unfold after_attempts. cbv zeta.
  assert (Hsleep : forall s : run world,
            match args_sleep args with
            | SleepRaises => inr SleepRaised
            | _ => inl s
            end = inl st' -> st' = s).
  { intros s. destruct (args_sleep args); intros H;
      [injection H as <- | injection H as <- | discriminate H]; reflexivity. }
  destruct last_err as [text|].
  - destruct (err_truthy (Some text) && _).
    + destruct (print (run_world st) _) as [[message|] w]; [discriminate|].
      intros H. apply Hsleep in H. subst st'.
      cbn [run_cache run_generated run_events].
      rewrite requests_printed. auto.
    + intros H. apply Hsleep in H. subst st'. auto.
  - intros H. apply Hsleep in H. subst st'. auto.
Qed.

(** The part of the body that generates an example. *)
Lemma generation_cases {world : Type} (gen : client world)
      (print : console world) (args : Args)
      (cache : list (str * table_row)) (rows : list table_row)
      (i total : nat) (row : table_row) (st : run world) (req : request)
      (key : str) (row' : table_row) (st' : run world) (reached_end : bool) :
  In row rows ->
  Forall (fun kv => cache_origin cache rows (snd kv)) (run_cache st) ->
  req_japanese req = term_of row ->
  (let '(row0, st0, last_err) :=
     attempts gen print 3 req key (S i) total row st None in
   match after_attempts print args (S i) (req_deck req) (req_japanese req)
                        row0 st0 last_err with
   | inl st1 => inl (row0, st1, true)
   | inr e => inr e
   end) = inl (row', st', reached_end) ->
  requests (run_events st') <= requests (run_events st) + 3
  /\ row_change cache rows row row'
  /\ (run_generated st' = run_generated st
      \/ reached_end = true
         /\ (run_generated st <= run_generated st' <= run_generated st + 3)%Z)
  /\ (prints_ok print -> (run_generated st' <= run_generated st + 1)%Z)
  /\ Forall (fun kv => cache_origin cache rows (snd kv)) (run_cache st').
Proof.
  intros Hin Hcache Hterm.
  destruct (attempts gen print 3 req key (S i) total row st None)
    as [[row0 st0] last_err] eqn:Ea.
  assert (Hcache0 : Forall (fun kv => cache_origin cache rows (snd kv))
                           (run_cache st0)).
  { refine (attempts_cache gen print (cache_origin cache rows) 3 req key (S i)
                           total _ _ _ _ _ _ _ Hcache Ea).
    intros ex2 Hv. right. exists ex2, row.
    split; [exact Hin|]. split; [rewrite <- Hterm; exact Hv | reflexivity]. }
  apply attempts_cases in Ea. destruct Ea as [Hr [Hg [Hp Hc]]].
  destruct (after_attempts print args (S i) (req_deck req) (req_japanese req)
                           row0 st0 last_err) as [st1|e] eqn:Eafter;
    [|discriminate].
  apply after_attempts_cases in Eafter. destruct Eafter as [E1 [E2 E3]].
  intros H. injection H as <- <- <-.
  rewrite E1, E2, E3.
  split; [exact Hr|]. split; [|split; [|split; [exact Hp | exact Hcache0]]].
  - destruct Hc as [-> | [ex2 [Hv Hn]]]; [apply row_kept; reflexivity|].
    rewrite Hterm in Hv. exact (row_generated cache rows row row0 ex2 Hv Hn).
  - right. split; [reflexivity|]. cbn in Hg. lia.
Qed.

(** The body of the loop, for one row of the table. *)
Lemma main_body_cases {world : Type} (gen : client world)
      (print : console world) (args : Args)
      (cache : list (str * table_row)) (rows : list table_row)
      (i total : nat) (row : table_row) (st : run world)
      (row' : table_row) (st' : run world) (reached_end : bool) :
  In row rows ->
  Forall (fun kv => cache_origin cache rows (snd kv)) (run_cache st) ->
  main_body gen print args i total row st = inl (row', st', reached_end) ->
  requests (run_events st') <= requests (run_events st) + 3
  /\ row_change cache rows row row'
  /\ (run_generated st' = run_generated st
      \/ reached_end = true
         /\ (run_generated st <= run_generated st' <= run_generated st + 3)%Z)
  /\ (prints_ok print -> (run_generated st' <= run_generated st + 1)%Z)
  /\ Forall (fun kv => cache_origin cache rows (snd kv)) (run_cache st').
Proof.
  intros Hin Hcache. unfold main_body. cbv zeta.
  assert (Hkeep : forall b,
            @inl (table_row * run world * bool) uncaught (row, st, false)
            = inl (row', st', b) ->
            requests (run_events st') <= requests (run_events st) + 3
            /\ row_change cache rows row row'
            /\ (run_generated st' = run_generated st
                \/ b = true
                   /\ (run_generated st <= run_generated st'
                       <= run_generated st + 3)%Z)
            /\ (prints_ok print ->
                (run_generated st' <= run_generated st + 1)%Z)
            /\ Forall (fun kv => cache_origin cache rows (snd kv))
                      (run_cache st')).
  { intros b H. injection H as <- <- _.
    split; [lia|]. split; [apply row_kept; reflexivity|].
    split; [left; reflexivity|]. split; [intros _; lia | exact Hcache]. }
  destruct (truthy (args_deck args) && _); [apply Hkeep|].
  destruct (falsy _ || falsy _); [apply Hkeep|].
  destruct (negb (should_generate row (args_force args))); [apply Hkeep|].
  destruct (stable_key _ _ _ _) as [key|e]; [|discriminate].
  pose proof (generation_cases gen print args cache rows i total row st
                (mkRequest (strip (get_or_empty row (u "Deck")))
                   (strip (str_or (get_or_empty row (u "Japanese"))
                                  (get_or_empty row (u "Front"))))
                   (strip (get_or_empty row (u "Hiragana")))
                   (strip (get_or_empty row (u "English")))
                   (strip (get_or_empty row (u "Example_JP")))
                   (strip (get_or_empty row (u "Example_EN"))))
                key row' st' reached_end Hin Hcache eq_refl) as Hgen.
  cbn [req_deck req_japanese] in Hgen.
  destruct (dict_get (run_cache st) key) as [[|entry entries]|] eqn:Eget;
    [exact Hgen | | exact Hgen].
  destruct (args_force args); [exact Hgen|].
  intros H. injection H as <- <- _.
  split; [lia|].
  split; [|split; [left; reflexivity | split; [intros _; lia | exact Hcache]]].
  refine (row_cached cache rows row _ (entry :: entries) _ eq_refl).
  apply dict_get_in in Eget. rewrite Forall_forall in Hcache.
  exact (Hcache _ Eget).
Qed.

(** The loop over the rows. *)
Lemma main_loop_cases {world : Type} (gen : client world)
      (print : console world) (args : Args)
      (cache : list (str * table_row)) (rows0 : list table_row)
      (total : nat) (rows : list table_row) :
  incl rows rows0 ->
  forall (i : nat) (st : run world) (rows' : list table_row) (st' : run world),
  Forall (fun kv => cache_origin cache rows0 (snd kv)) (run_cache st) ->
  main_loop gen print args total i rows st = inl (rows', st') ->
  Forall2 (row_change cache rows0) rows rows'
  /\ requests (run_events st') <= requests (run_events st) + 3 * length rows
  /\ ((0 < args_limit args)%Z ->
      (run_generated st < args_limit args)%Z ->
      (run_generated st' <= args_limit args + 2)%Z
      /\ (prints_ok print -> (run_generated st' <= args_limit args)%Z)).
Proof.
  induction rows as [|row rest IH]; intros Hincl i st rows' st' Hcache H.
  - cbn [main_loop] in H. injection H as <- <-.
    split; [constructor|]. split; [lia|]. intros; split; [lia | intros _; lia].
  - cbn [main_loop] in H.
    destruct (main_body gen print args i total row st)
      as [[[row1 st1] reached_end]|e] eqn:Hb; [|discriminate H].
    apply (main_body_cases gen print args cache rows0) in Hb;
      [|apply Hincl; left; reflexivity | exact Hcache].
    destruct Hb as [Hr [Hc [Hg [Hp Hcache1]]]].
    destruct (reached_end && negb (args_limit args =? 0)%Z
              && (run_generated st1 >=? args_limit args)%Z) eqn:Ebrk.
    + injection H as <- <-.
      split.
      { constructor; [exact Hc|].
        clear. induction rest; constructor;
          [apply row_kept; reflexivity | assumption]. }
      split; [cbn [length]; lia|].
      intros Hpos Hlt. split.
      * destruct Hg as [Hg | [_ Hg]]; lia.
      * intros Hok. specialize (Hp Hok). lia.
    + destruct (main_loop gen print args total (S i) rest st1)
        as [[rest' st2]|e] eqn:Hl; [|discriminate H].
      injection H as <- <-.
      apply IH in Hl;
        [|intros r Hr0; apply Hincl; right; exact Hr0 | exact Hcache1].
      destruct Hl as [Hf [Hr2 Hg2]].
      split; [constructor; assumption|].
      split; [cbn [length]; lia|].
      intros Hpos Hlt. apply (Hg2 Hpos).
      destruct Hg as [Hg | [-> Hg]]; [lia|].
      cbn [andb] in Ebrk. apply andb_false_iff in Ebrk.
      destruct Ebrk as [E | E].
      * apply negb_false_iff in E. apply Z.eqb_eq in E. lia.
      * destruct (Z.geb_spec (run_generated st1) (args_limit args)) as [G|G];
          [discriminate E | lia].
Qed.

(** Every entry of the cache file has its origin in the cache file. *)
Lemma cache_origin_start (cache : list (str * table_row))
      (rows : list table_row) :
  Forall (fun kv => cache_origin cache rows (snd kv)) cache.
Proof.
  apply Forall_forall. intros kv Hin. left. apply in_map. exact Hin.
Qed.

Lemma main_returns {world : Type} (gen : client world) (print : console world)
      (args : Args) (api_key : option str) (headers : list str)
      (rows : list table_row) (cache : list (str * table_row)) (w : world)
      (code : Z) (table : list (list str)) (st : run world) :
  llm_expand_examples_main gen print args api_key headers rows cache w
  = Returns code table st ->
  exists rows' st0,
    main_loop gen print args (length rows) 0 rows (mkRun cache 0%Z [] w)
    = inl (rows', st0)
    /\ code = 0%Z /\ table = write_csv_rows (ensure_headers headers) rows'
    /\ run_generated st = run_generated st0
    /\ requests (run_events st) = requests (run_events st0).
Proof.
  unfold llm_expand_examples_main. cbv zeta.
  destruct (falsy _); [discriminate|].
  destruct (main_loop _ _ _ _ _ _ _) as [[rows' st0]|e]; [|discriminate].
  destruct (forallb _ _); [|discriminate].
  destruct (print (run_world st0) _) as [[message|] w1]; [discriminate|].
  intros H. injection H as <- <- <-. exists rows', st0.
  cbn [run_generated run_events]. rewrite requests_printed. auto.
Qed.

(** X26.  When a run returns, it returns 0, and the table it has written holds,
    under the ensured headers, one record for every row read, in order;
    each row is as it was read, or updated from an entry of the cache, or
    differs from the row read by its three Example2 columns, which hold an
    example that [validate_example2] accepts for the term of the row.  An
    entry of the cache comes from the cache file or is such an example for
    a row of the table: whatever the client answers, no example of its own
    that fails the validation reaches the table. *)
Theorem run_stores_validated {world : Type} (gen : client world)
        (print : console world) (args : Args)
        (api_key : option str) (headers : list str) (rows : list table_row)
        (cache : list (str * table_row)) (w : world)
        (code : Z) (table : list (list str)) (st : run world) :
  llm_expand_examples_main gen print args api_key headers rows cache w
  = Returns code table st ->
  code = 0%Z
  /\ exists rows',
       table = write_csv_rows (ensure_headers headers) rows'
       /\ Forall2 (row_change cache rows) rows rows'.
Proof.
  intros H. apply main_returns in H.
  destruct H as [rows' [st0 [Hl [Hc [Ht _]]]]].
  split; [exact Hc|]. exists rows'. split; [exact Ht|].
  exact (proj1 (main_loop_cases gen print args cache rows _ rows
                                (incl_refl rows)
                                0 (mkRun cache 0%Z [] w) rows' st0
                                (cache_origin_start cache rows) Hl)).
Qed.


(** X28.  With [--limit N], [N] positive, a run generates at most [N + 2]
    examples, and at most [N] when the line of every row that got an
    example can be printed: that line is printed inside the [try], after
    the counter has gone up, so that a [print] that raises leads to a new
    attempt on the same row. *)
Theorem run_limit {world : Type} (gen : client world) (print : console world)
        (args : Args)
        (api_key : option str) (headers : list str) (rows : list table_row)
        (cache : list (str * table_row)) (w : world)
        (code : Z) (table : list (list str)) (st : run world) :
  llm_expand_examples_main gen print args api_key headers rows cache w
  = Returns code table st ->
  (0 < args_limit args)%Z ->
  (run_generated st <= args_limit args + 2)%Z
  /\ (prints_ok print -> (run_generated st <= args_limit args)%Z).
Proof.
  intros H Hpos. apply main_returns in H.
  destruct H as [rows' [st0 [Hl [_ [_ [Hg _]]]]]]. rewrite Hg.
  exact (proj2 (proj2 (main_loop_cases gen print args cache rows _ rows
                                       (incl_refl rows) 0
                                       (mkRun cache 0%Z [] w) rows' st0
                                       (cache_origin_start cache rows) Hl))
               Hpos Hpos).
Qed.

(** *** Runs on encodable text *)


















Lemma run_stores_validated_witness :
  exists table st rows',
    llm_expand_examples_main client_third_time console_utf8
                             (mkArgs false 0 [] SleepReturns (u "out.csv"))
                             (Some (u "sk-test")) [] [table_line; table_line]
                             [] 0
    = Returns 0 table st
    /\ table = write_csv_rows (ensure_headers []) rows'
    /\ Forall2 (row_change [] [table_line; table_line])
               [table_line; table_line] rows'.
Proof.
  eexists. eexists.
  assert (H : llm_expand_examples_main client_third_time console_utf8
                (mkArgs false 0 [] SleepReturns (u "out.csv"))
                (Some (u "sk-test")) [] [table_line; table_line] [] 0
              = Returns 0 ?[table] ?[st]) by (vm_compute; reflexivity).
  destruct (run_stores_validated _ _ _ _ _ _ _ _ _ _ _ H)
    as [_ [rows' [Ht Hc]]].
  exists rows'. split; [exact H|]. split; assumption.
Defined.


(** The bound [N + 2] is reached: with [--limit 1] and a standard output
    that cannot encode the term, the one row is generated three times. *)
Lemma run_limit_witness :
  (exists table st,
      llm_expand_examples_main client_third_time console_ascii
                               (mkArgs false 1 [] SleepReturns (u "out.csv"))
                               (Some (u "sk-test")) []
                               [table_line; table_line] [] 2
      = Returns 0 table st
      /\ run_generated st = 3%Z
      /\ (run_generated st <= 1 + 2)%Z)
  /\ (exists table st,
         llm_expand_examples_main client_third_time console_utf8
                                  (mkArgs true 1 [] SleepReturns (u "out.csv"))
                                  (Some (u "sk-test")) []
                                  [table_line; table_line; table_line] [] 2
         = Returns 0 table st
         /\ (run_generated st <= 1)%Z).
Proof.
  split.
  - eexists. eexists.
    assert (H : llm_expand_examples_main client_third_time console_ascii
                  (mkArgs false 1 [] SleepReturns (u "out.csv"))
                  (Some (u "sk-test")) [] [table_line; table_line] [] 2
                = Returns 0 ?[table] ?[st]) by (vm_compute; reflexivity).
    split; [exact H|]. split; [reflexivity|].
    exact (proj1 (run_limit _ _ _ _ _ _ _ _ _ _ _ H eq_refl)).
  - eexists. eexists.
    assert (H : llm_expand_examples_main client_third_time console_utf8
                  (mkArgs true 1 [] SleepReturns (u "out.csv"))
                  (Some (u "sk-test")) []
                  [table_line; table_line; table_line] [] 2
                = Returns 0 ?[table] ?[st]) by (vm_compute; reflexivity).
    split; [exact H|].
    apply (proj2 (run_limit _ _ _ _ _ _ _ _ _ _ _ H eq_refl)).
    intros w generated number total deck japanese. reflexivity.
Defined.

(** ** The run of rebuild_vocab_master.py *)

Example str_of_int_values :
  str_of_int 0 = u "0" /\ str_of_int 25 = u "25"
  /\ str_of_int 1000 = u "1000" /\ str_of_int (-7) = u "-7".
Proof. repeat split; reflexivity. Qed.

Example llm_command_value :
  llm_command (u "python3") (mkRebuildArgs true 25 (u "03_tech_verbs") true)
  = [ u "python3"; u "tools/llm_expand_examples.py";
      u "--input"; u "data/vocab_master.csv";
      u "--output"; u "data/vocab_master.csv";
      u "--limit"; u "25"; u "--deck"; u "03_tech_verbs"; u "--force" ].
Proof. vm_compute. reflexivity. Qed.

(** X30.  A rebuild runs the build first, and after it at most one command, the
    expansion of the table in place; the expansion is run exactly when the
    build has succeeded, [--with-llm] is given and the environment holds a
    key that is not blank.  The run returns 0 only if every command it has
    run succeeded. *)
Theorem rebuild_runs_build_first {world : Type} (check_call : process world)
        (executable : str) (args : RebuildArgs) (api_key : option str)
        (w : world) :
  let '(out, commands, _) :=
    rebuild_vocab_master_main check_call executable args api_key w in
  (commands = [build_command executable]
   \/ commands = [build_command executable; llm_command executable args])
  /\ (length commands = 2
      <-> fst (check_call w (build_command executable)) = true
          /\ with_llm args = true /\ has_text (or_empty api_key) = true)
  /\ firstn 6 (llm_command executable args)
     = [ executable; u "tools/llm_expand_examples.py";
         u "--input"; u "data/vocab_master.csv";
         u "--output"; u "data/vocab_master.csv" ]
  /\ (out = RebuildReturns 0 ->
      fst (check_call w (build_command executable)) = true
      /\ (length commands = 2 ->
          fst (check_call (snd (check_call w (build_command executable)))
                          (llm_command executable args)) = true)).
Proof.
  unfold rebuild_vocab_master_main.
  pose proof (truthy_strip (or_empty api_key)) as Hk. unfold truthy in Hk.
  assert (Hcmd : firstn 6 (llm_command executable args)
                 = [ executable; u "tools/llm_expand_examples.py";
                     u "--input"; u "data/vocab_master.csv";
                     u "--output"; u "data/vocab_master.csv" ]).
  { unfold llm_command. cbv zeta.
    destruct (negb (llm_limit args =? 0)%Z), (truthy (llm_deck args)),
      (force args); reflexivity. }
  destruct (check_call w (build_command executable)) as [built w1].
  cbn [fst snd].
  destruct built; cbn [negb].
  2:{ split; [left; reflexivity|]. split; [|split; [exact Hcmd|]].
      - split; [discriminate | intros [H _]; discriminate H].
      - discriminate. }
  destruct (with_llm args); cbn [negb].
  2:{ split; [left; reflexivity|]. split; [|split; [exact Hcmd|]].
      - split; [discriminate | intros [_ [H _]]; discriminate H].
      - intros _. split; [reflexivity | discriminate]. }
  destruct (falsy (strip (or_empty api_key))); cbn [negb] in Hk.
  { split; [left; reflexivity|]. split; [|split; [exact Hcmd|]].
    - split; [discriminate|]. intros [_ [_ H]]. rewrite H in Hk. discriminate Hk.
    - discriminate. }
  destruct (check_call w1 (llm_command executable args)) as [expanded w2].
  cbn [fst].
  destruct expanded; cbn [negb].
  - split; [right; reflexivity|]. split; [|split; [exact Hcmd|]].
    + split; [intros _; auto | reflexivity].
    + intros _. split; reflexivity.
  - split; [right; reflexivity|]. split; [|split; [exact Hcmd|]].
    + split; [intros _; auto | reflexivity].
    + discriminate.
Qed.
